(* ===== verification/_CoqProject ===== *)
-Q . S2P
Prelude.v
Levenshtein.v
Spells.v
JsNumber.v
Achievements.v
GameState.v
AI.v
Session.v
View.v
Notifications.v
Timers.v
Page.v
