(* ===== verification/Prelude.v ===== *)
(** * A verification development of the duel engine of Harry-Potter-RPG

    The program (TypeScript, React) is a two-player spell duel. Its parts,
    and the files that model them:

    - the spell catalog and the resolver, [src/src/data/spells.ts]:
      [Spells.v] holds the [Spell] record, the 15 entries of [SPELLS]
      verbatim, JavaScript's [toLowerCase] and [trim] on ASCII strings,
      and [findSpell] (direct match, then the fuzzy loop as a
      [fold_left] of [findSpell_step]); [Levenshtein.v] holds
      [levenshteinDistance] as the matrix program it is, row by row
      ([lev_row_from], [lev_rows], [lev_matrix], [lev_dp]);
    - the achievements, [src/src/data/achievements.ts]: [Achievements.v]
      holds [GameStats], the catalog [ACHIEVEMENTS] with each predicate
      as a boolean function, [checkAchievements], and the merge that
      [endGame] runs on its result ([mergeUnlocked], [unlockStep]);
    - the battle engine, [src/src/hooks/useGameState.ts]: [GameState.v]
      holds the state record and one function per [setGameState]
      updater: [startGame], [castSpell] (with [castUpdate], [charge],
      [applyEffect], [castStats], [unknownStats]), the regeneration
      interval's body [regenTick], [endGame] and [resetGame]; and the
      exported operations as [engine_op], applied in sequence by
      [run_ops]. [castSpell] is generic over the class [SpellResolver]
      of [Spells.v], which states what the engine needs of the lookup
      (a result is a catalog entry); [findSpell_resolver] discharges it;
    - the computer opponent, [getAISpell] of [useGameState.ts]: [AI.v],
      with [Math.random]'s draw as an index parameter;
    - the page, [src/src/pages/Index.tsx], [GameArena.tsx] and
      [GameMenu.tsx], with the two effects of [useGameState]:
      [Session.v] holds the page state [Session] and the step relation
      [step] whose rules are the events the page lets happen (menu
      buttons, typed casts, the computer's timed cast, regeneration
      ticks, the auto-end effect, leaving the arena, the notification
      effect, a card's 300 ms timer removing its entry from
      [newAchievements]), [reachable] as its reflexive-transitive closure ([star]
      below), and [play], an executable run of typed casts;
    - the two timers of [useGameState] (the computer's 1500 ms timeout
      and the 1000 ms regeneration interval): [Timers.v] adds to the
      page a clock and the due time of each timer. It has the effects'
      dependency lists ([regen_effect], [ai_deps_changed], [ai_effect]),
      an update followed by its effects ([commit]), and the timed step
      relation [tstep], in which a user event never overtakes a due
      timer. [timed_refines] shows that every timed run is a run of
      [step];
    - the JavaScript builtins [Index] applies to the achievement counter
      it keeps in [localStorage] as a string: [JsNumber.v] holds
      [parseInt] without a radix, as ECMAScript defines it, and
      [Number.prototype.toString] on integers ([number_toString]).
      [Session.v] reads the counter with [storedOrZero] (the [|| '0']) and
      [parseInt] in [notifyAchievements], and slices with [js_slice];
    - what the page shows, [GameMenu.tsx], [GameArena.tsx],
      [SpellGuide.tsx], [AchievementNotification.tsx] and the render of
      [Index.tsx]: [View.v] has one function per component from the
      state it receives to the text it renders ([menuView], [arenaView]
      with [panelView] and [turnBanner], [notificationView], [guideView]
      with the [reduce] [spellsByType], shown when [spellGuide] is open),
      and [pageView] for the page; [menuText], [arenaText], [guideText]
      and [notificationText] list all the text each component renders,
      in order; [menuButtons] are the menu's buttons with the arguments
      their [onClick] passes to [onStartGame]; [GameArena]'s input box is
      the record [ArenaInput] with [handleSpellCast] (the toast, the
      cleared input, the 800 ms [isAnimating] lock);
    - the notification cards' timers, [AchievementNotification.tsx] with
      [removeAchievementNotification] of [Index.tsx]: [Notifications.v]
      holds the queue [newAchievements] with the pending timers
      ([NState]), a card's effect and its cleanup on every render of
      [Index] ([rearm]: [onClose] is a new arrow at every render), the
      two timer callbacks ([fire]: hide and arm [setTimeout(onClose,
      300)]; remove the index captured at that render), the cards'
      [visible] flag ([card_visible]: set with the 4000 ms timer, cleared
      when it fires), and the event loop [run], which fires the timer due
      first;
    - the whole page in time: [Page.v] composes the timed page of
      [Timers.v] with [GameArena]'s input box ([ArenaInput] of [View.v]),
      the 800 ms timer that releases its lock, and the mounting of
      [GameArena] when a match starts ([PageState], [pstep]).

    How they interact: the page calls the engine's operations; the engine
    calls the resolver for every cast and the achievement evaluator in
    [endGame]; the computer's policy returns a name that is cast like
    typed input. JavaScript values are modelled as they are: numbers as
    [Z] (all counters stay far below 2^53), arrays read out of range as
    [None] ([js_at]), a [Map] as an insertion-ordered association list
    ([jsmap]), a property read of [undefined] (a TypeError) as [None].

    The theorems, by group:
    - the page ([Session.v]): an invariant over every reachable state
      shows that no match is ever concluded: [castSpell] sets [ended] on
      the killing cast, so the auto-end effect, which waits for a
      [playing] match with a dead player, never calls [endGame];
    - the engine ([GameState.v]): the behaviour of a successful and of a
      failed cast on every branch, the phase ends exactly at 0 hit
      points, a cast on a set-up match never throws, well-formedness is
      kept by every sequence of operations, [castSpell] ignores the
      phase (a successful cast on an [ended] match recomputes it from
      the hit points, so it can revive the match), the regeneration tick's
      effect on cooldowns and stamina after [n] ticks, and [endGame]'s
      bookkeeping (wins, losses, flawless wins, the Narrow Escape bug);
    - the resolver ([Spells.v], [Levenshtein.v]): [findSpell] returns
      the first entry at least distance within 3, returns nothing exactly
      when all are farther, resolves a catalog name in any case with any
      padding; the matrix program equals the least number of edits;
    - achievements: the unlock step is monotone and fires each entry once;
    - the opponent ([AI.v]): every name it returns resolves to itself,
      the hard opponent only picks a spell it can pay for (its
      strategic picks apart), and the normal policy's four-spell pool;
    - the timers ([Timers.v]): the computer never casts in any timed
      run. Every regeneration tick rebuilds [players], which re-arms the
      computer's timeout before it is due. Its turn is reached and then
      stalls for as many ticks as one likes;
    - the counter ([JsNumber.v], [Session.v]): [parseInt] reads back
      the count [toString] writes, so the notification effect is
      idempotent; a stored string that reads as [NaN] silences the
      notifications for good: the queue only shrinks afterwards;
    - the views ([View.v]): the guide's [reduce] groups the catalog by
      type in order; on every reachable state the menu shows
      "0 / 10 Achievements Unlocked" and no title, and the end screen
      announces the last caster's victory while no win is counted; a
      click on the enabled Cast button refines a [step] of the page;
    - the notifications ([Notifications.v]): a queue of [n] cards with
      distinct keys drains, but in [log2 n + 1] rounds of 4300 ms, since
      each close removes the position captured four seconds earlier
      from a queue that shrinks meanwhile, so a round closes only the
      cards at even positions, after all the cards slid out together at
      [r + 4000]; and a page re-rendered more often than
      every 4000 ms (the regeneration interval re-renders it every
      1000 ms during a match) never closes a card;
    - the page in time ([Page.v]): it refines the timed model, so the
      computer's timeout never fires there either, and two casts from
      the input box in one visit of the arena are 800 ms apart at least.

    Recursion: the loops of the engine (over the catalog, over the
    matrix rows) are folds over finite lists, and regeneration after [n]
    ticks is [Nat.iter n]. [toString]'s digit loop recurses on [n / 10]
    and is defined with Equations by well-founded recursion, as are the
    count of notification rounds [rounds] and [drain_fuel], by the
    length of the queue. The event loop [run] of [Notifications.v]
    takes fuel, one unit per timer firing: a round of [n] cards fires
    [2 n] timers (each card's 4000 ms and 300 ms timer), so
    [drain_fuel q], the sum of [2 * length] over the rounds, is enough,
    and [notifications_drain] shows that [run] with it reaches the
    empty queue with no timer left. Times are integers in milliseconds.

    Not modelled: markup and class names, emoji and other non-ASCII
    characters of the rendered text, the widths of the progress bars,
    the input's placeholder and the rendering of toasts (presentation);
    the notification queue's timers are not composed into [Page.v]
    (no achievement ever unlocks from the page, so the queue stays
    empty there; [Notifications.v] studies the queue on its own); audio
    (commented out: the [backgroundMusic] state is never set); the few milliseconds React takes to run an
    effect after a render, taken as zero in [Timers.v]; the in-place mutation of the
    previous state's player objects by [castSpell]'s updater, which is
    invisible when each updater runs once (the repository has no entry
    point, so whether React's StrictMode runs updaters twice is not
    known from it); non-ASCII strings. *)

From Stdlib Require Import ZArith Lia Ascii.
From stdpp Require Import base list strings decidable.

(** ** Scope, database and tactics shared by the development *)

Declare Scope duel_scope.
Delimit Scope duel_scope with duel.
Open Scope duel_scope.

Create HintDb duel discriminated.

(** [invc H]: invert a hypothesis and substitute what it determines. *)
Ltac invc H := inversion H; subst; clear H.

(** [case_ifs]: split every [if] / [decide] / boolean test in the goal. *)
Ltac case_ifs :=
  repeat match goal with
  | |- context [if decide ?P then _ else _] => destruct (decide P)
  | |- context [if ?b then _ else _] =>
      lazymatch b with decide _ => fail | _ => destruct b eqn:? end
  end.

(** [decide_mem]: a closed membership goal, decided by evaluation. *)
Ltac decide_mem := apply (bool_decide_eq_true_1 (_ ∈ _)); vm_compute; reflexivity.

(** ** JavaScript arrays indexed by a number

    [players[i]] reads [undefined] outside the array; [js_at] returns
    [None] there. The engine writes only inside the array, with stdpp's
    list insert. *)

Definition js_at {A} (l : list A) (i : Z) : option A :=
  if (i <? 0)%Z then None else l !! Z.to_nat i.

Definition js_set_at {A} (l : list A) (i : Z) (x : A) : list A :=
  <[Z.to_nat i := x]> l.

Lemma js_at_length {A} (l : list A) i x :
  js_at l i = Some x -> (0 <= i < Z.of_nat (length l))%Z.
Proof.
  unfold js_at. destruct (Z.ltb_spec i 0); [done|].
  intros Hl%lookup_lt_Some. lia.
Qed.

Lemma js_set_at_length {A} (l : list A) i x :
  length (js_set_at l i x) = length l.
Proof. apply length_insert. Qed.

Lemma js_at_set_at_eq {A} (l : list A) i x y :
  js_at l i = Some y -> js_at (js_set_at l i x) i = Some x.
Proof.
  unfold js_at, js_set_at. destruct (Z.ltb_spec i 0); [done|].
  intros Hl%lookup_lt_Some. by apply list_lookup_insert_eq.
Qed.

Lemma js_at_set_at_ne {A} (l : list A) i j x :
  (0 <= i)%Z -> i <> j -> js_at (js_set_at l i x) j = js_at l j.
Proof.
  unfold js_at, js_set_at. intros ??. destruct (Z.ltb_spec j 0); [done|].
  apply list_lookup_insert_ne. lia.
Qed.

(** [l.slice(start)]: a negative start counts from the end of the array. *)
Definition js_slice {A} (l : list A) (start : Z) : list A :=
  drop (if (start <? 0)%Z then Z.to_nat (Z.max 0 (Z.of_nat (length l) + start)) else Z.to_nat start) l.

Lemma js_slice_nil {A} (start : Z) : js_slice (@nil A) start = [].
Proof. apply drop_nil. Qed.

Lemma js_at_map {A B} (f : A -> B) (l : list A) i : js_at (map f l) i = option_map f (js_at l i).
Proof. unfold js_at. destruct (Z.ltb_spec i 0); [done|]. by rewrite list_lookup_fmap. Qed.

Lemma js_at_elem {A} (l : list A) i x : js_at l i = Some x -> x ∈ l.
Proof.
  unfold js_at. destruct (Z.ltb_spec i 0); [done|]. intros Hl. by eapply list_elem_of_lookup_2.
Qed.

Lemma js_set_at_Forall {A} (P : A -> Prop) (l : list A) i x :
  Forall P l -> P x -> Forall P (js_set_at l i x).
Proof. apply Forall_insert. Qed.

(** The two-element arrays of a match, as a rewrite database. *)
Lemma js_at_pair_0 {A} (a b : A) : js_at [a; b] 0 = Some a.
Proof. done. Qed.
Lemma js_at_pair_1 {A} (a b : A) : js_at [a; b] 1 = Some b.
Proof. done. Qed.
Lemma js_set_at_pair_0 {A} (a b x : A) : js_set_at [a; b] 0 x = [x; b].
Proof. done. Qed.
Lemma js_set_at_pair_1 {A} (a b x : A) : js_set_at [a; b] 1 x = [a; x].
Proof. done. Qed.

Create Rewrite HintDb js_pair.
#[export] Hint Rewrite @js_at_pair_0 @js_at_pair_1 @js_set_at_pair_0 @js_set_at_pair_1 : js_pair.

(** ** JavaScript [Map<string, V>] as an insertion-ordered association list

    A JS [Map] iterates in insertion order and [set] on a present key
    keeps its position; [has] tests the key. The keys of a map built by
    these operations are pairwise distinct ([jsmap_wf]). *)

Definition jsmap (V : Type) := list (string * V).

Definition jsmap_has {V} (k : string) (m : jsmap V) : bool :=
  existsb (fun e => bool_decide (e.1 = k)) m.

Fixpoint jsmap_set {V} (k : string) (v : V) (m : jsmap V) : jsmap V :=
  match m with
  | [] => [(k, v)]
  | (k', v') :: m' => if decide (k' = k) then (k, v) :: m' else (k', v') :: jsmap_set k v m'
  end.

Fixpoint jsmap_get {V} (k : string) (m : jsmap V) : option V :=
  match m with
  | [] => None
  | (k', v') :: m' => if decide (k' = k) then Some v' else jsmap_get k m'
  end.

Definition jsmap_wf {V} (m : jsmap V) : Prop := NoDup m.*1.

Notation "k '∈ₘ' m" := (jsmap_has k m = true) (at level 70) : duel_scope.

Section jsmap_lemmas.
Context {V : Type}.
Implicit Types (m : jsmap V) (k : string) (v : V).

Lemma jsmap_has_spec k m : jsmap_has k m = true <-> k ∈ m.*1.
Proof.
  induction m as [|[k' v'] m IH]; simpl.
  - split; [done|]. by intros ?%elem_of_nil.
  - rewrite orb_true_iff, IH, elem_of_cons, bool_decide_eq_true. naive_solver.
Qed.

Lemma jsmap_get_has k m : jsmap_has k m = true <-> is_Some (jsmap_get k m).
Proof.
  induction m as [|[k' v'] m IH]; simpl; [split; [done|by intros []]|].
  case_decide; subst.
  - rewrite bool_decide_true by done. split; [by eexists|done].
  - by rewrite bool_decide_false.
Qed.

Lemma jsmap_set_keys k v m :
  (jsmap_set k v m).*1 = if jsmap_has k m then m.*1 else m.*1 ++ [k].
Proof.
  induction m as [|[k' v'] m IH]; simpl; [done|].
  case_decide; subst; simpl.
  - by rewrite bool_decide_true.
  - rewrite bool_decide_false by done. simpl.
    change (list_fmap _ _ fst (jsmap_set k v m)) with ((jsmap_set k v m).*1).
    rewrite IH. by destruct (jsmap_has k m).
Qed.

Lemma jsmap_set_wf k v m : jsmap_wf m -> jsmap_wf (jsmap_set k v m).
Proof.
  unfold jsmap_wf. rewrite jsmap_set_keys. destruct (jsmap_has k m) eqn:Hk; [done|].
  intros Hnd. apply list.NoDup_app. split_and!; [done| |by apply NoDup_singleton].
  intros x Hx ->%list_elem_of_singleton.
  apply jsmap_has_spec in Hx. congruence.
Qed.

Lemma jsmap_has_set k k' v m : jsmap_has k' (jsmap_set k v m) = bool_decide (k = k') || jsmap_has k' m.
Proof.
  apply Bool.eq_iff_eq_true. rewrite !orb_true_iff, !jsmap_has_spec, jsmap_set_keys, bool_decide_eq_true.
  destruct (jsmap_has k m) eqn:Hk.
  - apply jsmap_has_spec in Hk. naive_solver.
  - rewrite elem_of_app, list_elem_of_singleton. naive_solver.
Qed.

Lemma jsmap_get_set_eq k v m : jsmap_get k (jsmap_set k v m) = Some v.
Proof.
  induction m as [|[k' v'] m IH]; simpl; [by rewrite decide_True|].
  case_decide; simpl; [by rewrite decide_True|]. by rewrite decide_False.
Qed.

Lemma jsmap_get_set_ne k k' v m : k <> k' -> jsmap_get k' (jsmap_set k v m) = jsmap_get k' m.
Proof.
  intros Hne. induction m as [|[k'' v''] m IH]; simpl; [by rewrite decide_False|].
  case_decide; simpl; [subst; by rewrite !decide_False|]. case_decide; [done|exact IH].
Qed.

Lemma jsmap_get_notin k m : k ∉ m.*1 -> jsmap_get k m = None.
Proof.
  intros Hk. destruct (jsmap_get k m) eqn:E; [|done].
  destruct Hk. apply jsmap_has_spec, jsmap_get_has. by rewrite E.
Qed.

Lemma jsmap_get_Forall (P : V -> Prop) k v m :
  jsmap_get k m = Some v -> Forall (fun e => P e.2) m -> P v.
Proof.
  induction m as [|[k' v'] m IH]; simpl; [done|]. intros Hk Hm. invc Hm.
  case_decide; [by invc Hk|auto].
Qed.

Lemma jsmap_set_values (P : V -> Prop) k v m :
  Forall (fun e => P e.2) m -> P v -> Forall (fun e => P e.2) (jsmap_set k v m).
Proof.
  induction m as [|[k' v'] m IH]; simpl; intros Hm Hv; [by constructor|].
  invc Hm. case_decide; constructor; auto.
Qed.

(** Rebuilding a map from its entries keeps distinct keys. *)
Lemma jsmap_filter_wf (P : string * V -> Prop) `{∀ e, Decision (P e)} m :
  jsmap_wf m -> jsmap_wf (filter P m).
Proof.
  unfold jsmap_wf. intros Hnd. eapply sublist_NoDup; [exact Hnd|].
  apply fmap_sublist, sublist_filter.
Qed.
End jsmap_lemmas.

(** ** Generic list facts *)

(** [Array.prototype.find]: the result is the first element passing the test. *)
Lemma find_split {A} (f : A -> bool) (l : list A) x :
  List.find f l = Some x ->
  exists pre post, l = pre ++ x :: post /\ f x = true /\ Forall (fun y => f y = false) pre.
Proof.
  induction l as [|y l IH]; simpl; [done|]. destruct (f y) eqn:Hy.
  - intros [= ->]. by exists [], l.
  - intros (pre & post & -> & Hx & Hpre)%IH. exists (y :: pre), post. auto.
Qed.

Lemma NoDup_map_inj {A B} (f : A -> B) (l : list A) x y :
  NoDup (map f l) -> x ∈ l -> y ∈ l -> f x = f y -> x = y.
Proof.
  induction l as [|z l IH]; simpl; [by intros _ ?%elem_of_nil|].
  rewrite list.NoDup_cons, !elem_of_cons. intros [Hz Hnd] Hx Hy Hf.
  destruct Hx as [->|Hx], Hy as [->|Hy]; auto.
  - destruct Hz. rewrite Hf. by apply list_elem_of_In, in_map, list_elem_of_In.
  - destruct Hz. rewrite <- Hf. by apply list_elem_of_In, in_map, list_elem_of_In.
Qed.

Lemma Forall2_map_diag {A B} (P : A -> B -> Prop) (f : A -> B) (l : list A) :
  Forall (fun a => P a (f a)) l -> Forall2 P l (map f l).
Proof. induction 1; simpl; constructor; auto. Qed.

Lemma filter_none {A} (P : A -> Prop) `{∀ x, Decision (P x)} (l : list A) :
  (forall x, x ∈ l -> ~ P x) -> filter P l = [].
Proof.
  induction l as [|x l IH]; intros Hl; [done|].
  rewrite filter_cons_False by (apply Hl, list_elem_of_here).
  apply IH. intros y Hy. apply Hl. by apply list_elem_of_further.
Qed.

Lemma filter_all {A} (P : A -> Prop) `{∀ x, Decision (P x)} (l : list A) :
  Forall P l -> filter P l = l.
Proof. induction 1 as [|x l Hx _ IH]; [done|]. by rewrite filter_cons_True, IH. Qed.

(** ** Runs of a step relation *)

Section Star.
Context {S : Type} (R : S -> S -> Prop).

Inductive star : S -> S -> Prop :=
| star_refl s : star s s
| star_step s1 s2 s3 : R s1 s2 -> star s2 s3 -> star s1 s3.

Lemma star_one s1 s2 : R s1 s2 -> star s1 s2.
Proof. intros. eapply star_step; [done|constructor]. Qed.

Lemma star_trans s1 s2 s3 : star s1 s2 -> star s2 s3 -> star s1 s3.
Proof. induction 1; eauto using star. Qed.

(** A property that holds initially and that every step preserves
    holds on every reachable state. *)
Lemma star_invariant (I : S -> Prop) s1 s2 :
  (forall a b, I a -> R a b -> I b) -> I s1 -> star s1 s2 -> I s2.
Proof. intros Hpres H1 Hs. induction Hs; eauto. Qed.

Lemma star_snoc s1 s2 s3 : star s1 s2 -> R s2 s3 -> star s1 s3.
Proof. intros. eapply star_trans; [done|by apply star_one]. Qed.
End Star.

(** A map [f] from the states of [R] to those of [R'] that sends each step
    to a step or to no move sends every run to a run. *)
Lemma star_map {S S'} (R : S -> S -> Prop) (R' : S' -> S' -> Prop) (f : S -> S') s1 s2 :
  (forall a b, R a b -> R' (f a) (f b) \/ f b = f a) -> star R s1 s2 -> star R' (f s1) (f s2).
Proof.
  intros Hsim Hs. induction Hs as [s|a b c Hab _ IH]; [constructor|].
  destruct (Hsim a b Hab) as [H|H]; [eapply star_step; eauto|by rewrite <- H].
Qed.

#[export] Hint Resolve jsmap_set_wf jsmap_set_values jsmap_filter_wf js_set_at_Forall : duel.
#[export] Hint Extern 5 (_ <= _)%Z => lia : duel.
#[export] Hint Extern 5 (_ < _)%Z => lia : duel.
#[export] Hint Extern 5 (_ <= _ <= _)%Z => lia : duel.
