(* ===== verification/Levenshtein.v ===== *)
(** * Levenshtein distance: the dynamic program of [levenshteinDistance]

    [src/src/data/spells.ts], lines 197-215, fills a [(|b|+1) x (|a|+1)]
    matrix row by row. This file models that loop over lists of any type
    with decidable equality (the code compares UTF-16 code units with
    [===]) and proves it computes the least number of unit-cost
    insertions, deletions and substitutions turning [a] into [b]
    ([edits], the abstract specification). *)

From Stdlib Require Import Lia.
From stdpp Require Import base list.
From S2P Require Import Prelude.

Section Levenshtein.
Context {A : Type} `{EqDecision A}.
Implicit Types (a b p q : list A) (x y : A).

(** [a[i - 1] === b[j - 1] ? 0 : 1] *)
Definition cost x y : nat := if decide (x = y) then 0 else 1.

(** ** The abstract specification: edit scripts *)

(** [edits a b n]: [a] becomes [b] by [n] unit edits. *)
Inductive edits : list A -> list A -> nat -> Prop :=
| ed_nil : edits [] [] 0
| ed_del x a b n : edits a b n -> edits (x :: a) b (S n)
| ed_ins y a b n : edits a b n -> edits a (y :: b) (S n)
| ed_sub x y a b n : edits a b n -> edits (x :: a) (y :: b) (n + cost x y).

(** ** The reference recurrence, on the heads of the lists *)

Definition min3 (u v w : nat) : nat := Nat.min (Nat.min u v) w.

Fixpoint lev a b : nat :=
  match a with
  | [] => length b
  | x :: a' =>
      (fix lev_a b : nat :=
         match b with
         | [] => S (length a')
         | y :: b' => min3 (S (lev a' b)) (S (lev_a b')) (lev a' b' + cost x y)
         end) b
  end.

(** ** The code's dynamic program

    Row [j] of [matrix] is computed from row [j - 1] alone:
    [matrix[j][0] = j] and, for [i] from 1 to [|a|],
    [matrix[j][i] = min(matrix[j][i-1] + 1, matrix[j-1][i] + 1,
    matrix[j-1][i-1] + cost)]. [lev_row_from y a prev left] walks [a]
    with [prev] the previous row from column [i - 1] on and [left] the
    cell just computed. *)
Fixpoint lev_row_from (y : A) (a : list A) (prev : list nat) (left : nat) : list nat :=
  match a, prev with
  | x :: a', diag :: ((up :: _) as prev') =>
      let v := Nat.min (Nat.min (left + 1) (up + 1)) (diag + cost x y) in
      v :: lev_row_from y a' prev' v
  | _, _ => []
  end.

Definition lev_row (y : A) (a : list A) (prev : list nat) (j : nat) : list nat :=
  j :: lev_row_from y a prev j.

(** The outer loop over [b], from row [j + 1] on. *)
Fixpoint lev_rows (a b : list A) (j : nat) (prev : list nat) : list (list nat) :=
  match b with
  | [] => []
  | y :: b' => let r := lev_row y a prev (S j) in r :: lev_rows a b' (S j) r
  end.

(** Row 0 is [matrix[0][i] = i]. *)
Definition lev_matrix (a b : list A) : list (list nat) :=
  let r0 := seq 0 (S (length a)) in r0 :: lev_rows a b 0 r0.

(** [return matrix[b.length][a.length]] *)
Definition lev_dp (a b : list A) : nat :=
  nth (length a) (nth (length b) (lev_matrix a b) []) 0.

(** ** The recurrence is the least edit cost *)

Lemma lev_nil_r a : lev a [] = length a.
Proof. by destruct a. Qed.

Lemma lev_cons_cons x y a b :
  lev (x :: a) (y :: b) = min3 (S (lev a (y :: b))) (S (lev (x :: a) b)) (lev a b + cost x y).
Proof. done. Qed.

Lemma lev_edits a b : edits a b (lev a b).
Proof.
  revert b. induction a as [|x a IHa]; intros b.
  - induction b; simpl; by constructor.
  - induction b as [|y b IHb].
    + rewrite lev_nil_r. constructor. rewrite <- lev_nil_r. apply IHa.
    + rewrite lev_cons_cons. unfold min3.
      destruct (Nat.min_spec (Nat.min (S (lev a (y :: b))) (S (lev (x :: a) b)))
                  (lev a b + cost x y)) as [[_ ->]|[_ ->]];
        [destruct (Nat.min_spec (S (lev a (y :: b))) (S (lev (x :: a) b))) as [[_ ->]|[_ ->]]|].
      * apply ed_del, IHa.
      * by apply ed_ins.
      * apply ed_sub, IHa.
Qed.

Lemma lev_le_edits a b n : edits a b n -> lev a b <= n.
Proof.
  induction 1 as [|x a b n _ IH|y a b n _ IH|x y a b n _ IH].
  - done.
  - destruct b as [|y b]; [rewrite lev_nil_r in IH; simpl; lia|].
    rewrite lev_cons_cons. unfold min3. lia.
  - destruct a as [|x a]; [simpl in *; lia|].
    rewrite lev_cons_cons. unfold min3. lia.
  - rewrite lev_cons_cons. unfold min3. lia.
Qed.

(** ** Edit scripts compose and reverse *)

Lemma edits_app a1 b1 n1 a2 b2 n2 :
  edits a1 b1 n1 -> edits a2 b2 n2 -> edits (a1 ++ a2) (b1 ++ b2) (n1 + n2).
Proof.
  induction 1 as [|x a b n _ IH|y a b n _ IH|x y a b n _ IH]; intros H2; simpl.
  - done.
  - by apply ed_del, IH.
  - by apply ed_ins, IH.
  - replace (n + cost x y + n2) with (n + n2 + cost x y) by lia. by apply ed_sub, IH.
Qed.

Lemma edits_rev a b n : edits a b n -> edits (rev a) (rev b) n.
Proof.
  induction 1; simpl.
  - constructor.
  - rewrite <- (app_nil_r (rev b)), <- Nat.add_1_r.
    apply edits_app; [done|]. apply ed_del, ed_nil.
  - rewrite <- (app_nil_r (rev a)), <- Nat.add_1_r.
    apply edits_app; [done|]. apply ed_ins, ed_nil.
  - apply edits_app; [done|].
    change (cost x y) with (0 + cost x y). apply ed_sub, ed_nil.
Qed.

Lemma lev_rev a b : lev (rev a) (rev b) = lev a b.
Proof.
  apply Nat.le_antisymm; apply lev_le_edits.
  - apply edits_rev, lev_edits.
  - rewrite <- (rev_involutive a), <- (rev_involutive b) at 1.
    apply edits_rev, lev_edits.
Qed.

(** ** The dynamic program computes the recurrence

    Cell [(i, j)] holds the distance between the prefixes of length [i]
    and [j]: the recurrence read on reversed prefixes ([Dl]). *)

Fixpoint inits (l : list A) : list (list A) :=
  [] :: match l with [] => [] | x :: r => map (cons x) (inits r) end.

Definition Dl p q : nat := lev (rev p) (rev q).

Lemma inits_unfold l : inits l = [] :: tail (inits l).
Proof. by destruct l. Qed.

Lemma length_inits l : length (inits l) = S (length l).
Proof. induction l; simpl; rewrite ?length_map; auto. Qed.

Lemma nth_inits l : nth (length l) (inits l) [] = l.
Proof.
  induction l as [|x l IH]; [done|]. simpl.
  rewrite (nth_indep _ [] (x :: [])) by (rewrite length_map, length_inits; lia).
  by rewrite map_nth, IH.
Qed.

Lemma Dl_snoc_snoc p q x y :
  Dl (p ++ [x]) (q ++ [y]) = min3 (S (Dl p (q ++ [y]))) (S (Dl (p ++ [x]) q)) (Dl p q + cost x y).
Proof. unfold Dl. by rewrite !rev_unit, lev_cons_cons. Qed.

Lemma Dl_nil_r p : Dl p [] = length p.
Proof. unfold Dl. cbn [rev]. by rewrite lev_nil_r, length_rev. Qed.

Lemma Dl_nil_l q : Dl [] q = length q.
Proof. unfold Dl. cbn [rev lev]. by rewrite length_rev. Qed.

(** The inner loop of one row, on the columns still to fill. *)
Lemma lev_row_from_spec y B ra pa :
  lev_row_from y ra (map (fun p => Dl (pa ++ p) B) (inits ra)) (Dl pa (B ++ [y]))
  = map (fun p => Dl (pa ++ p) (B ++ [y])) (tail (inits ra)).
Proof.
  revert pa. induction ra as [|x r IH]; intros pa; [done|].
  cbn [inits tail]. rewrite (inits_unfold r). cbn [map lev_row_from].
  rewrite app_nil_r.
  assert (Hv : Nat.min (Nat.min (Dl pa (B ++ [y]) + 1) (Dl (pa ++ [x]) B + 1)) (Dl pa B + cost x y)
               = Dl (pa ++ [x]) (B ++ [y])).
  { rewrite Dl_snoc_snoc. unfold min3. f_equal. f_equal; lia. }
  rewrite Hv. f_equal.
  assert (E : Dl (pa ++ [x]) B :: map (fun p => Dl (pa ++ p) B) (map (cons x) (tail (inits r)))
              = map (fun p => Dl ((pa ++ [x]) ++ p) B) (inits r)).
  { rewrite (inits_unfold r). cbn [map tail]. rewrite app_nil_r, map_map. f_equal.
    apply map_ext. intros. by rewrite <- app_assoc. }
  rewrite E, IH, map_map. apply map_ext. intros. by rewrite <- app_assoc.
Qed.

(** One whole row: [matrix[j][0] = j], then the inner loop. *)
Lemma lev_row_spec y B a :
  lev_row y a (map (fun p => Dl p B) (inits a)) (S (length B))
  = map (fun p => Dl p (B ++ [y])) (inits a).
Proof.
  unfold lev_row. rewrite (inits_unfold a) at 2. cbn [map].
  rewrite Dl_nil_l, length_app, Nat.add_1_r. f_equal.
  pose proof (lev_row_from_spec y B a []) as Hr. cbn [app] in Hr.
  rewrite Dl_nil_l, length_app, Nat.add_1_r in Hr. exact Hr.
Qed.

Lemma lev_rows_spec a c B :
  lev_rows a c (length B) (map (fun p => Dl p B) (inits a))
  = map (fun q => map (fun p => Dl p (B ++ q)) (inits a)) (tail (inits c)).
Proof.
  revert B. induction c as [|y c IH]; intros B; [done|].
  cbn [lev_rows tail inits]. rewrite lev_row_spec.
  replace (S (length B)) with (length (B ++ [y])) by (rewrite length_app; simpl; lia).
  rewrite IH, (inits_unfold c). cbn [map tail]. rewrite map_map. f_equal.
  apply map_ext. intros q. apply map_ext. intros p. by rewrite <- app_assoc.
Qed.

Lemma seq_inits a : seq 0 (S (length a)) = map (fun p => Dl p []) (inits a).
Proof.
  transitivity (map length (inits a)).
  - induction a as [|x a IH]; [done|]. cbn [inits map length].
    rewrite map_map. cbn [length]. rewrite <- (map_map length S), <- IH.
    by rewrite seq_shift.
  - apply map_ext. intros. by rewrite Dl_nil_r.
Qed.

Lemma lev_matrix_spec a b :
  lev_matrix a b = map (fun q => map (fun p => Dl p q) (inits a)) (inits b).
Proof.
  unfold lev_matrix. rewrite seq_inits.
  pose proof (lev_rows_spec a b []) as Hr. cbn [length app] in Hr. rewrite Hr.
  rewrite (inits_unfold b) at 2. done.
Qed.

Lemma nth_map_inits {B} (f : list A -> B) l d : nth (length l) (map f (inits l)) d = f l.
Proof.
  rewrite (nth_indep _ d (f [])) by (rewrite length_map, length_inits; lia).
  by rewrite map_nth, nth_inits.
Qed.

Lemma lev_dp_lev a b : lev_dp a b = lev a b.
Proof.
  unfold lev_dp. rewrite lev_matrix_spec.
  rewrite (nth_map_inits (fun q => map (fun p => Dl p q) (inits a))).
  rewrite (nth_map_inits (fun p => Dl p b)). apply lev_rev.
Qed.

(** ** Metric facts used by the resolver *)

Lemma edits_zero a b : edits a b 0 -> a = b.
Proof.
  remember 0 as n eqn:Hn. induction 1 as [| | |x y a b n _ IH]; try lia; [done|].
  unfold cost in Hn. case_decide; [subst|lia]. f_equal. apply IH. lia.
Qed.

Lemma edits_refl a : edits a a 0.
Proof.
  induction a as [|x a IH]; [constructor|].
  assert (Hc : cost x x = 0) by (unfold cost; by rewrite decide_True).
  rewrite <- Hc. rewrite <- (Nat.add_0_l (cost x x)). apply ed_sub, IH.
Qed.

Lemma edits_length a b n : edits a b n -> length b <= length a + n /\ length a <= length b + n.
Proof. induction 1; simpl; unfold cost in *; try case_decide; lia. Qed.
End Levenshtein.

#[export] Hint Resolve lev_edits edits_refl : duel.

Section LevenshteinTheorems.
Context {A : Type} `{EqDecision A}.

(** C8: the dynamic program of [levenshteinDistance] computes the least
    number of unit insertions, deletions and substitutions that turn
    [a] into [b]: an edit script of that cost exists, and none is
    cheaper. *)
Theorem lev_dp_least_edits (a b : list A) :
  edits a b (lev_dp a b) /\ (forall n, edits a b n -> lev_dp a b <= n).
Proof.
  rewrite lev_dp_lev. split; [apply lev_edits|apply lev_le_edits].
Qed.

(** The distance the code computes is zero exactly on equal inputs. *)
Theorem lev_dp_zero_iff (a b : list A) : lev_dp a b = 0 <-> a = b.
Proof.
  rewrite lev_dp_lev. split.
  - intros H0. apply edits_zero. rewrite <- H0. apply lev_edits.
  - intros <-. pose proof (lev_le_edits a a 0 (edits_refl a)). lia.
Qed.

(** The distance is at least the difference of the lengths. *)
Lemma lev_dp_length_diff (a b : list A) :
  length b <= length a + lev_dp a b /\ length a <= length b + lev_dp a b.
Proof. apply edits_length. rewrite lev_dp_lev. apply lev_edits. Qed.
End LevenshteinTheorems.
