(* ===== verification/Spells.v ===== *)
(** * The spell catalog and the spell resolver ([src/src/data/spells.ts])

    [Spell] and [SPELLS] are the catalog verbatim; [findSpell] is the
    resolver: lower-case and trim the input, try an exact match, else
    take the first catalog entry at the least Levenshtein distance, up
    to 3. Strings are modelled as ASCII text ([string]); [toLowerCase]
    and [trim] are JavaScript's on that range. The class [SpellResolver]
    is what the battle engine needs of a resolver; [findSpell] is its
    instance. *)

From Stdlib Require Import ZArith Lia Ascii.
From stdpp Require Import base list strings decidable.
From S2P Require Import Prelude Levenshtein.


(** ** Data *)

(** The string literal union ['attack' | 'defense' | ...] of [Spell.type]. *)
Inductive SpellType := Attack | Defense | Healing | Buff | Debuff | Special.

#[export] Instance SpellType_eq_dec : EqDecision SpellType.
Proof. solve_decision. Defined.

Record Spell := mkSpell {
  name : string;
  type : SpellType;
  damage : option Z;
  healing : option Z;
  blockAmount : option Z;
  effect : option string;
  cooldown : Z;
  staminaCost : Z;
  castingTime : Z;
  description : string;
  sound : option string
}.

Local Open Scope Z_scope.
Local Open Scope string_scope.

Definition SPELLS : list Spell := [
  mkSpell "Expelliarmus" Attack (Some 20) None None None 5 15 1
    "The Disarming Charm - forces opponent to drop their wand" (Some "expelliarmus");
  mkSpell "Protego" Defense None None (Some 25) None 8 20 1
    "Shield Charm - creates a magical barrier" (Some "protego");
  mkSpell "Stupefy" Attack (Some 15) None None None 3 10 1
    "Stunning Spell - stuns the opponent" (Some "stupefy");
  mkSpell "Episkey" Healing None (Some 25) None None 10 20 2
    "Healing Spell - restores health" (Some "episkey");
  mkSpell "Sectumsempra" Attack (Some 35) None None None 12 30 2
    "Dark cutting curse - deals massive damage" (Some "sectumsempra");
  mkSpell "Expecto Patronum" Special (Some 20) (Some 15) None None 15 35 3
    "Patronus Charm - attacks and heals simultaneously" (Some "patronum");
  mkSpell "Avada Kedavra" Attack (Some 60) None None None 25 50 4
    "The Killing Curse - ultimate attack" (Some "avada_kedavra");
  mkSpell "Crucio" Debuff (Some 10) None None (Some "paralyze") 18 25 2
    "Cruciatus Curse - torture curse that paralyzes" (Some "crucio");
  mkSpell "Imperio" Debuff None None None (Some "control") 20 30 3
    "Imperius Curse - controls opponent's next action" (Some "imperio");
  mkSpell "Petrificus Totalus" Debuff None None None (Some "freeze") 8 20 1
    "Body-Bind Curse - freezes opponent for one turn" (Some "petrificus");
  mkSpell "Diffindo" Attack (Some 18) None None None 4 12 1
    "Severing Charm - cuts through defenses" (Some "diffindo");
  mkSpell "Reducto" Attack (Some 25) None None None 6 18 1
    "Reductor Curse - blasts obstacles apart" (Some "reducto");
  mkSpell "Wingardium Leviosa" Buff None None None (Some "levitate") 10 15 2
    "Levitation Charm - increases evasion" (Some "leviosa");
  mkSpell "Lumos Maxima" Attack (Some 12) None None (Some "blind") 5 10 1
    "Blinding Light - damages and blinds opponent" (Some "lumos");
  mkSpell "Finite Incantatem" Special None None None (Some "dispel") 7 15 1
    "Counter-spell - removes all active effects" (Some "finite")
].

Local Close Scope string_scope.
Local Close Scope Z_scope.

(** ** JavaScript string primitives on ASCII text *)

Definition ascii_toLowerCase (c : ascii) : ascii :=
  let n := nat_of_ascii c in
  if ((65 <=? n) && (n <=? 90))%nat then ascii_of_nat (n + 32) else c.

(** [String.prototype.trim] strips WhiteSpace and LineTerminator code
    points; in ASCII these are TAB, LF, VT, FF, CR and SPACE. *)
Definition is_js_space (c : ascii) : bool :=
  let n := nat_of_ascii c in (((9 <=? n) && (n <=? 13)) || (n =? 32))%nat.

Fixpoint trim_start (l : list ascii) : list ascii :=
  match l with
  | c :: l' => if is_js_space c then trim_start l' else l
  | [] => []
  end.

Definition trim_list (l : list ascii) : list ascii := rev (trim_start (rev (trim_start l))).

Definition toLowerCase (s : string) : string :=
  String.string_of_list_ascii (map ascii_toLowerCase (String.list_ascii_of_string s)).

Definition trim (s : string) : string :=
  String.string_of_list_ascii (trim_list (String.list_ascii_of_string s)).

(** [levenshteinDistance(a, b)] on the code units of the two strings. *)
Definition levenshteinDistance (a b : string) : nat :=
  lev_dp (String.list_ascii_of_string a) (String.list_ascii_of_string b).

(** ** [findSpell] *)

(** [bestDistance] starts at [Infinity], written [None]. *)
Definition lt_inf (d : nat) (best : option nat) : bool :=
  match best with None => true | Some b => (d <? b)%nat end.

Definition maxDistance : nat := 3.

(** One iteration of [for (const spell of SPELLS)]. *)
Definition findSpell_step (normalizedInput : string)
    (acc : option Spell * option nat) (spell : Spell) : option Spell * option nat :=
  let distance := levenshteinDistance normalizedInput (toLowerCase spell.(name)) in
  if (distance <=? maxDistance)%nat && lt_inf distance acc.2 then (Some spell, Some distance) else acc.

Definition findSpell (input : string) : option Spell :=
  let normalizedInput := trim (toLowerCase input) in
  match List.find (fun spell => bool_decide (toLowerCase spell.(name) = normalizedInput)) SPELLS with
  | Some directMatch => Some directMatch
  | None => (fold_left (findSpell_step normalizedInput) SPELLS (None, None)).1
  end.

(** ** What the engine needs of a resolver *)

Class SpellResolver := {
  resolve : string -> option Spell;
  resolve_in_catalog : forall input sp, resolve input = Some sp -> sp ∈ SPELLS
}.

(** Catalog facts checked by evaluation: names are distinct after
    lower-casing, start and end with a non-space character, and every
    spell has a positive cooldown and a non-negative cost and effect. *)
Definition starts_solid (l : list ascii) : bool :=
  match l with c :: _ => negb (is_js_space c) | [] => false end.

Definition lowered (sp : Spell) : list ascii :=
  String.list_ascii_of_string (toLowerCase sp.(name)).

Definition spell_wf (sp : Spell) : bool :=
  starts_solid (lowered sp) && starts_solid (rev (lowered sp))
  && (0 <? sp.(cooldown))%Z && (0 <=? sp.(staminaCost))%Z
  && (0 <=? default 0 sp.(damage))%Z && (0 <=? default 0 sp.(healing))%Z.

(** ** Lemmas on the string primitives *)

Lemma catalog_names_distinct : NoDup (map (fun sp => toLowerCase sp.(name)) SPELLS).
Proof. apply (bool_decide_eq_true_1 (NoDup _)). vm_compute. reflexivity. Qed.

Lemma catalog_wf : Forall (fun sp => spell_wf sp = true) SPELLS.
Proof. vm_compute. repeat constructor. Qed.

Lemma spell_wf_in sp : sp ∈ SPELLS -> spell_wf sp = true.
Proof. intros Hin. pose proof catalog_wf as Hwf. rewrite Forall_forall in Hwf. by apply Hwf, list_elem_of_In. Qed.

Lemma toLowerCase_space c : is_js_space c = true -> ascii_toLowerCase c = c.
Proof.
  unfold is_js_space, ascii_toLowerCase. set (n := nat_of_ascii c).
  intros Hs. destruct ((65 <=? n) && (n <=? 90))%nat eqn:Hl; [|done].
  apply andb_prop in Hl as [H1 H2]. apply Nat.leb_le in H1, H2.
  apply orb_prop in Hs as [Hs|Hs]; [apply andb_prop in Hs as [_ H3]; apply Nat.leb_le in H3|apply Nat.eqb_eq in Hs]; lia.
Qed.

Lemma map_toLowerCase_spaces l : Forall (fun c => is_js_space c = true) l -> map ascii_toLowerCase l = l.
Proof. induction 1; simpl; [done|]. by rewrite toLowerCase_space, IHForall. Qed.

Lemma trim_start_spaces pre l : Forall (fun c => is_js_space c = true) pre -> trim_start (pre ++ l) = trim_start l.
Proof. induction 1 as [|c pre Hc _ IH]; simpl; [done|]. by rewrite Hc. Qed.

Lemma trim_start_solid l r : starts_solid l = true -> trim_start (l ++ r) = l ++ r.
Proof. destruct l as [|c l]; simpl; [done|]. by destruct (is_js_space c). Qed.

(** [trim] removes surrounding white space and nothing else. *)
Lemma trim_list_padded pre l post :
  Forall (fun c => is_js_space c = true) pre -> Forall (fun c => is_js_space c = true) post ->
  starts_solid l = true -> starts_solid (rev l) = true ->
  trim_list (pre ++ l ++ post) = l.
Proof.
  intros Hpre Hpost Hl Hr. unfold trim_list.
  rewrite trim_start_spaces, trim_start_solid by done.
  rewrite rev_app_distr, trim_start_spaces by (by apply Forall_rev).
  rewrite <- (app_nil_r (rev l)), trim_start_solid, app_nil_r by done.
  apply rev_involutive.
Qed.

Lemma levenshteinDistance_zero a b : levenshteinDistance a b = 0 <-> a = b.
Proof.
  unfold levenshteinDistance. rewrite lev_dp_lev. split.
  - intros H. assert (He : String.list_ascii_of_string a = String.list_ascii_of_string b).
    { apply edits_zero. rewrite <- H. apply lev_edits. }
    apply (f_equal String.string_of_list_ascii) in He.
    by rewrite !String.string_of_list_ascii_of_string in He.
  - intros ->. pose proof (lev_le_edits _ _ 0 (edits_refl (String.list_ascii_of_string b))). lia.
Qed.

(** ** The scan of [findSpell] *)

Section Scan.
Variable normalizedInput : string.

(** The distance the loop computes for a spell. *)
Definition dist (sp : Spell) : nat :=
  levenshteinDistance normalizedInput (toLowerCase sp.(name)).

(** [sp] is the first entry of [l] at the least distance, within 3. *)
Definition first_best (l : list Spell) (sp : Spell) : Prop :=
  exists pre post, l = pre ++ sp :: post /\ dist sp <= maxDistance
    /\ (forall s, s ∈ pre -> dist sp < dist s) /\ (forall s, s ∈ post -> dist sp <= dist s).

Lemma findSpell_scan l :
  let r := fold_left (findSpell_step normalizedInput) l (None, None) in
  (r = (None, None) /\ forall s, s ∈ l -> maxDistance < dist s)
  \/ (exists sp, r = (Some sp, Some (dist sp)) /\ first_best l sp).
Proof.
  induction l as [|x l IH] using rev_ind; simpl.
  { left. split; [done|]. by intros ? ?%elem_of_nil. }
  rewrite fold_left_app. cbn [fold_left].
  destruct IH as [[-> Hall]|(sp & -> & pre & post & -> & Hle & Hpre & Hpost)];
    unfold findSpell_step, lt_inf; fold (dist x); cbn [snd].
  - destruct (Nat.leb_spec (dist x) maxDistance) as [Hx|Hx]; simpl.
    + right. exists x. split; [done|]. exists l, []. split_and!; [done|done| |by intros ? ?%elem_of_nil].
      intros s Hs. specialize (Hall s Hs). lia.
    + left. split; [done|]. intros s [Hs|Hs%list_elem_of_singleton]%elem_of_app; [by apply Hall|subst; lia].
  - destruct (Nat.leb_spec (dist x) maxDistance) as [Hx|Hx];
      [destruct (Nat.ltb_spec (dist x) (dist sp)) as [Hlt|Hge]|]; simpl.
    + right. exists x. split; [done|]. exists (pre ++ sp :: post), []. rewrite <- app_assoc.
      split_and!; [done|done| |by intros ? ?%elem_of_nil].
      intros s [Hs|[->|Hs]%elem_of_cons]%elem_of_app; [specialize (Hpre s Hs)|done|specialize (Hpost s Hs)]; lia.
    + right. exists sp. split; [done|]. exists pre, (post ++ [x]). rewrite <- app_assoc.
      split_and!; [done|done|done|]. intros s [Hs|Hs%list_elem_of_singleton]%elem_of_app; [by apply Hpost|subst; lia].
    + right. exists sp. split; [done|]. exists pre, (post ++ [x]). rewrite <- app_assoc.
      split_and!; [done|done|done|]. intros s [Hs|Hs%list_elem_of_singleton]%elem_of_app; [by apply Hpost|subst; lia].
Qed.
End Scan.

Lemma find_direct_spec ni sp :
  List.find (fun spell => bool_decide (toLowerCase spell.(name) = ni)) SPELLS = Some sp ->
  first_best ni SPELLS sp.
Proof.
  intros (pre & post & -> & Hsp & Hpre)%find_split.
  apply bool_decide_eq_true in Hsp.
  assert (Hd : dist ni sp = 0) by (apply levenshteinDistance_zero; done).
  exists pre, post. rewrite Hd. split_and!; [done|unfold maxDistance; lia| |lia].
  intros s Hs. rewrite Forall_forall in Hpre.
  specialize (Hpre s (proj1 (list_elem_of_In _ _) Hs)). apply bool_decide_eq_false in Hpre.
  destruct (dist ni s) eqn:E; [|lia]. apply levenshteinDistance_zero in E. congruence.
Qed.

Lemma first_best_in ni sp : first_best ni SPELLS sp -> sp ∈ SPELLS.
Proof. intros (pre & post & -> & _). apply elem_of_app. right. apply elem_of_cons. by left. Qed.

(** C5: [findSpell] returns the first catalog entry at the least edit
    distance from the lower-cased, trimmed input, and that distance is
    at most 3: every earlier entry is strictly farther and every later
    one is at least as far. *)
Theorem findSpell_first_best input sp :
  findSpell input = Some sp -> first_best (trim (toLowerCase input)) SPELLS sp.
Proof.
  unfold findSpell. destruct (List.find _ _) as [s|] eqn:Hf.
  - intros [= <-]. by apply find_direct_spec.
  - destruct (findSpell_scan (trim (toLowerCase input)) SPELLS) as [[-> _]|(s & -> & Hb)]; cbn.
    + done.
    + by intros [= <-].
Qed.

(** C7: [findSpell] finds nothing exactly when every catalog name is
    more than 3 edits away from the normalised input. *)
Theorem findSpell_None_iff input :
  findSpell input = None <-> forall sp, sp ∈ SPELLS -> maxDistance < dist (trim (toLowerCase input)) sp.
Proof.
  set (ni := trim (toLowerCase input)).
  unfold findSpell; fold ni. split.
  - destruct (List.find _ _) as [s|] eqn:Hf; [done|].
    destruct (findSpell_scan ni SPELLS) as [[_ Hall]|(s & -> & _)]; [done|done].
  - intros Hall. destruct (List.find _ _) as [s|] eqn:Hf.
    + apply find_direct_spec in Hf as Hb. destruct Hb as (pre & post & Hl & Hle & _).
      specialize (Hall s). rewrite Hl in Hall. unshelve epose proof (Hall _) as H; [|lia].
      apply elem_of_app. right. apply elem_of_cons. by left.
    + destruct (findSpell_scan ni SPELLS) as [[-> _]|(s & -> & Hb)]; [done|].
      destruct Hb as (pre & post & Hl & Hle & _).
      specialize (Hall s). rewrite Hl in Hall. unshelve epose proof (Hall _) as H; [|lia].
      apply elem_of_app. right. apply elem_of_cons. by left.
Qed.

(** C13: a catalog name typed in any letter case and surrounded by any
    white space resolves to that spell. *)
Theorem findSpell_exact_padded sp (pre post : list ascii) (s : string) :
  sp ∈ SPELLS ->
  Forall (fun c => is_js_space c = true) pre -> Forall (fun c => is_js_space c = true) post ->
  toLowerCase s = toLowerCase sp.(name) ->
  findSpell (String.string_of_list_ascii (pre ++ String.list_ascii_of_string s ++ post)) = Some sp.
Proof.
  intros Hin Hpre Hpost Hs.
  assert (Hni : trim (toLowerCase (String.string_of_list_ascii (pre ++ String.list_ascii_of_string s ++ post)))
                = toLowerCase sp.(name)).
  { pose proof (spell_wf_in sp Hin) as Hwf. unfold spell_wf in Hwf.
    apply andb_prop in Hwf as [Hwf _]. do 4 apply andb_prop in Hwf as [Hwf ?].
    assert (HL : map ascii_toLowerCase (String.list_ascii_of_string s) = lowered sp).
    { unfold lowered. rewrite <- Hs. unfold toLowerCase. by rewrite String.list_ascii_of_string_of_list_ascii. }
    unfold trim, toLowerCase at 1. rewrite !String.list_ascii_of_string_of_list_ascii, !map_app.
    rewrite (map_toLowerCase_spaces pre), (map_toLowerCase_spaces post), HL by done.
    rewrite trim_list_padded by done. apply String.string_of_list_ascii_of_string. }
  unfold findSpell. rewrite Hni.
  destruct (List.find _ _) as [x|] eqn:Hf.
  - apply find_split in Hf as Hx. destruct Hx as (pre' & post' & Hl & Hfx & _).
    apply bool_decide_eq_true in Hfx. f_equal.
    apply (NoDup_map_inj (fun sp => toLowerCase sp.(name)) SPELLS); [apply catalog_names_distinct| |done|done].
    rewrite Hl. apply elem_of_app. right. apply elem_of_cons. by left.
  - exfalso. pose proof (find_none _ _ Hf sp (proj1 (list_elem_of_In _ _) Hin)) as Hn.
    cbv beta in Hn. by rewrite bool_decide_true in Hn.
Qed.

(** ** The resolver instance used by the engine *)

Lemma findSpell_scan_in ni sp : (fold_left (findSpell_step ni) SPELLS (None, None)).1 = Some sp -> sp ∈ SPELLS.
Proof.
  destruct (findSpell_scan ni SPELLS) as [[-> _]|(s & -> & Hb)]; cbn; [done|].
  intros [= <-]. by eapply first_best_in.
Qed.

Lemma findSpell_in_catalog input sp : findSpell input = Some sp -> sp ∈ SPELLS.
Proof.
  unfold findSpell. case_match eqn:Hf.
  - intros [= <-]. apply list_elem_of_In. by apply find_some in Hf as [? _].
  - apply findSpell_scan_in.
Qed.

#[export] Instance findSpell_resolver : SpellResolver :=
  {| resolve := findSpell; resolve_in_catalog := findSpell_in_catalog |}.

(** ** Witnesses on the spec's scenarios *)

Definition Stupefy : Spell :=
  mkSpell "Stupefy" Attack (Some 15%Z) None None None 3%Z 10%Z 1%Z
    "Stunning Spell - stuns the opponent" (Some "stupefy").

Lemma findSpell_first_best_witness :
  findSpell "Stupefyy" = Some Stupefy /\ first_best (trim (toLowerCase "Stupefyy")) SPELLS Stupefy.
Proof. split; [vm_compute; reflexivity|]. apply findSpell_first_best. vm_compute. reflexivity. Defined.

Lemma findSpell_exact_padded_witness :
  findSpell (String.string_of_list_ascii ([" "%char] ++ String.list_ascii_of_string "sTUPEFY" ++ ["009"%char])) = Some Stupefy.
Proof.
  apply findSpell_exact_padded.
  - vm_compute. right. right. left.
  - repeat constructor.
  - repeat constructor.
  - vm_compute. reflexivity.
Defined.
