(* ===== verification/JsNumber.v ===== *)
(** * Numbers as JavaScript writes and reads them

    [Index.tsx] keeps the count of unlocked achievements in
    [localStorage] as a string. It writes the count with
    [Number.prototype.toString] and reads it back with
    [parseInt(...)] (no radix). The views print hit points, stamina and
    cooldowns with the same [toString]. This file models both
    conversions on integers, following ECMAScript's [parseInt]:
    - skip leading white space (the [trim_start] of [Spells.v]);
    - take an optional sign;
    - a ["0x"] or ["0X"] prefix switches to radix 16;
    - read the longest prefix of digits of the radix;
    - an empty prefix gives [NaN], written [None].

    [toString] is decimal: JavaScript switches to exponent notation only
    from 10^21 on, far above the counts and the points printed here.
    Its digit loop recurses on [n / 10], not on a subterm, so it is
    defined with Equations by well-founded recursion. *)

From Equations Require Import Equations.
From Stdlib Require Import ZArith Lia Ascii String.
From stdpp Require Import base list decidable.
From S2P Require Import Prelude Spells.

(** ** [Number.prototype.toString] on integers *)

Definition digit_char (d : nat) : ascii := ascii_of_nat (48 + d).

(** The decimal digits of [n], least significant first. *)
Equations? digits10 (n : nat) : list nat by wf n lt :=
  digits10 n with lt_dec n 10 := {
    | left _ => [n];
    | right _ => n mod 10 :: digits10 (n / 10) }.
Proof. apply Nat.div_lt; lia. Qed.

Definition nat_toString (n : nat) : list ascii := map digit_char (rev (digits10 n)).

Definition number_toString (z : Z) : string :=
  string_of_list_ascii
    (if (z <? 0)%Z then "-"%char :: nat_toString (Z.abs_nat z) else nat_toString (Z.abs_nat z)).

(** ** [parseInt] without a radix *)

(** The value of a character as a digit of [radix] (0-9, then a-z or A-Z). *)
Definition digit_value (radix : nat) (c : ascii) : option nat :=
  let n := nat_of_ascii c in
  let v := if (48 <=? n) && (n <=? 57) then Some (n - 48)
           else if (97 <=? n) && (n <=? 122) then Some (n - 87)
           else if (65 <=? n) && (n <=? 90) then Some (n - 55) else None in
  match v with Some d => if d <? radix then Some d else None | None => None end.

(** The longest prefix of digits of [radix]. *)
Fixpoint digit_prefix (radix : nat) (l : list ascii) : list nat :=
  match l with
  | c :: l' => match digit_value radix c with Some d => d :: digit_prefix radix l' | None => [] end
  | [] => []
  end.

Definition digits_value (radix : nat) (ds : list nat) : nat :=
  fold_left (fun acc d => acc * radix + d) ds 0.

Definition strip_sign (l : list ascii) : Z * list ascii :=
  match l with
  | c :: r => if Ascii.eqb c "-" then (-1, r)%Z else if Ascii.eqb c "+" then (1, r)%Z else (1, l)%Z
  | [] => (1, [])%Z
  end.

Definition strip_prefix (l : list ascii) : nat * list ascii :=
  match l with
  | c :: x :: r => if Ascii.eqb c "0" && (Ascii.eqb x "x" || Ascii.eqb x "X") then (16, r) else (10, l)
  | _ => (10, l)
  end.

Definition parseInt (s : string) : option Z :=
  let '(sign, l1) := strip_sign (trim_start (list_ascii_of_string s)) in
  let '(radix, l2) := strip_prefix l1 in
  match digit_prefix radix l2 with
  | [] => None
  | ds => Some (sign * Z.of_nat (digits_value radix ds))%Z
  end.

(** ** Lemmas *)

Lemma digits10_lt n : Forall (fun d => d < 10) (digits10 n).
Proof.
  funelim (digits10 n); [constructor; [lia|constructor]|].
  constructor; [apply Nat.mod_upper_bound; lia|assumption].
Qed.

Lemma digits10_value n : digits_value 10 (rev (digits10 n)) = n.
Proof.
  funelim (digits10 n); [done|].
  match goal with IH : digits_value 10 (rev (digits10 _)) = _ |- _ =>
    assert (IH' : digits_value 10 (rev (digits10 (n / 10))) = n / 10) by exact IH end.
  unfold digits_value in *. cbn [rev]. rewrite fold_left_app. cbn [fold_left]. rewrite IH'.
  pose proof (Nat.div_mod_eq n 10). lia.
Qed.

Lemma digits10_nonempty n : digits10 n <> [].
Proof. funelim (digits10 n); done. Qed.

Lemma digit_value_char d : d < 10 -> digit_value 10 (digit_char d) = Some d.
Proof.
  intros Hd. unfold digit_value, digit_char. rewrite nat_ascii_embedding by lia.
  destruct (Nat.leb_spec 48 (48 + d)); [|lia]. destruct (Nat.leb_spec (48 + d) 57); [|lia]. cbn [andb].
  destruct (Nat.ltb_spec (48 + d - 48) 10); [|lia]. f_equal. lia.
Qed.

Lemma digit_prefix_chars ds :
  Forall (fun d => d < 10) ds -> digit_prefix 10 (map digit_char ds) = ds.
Proof. induction 1 as [|d ds Hd _ IH]; [done|]. cbn [map digit_prefix]. by rewrite digit_value_char, IH. Qed.

Lemma digit_char_not_space d : d < 10 -> is_js_space (digit_char d) = false.
Proof.
  intros Hd. unfold is_js_space, digit_char. rewrite nat_ascii_embedding by lia.
  destruct (Nat.leb_spec 9 (48 + d)), (Nat.leb_spec (48 + d) 13), (Nat.eqb_spec (48 + d) 32); simpl; lia.
Qed.

(** The characters of a decimal numeral: its first is no space, no sign,
    and its second is no [x]. *)
Lemma digit_char_eqb d c : d < 10 -> Ascii.eqb (digit_char d) c = true -> 48 <= nat_of_ascii c <= 57.
Proof.
  intros Hd He%Ascii.eqb_eq. subst c. unfold digit_char. rewrite nat_ascii_embedding by lia. lia.
Qed.

Lemma numeral_parse ds :
  Forall (fun d => d < 10) ds -> ds <> [] ->
  let l := map digit_char ds in
  trim_start l = l /\ strip_sign l = (1%Z, l) /\ strip_prefix l = (10, l).
Proof.
  intros Hall Hne. destruct ds as [|d ds]; [done|]. apply Forall_cons_1 in Hall as [Hd Hall].
  cbn zeta. cbn [map trim_start]. rewrite digit_char_not_space by done. split; [done|].
  unfold strip_sign, strip_prefix.
  destruct (Ascii.eqb (digit_char d) "-") eqn:E1; [apply digit_char_eqb in E1; [cbv in E1; lia|done]|].
  destruct (Ascii.eqb (digit_char d) "+") eqn:E2; [apply digit_char_eqb in E2; [cbv in E2; lia|done]|].
  split; [done|]. destruct ds as [|d' ds]; [done|]. apply Forall_cons_1 in Hall as [Hd' _]. cbn [map].
  destruct (Ascii.eqb (digit_char d') "x") eqn:E3; [apply digit_char_eqb in E3; [cbv in E3; lia|done]|].
  destruct (Ascii.eqb (digit_char d') "X") eqn:E4; [apply digit_char_eqb in E4; [cbv in E4; lia|done]|].
  by rewrite andb_false_r.
Qed.

Lemma parseInt_numeral n :
  let l := nat_toString n in
  trim_start l = l /\ strip_sign l = (1%Z, l) /\ strip_prefix l = (10, l)
  /\ digit_prefix 10 l = rev (digits10 n).
Proof.
  pose proof (digits10_lt n) as Hlt. apply Forall_rev in Hlt.
  assert (Hne : rev (digits10 n) <> []).
  { pose proof (digits10_nonempty n). destruct (digits10 n) as [|x l]; [done|].
    cbn [rev]. intros [_ ?]%app_eq_nil. discriminate. }
  destruct (numeral_parse _ Hlt Hne) as (H1 & H2 & H3). unfold nat_toString. cbn zeta.
  split_and!; [done|done|done|by apply digit_prefix_chars].
Qed.

#[export] Hint Resolve digits10_lt digits10_nonempty : duel.

(** Reading the numeral of [n] after a sign [sign]. *)
Lemma parse_numeral_value (sign : Z) n :
  (let '(radix, l2) := strip_prefix (nat_toString n) in
   match digit_prefix radix l2 with [] => None | ds => Some (sign * Z.of_nat (digits_value radix ds))%Z end)
  = Some (sign * Z.of_nat n)%Z.
Proof.
  destruct (parseInt_numeral n) as (_ & _ & -> & Hd). rewrite Hd.
  pose proof (digits10_value n) as Hv.
  destruct (rev (digits10 n)) as [|d ds] eqn:E.
  - exfalso. apply (digits10_nonempty n). destruct (digits10 n) as [|x l]; [done|].
    cbn [rev] in E. apply app_eq_nil in E as [_ ?]. discriminate.
  - by rewrite Hv.
Qed.

Lemma number_toString_nonempty z : number_toString z <> ""%string.
Proof.
  unfold number_toString. case_match; [done|].
  destruct (nat_toString (Z.abs_nat z)) as [|c l] eqn:E; [|done].
  unfold nat_toString in E. apply map_eq_nil in E.
  destruct (digits10 (Z.abs_nat z)) as [|x l'] eqn:E'; [by apply digits10_nonempty in E'|].
  cbn [rev] in E. apply app_eq_nil in E as [_ ?]. discriminate.
Qed.

(** The counts [Index] stores are never negative: they read back. *)
Lemma parseInt_count_toString n : parseInt (number_toString (Z.of_nat n)) = Some (Z.of_nat n).
Proof.
  unfold parseInt, number_toString. rewrite list_ascii_of_string_of_list_ascii, Zabs2Nat.id.
  destruct (parseInt_numeral n) as (Ht & Hs & _). destruct (Z.ltb_spec (Z.of_nat n) 0); [lia|].
  rewrite Ht, Hs, parse_numeral_value. f_equal. lia.
Qed.
