(* ===== verification/Achievements.v ===== *)
(** * Achievements ([src/src/data/achievements.ts])

    [GameStats] is the session-wide counter record, [Achievement] an
    entry of the catalog with its unlock predicate as a Rocq boolean
    function, [checkAchievements] the evaluator, and [mergeUnlocked] the
    unlock step that [endGame] runs on its result
    ([src/src/hooks/useGameState.ts], lines 286-290). JavaScript numbers
    are modelled as [Z]; the counters stay far below 2^53. *)

From Stdlib Require Import ZArith Lia.
From stdpp Require Import base list strings decidable.
From S2P Require Import Prelude.

(** ** Data *)

Record GameStats := mkGameStats {
  spellsCast : Z;
  correctSpells : Z;
  consecutiveCorrectSpells : Z;
  gamesWon : Z;
  gamesLost : Z;
  damageDealt : Z;
  damageTaken : Z;
  healthRemaining : option Z;
  usedHealingSpells : bool;
  perfectGames : Z;
  unforgivableCursesUsed : Z
}.

Record Achievement := mkAchievement {
  id : string;
  name : string;
  description : string;
  title : option string;
  condition : GameStats -> bool;
  unlocked : bool
}.

Local Open Scope string_scope.
Local Open Scope Z_scope.

Definition ACHIEVEMENTS : list Achievement := [
  mkAchievement "first_spell" "First Incantation" "Cast your first spell correctly"
    (Some "Novice Spellcaster") (fun stats => 1 <=? stats.(correctSpells)) false;
  mkAchievement "spell_streak" "Perfect Pronunciation" "Cast 5 correct spells in a row"
    (Some "Precise Duelist") (fun stats => 5 <=? stats.(consecutiveCorrectSpells)) false;
  mkAchievement "first_victory" "First Victory" "Win your first duel"
    (Some "Duel Winner") (fun stats => 1 <=? stats.(gamesWon)) false;
  mkAchievement "narrow_victory" "Narrow Escape" "Win with 10 HP or less remaining"
    (Some "Survivor")
    (fun stats => (1 <=? stats.(gamesWon)) && (default 0 stats.(healthRemaining) <=? 10)) false;
  mkAchievement "no_healing" "Pure Combatant" "Win without using healing spells"
    (Some "Combat Purist") (fun stats => (1 <=? stats.(gamesWon)) && negb stats.(usedHealingSpells)) false;
  mkAchievement "perfect_game" "Flawless Victory" "Win without taking any damage"
    (Some "Untouchable") (fun stats => 1 <=? stats.(perfectGames)) false;
  mkAchievement "spell_master" "Spellcasting Mastery" "Cast 50 spells correctly"
    (Some "Spell Master") (fun stats => 50 <=? stats.(correctSpells)) false;
  mkAchievement "veteran_duelist" "Veteran Duelist" "Win 10 duels"
    (Some "Duel Veteran") (fun stats => 10 <=? stats.(gamesWon)) false;
  mkAchievement "dark_arts" "Dark Arts Practitioner" "Use an Unforgivable Curse"
    (Some "Dark Wizard") (fun stats => 1 <=? stats.(unforgivableCursesUsed)) false;
  mkAchievement "unstoppable" "Unstoppable Force" "Deal 500 total damage across all games"
    (Some "Destroyer") (fun stats => 500 <=? stats.(damageDealt)) false
].

Local Close Scope string_scope.

(** ** The evaluator and the unlock step *)

Definition checkAchievements (stats : GameStats) (achievements : list Achievement) : list Achievement :=
  filter (fun achievement => negb achievement.(unlocked) && achievement.(condition) stats = true) achievements.

Definition with_unlocked (a : Achievement) (b : bool) : Achievement :=
  mkAchievement a.(id) a.(name) a.(description) a.(title) a.(condition) b.

(** [prev.achievements.map(achievement => ({...achievement, unlocked:
    achievement.unlocked || newAchievements.some(na => na.id ===
    achievement.id)}))] *)
Definition mergeUnlocked (newAchievements achievements : list Achievement) : list Achievement :=
  map (fun achievement =>
         with_unlocked achievement
           (achievement.(unlocked) || existsb (fun na => bool_decide (na.(id) = achievement.(id))) newAchievements))
      achievements.

(** [checkAchievements] followed by [mergeUnlocked], as [endGame] does. *)
Definition unlockStep (stats : GameStats) (achievements : list Achievement) : list Achievement :=
  mergeUnlocked (checkAchievements stats achievements) achievements.

(** The unlocked entries in catalog order ([achievements.filter(a => a.unlocked)]). *)
Definition unlockedList (achievements : list Achievement) : list Achievement :=
  filter (fun a => a.(unlocked) = true) achievements.

Local Close Scope Z_scope.

(** ** Lemmas *)

Lemma checkAchievements_spec stats achs a :
  a ∈ checkAchievements stats achs <-> a ∈ achs /\ a.(unlocked) = false /\ a.(condition) stats = true.
Proof.
  unfold checkAchievements. rewrite list_elem_of_filter.
  destruct (unlocked a), (condition a stats); simpl; intuition discriminate.
Qed.

Lemma mergeUnlocked_self new a :
  a ∈ new -> existsb (fun na => bool_decide (na.(id) = a.(id))) new = true.
Proof.
  intros Hin. apply existsb_exists. exists a. split; [by apply list_elem_of_In|]. by apply bool_decide_true.
Qed.

(** ** Theorems *)

(** C18: the unlock step never locks an achievement again, keeps every
    entry's identity and predicate, and unlocks each entry whose
    predicate holds on the stats. *)
Theorem unlockStep_monotone stats achs :
  Forall2 (fun a a' => a'.(id) = a.(id) /\ a'.(condition) = a.(condition)
                       /\ (a.(unlocked) = true -> a'.(unlocked) = true)
                       /\ (a.(condition) stats = true -> a'.(unlocked) = true))
          achs (unlockStep stats achs).
Proof.
  unfold unlockStep, mergeUnlocked. apply Forall2_map_diag, Forall_forall.
  intros a Hin. cbn. split_and!; [done|done|by intros ->|].
  intros Hc. destruct (unlocked a) eqn:Hu; [done|]. cbn.
  apply mergeUnlocked_self, checkAchievements_spec. split; [by apply list_elem_of_In|auto].
Qed.

(** C19: re-running the evaluator on the same stats after the unlock
    step finds nothing new: an achievement fires at most once. *)
Theorem unlockStep_idempotent stats achs :
  checkAchievements stats (unlockStep stats achs) = [].
Proof.
  apply filter_none. intros a' Hin'.
  apply list_elem_of_In, in_map_iff in Hin' as (a & <- & Hin). cbn.
  destruct (condition a stats) eqn:Hc; [|by rewrite andb_false_r].
  destruct (unlocked a) eqn:Hu; [done|]. cbn.
  rewrite (mergeUnlocked_self _ a); [done|]. apply checkAchievements_spec.
  split; [by apply list_elem_of_In|auto].
Qed.

(** The entry of a list with a given id ([achievements.find(a => a.id === id)]). *)
Definition achievement_by_id (aid : string) (achs : list Achievement) : option Achievement :=
  List.find (fun a => bool_decide (a.(id) = aid)) achs.

Lemma mergeUnlocked_by_id (P : Achievement -> Prop) new achs aid a :
  (forall b, b ∈ achs -> b.(unlocked) = false -> P b -> b ∈ new) ->
  achievement_by_id aid achs = Some a -> P a ->
  exists a', achievement_by_id aid (mergeUnlocked new achs) = Some a' /\ a'.(unlocked) = true.
Proof.
  unfold achievement_by_id, mergeUnlocked. induction achs as [|b achs IH]; intros Hnew Hf Hp; [done|].
  cbn [List.find map with_unlocked id unlocked] in *. case_bool_decide as Hb.
  - invc Hf. eexists. split; [done|]. simpl.
    destruct (unlocked a) eqn:Hu; [done|]. simpl.
    apply mergeUnlocked_self, Hnew; [apply list_elem_of_here|done|done].
  - apply IH; [|done|done].
    intros c Hc. apply Hnew. by apply list_elem_of_further.
Qed.

Lemma unlockStep_by_id stats achs aid a :
  achievement_by_id aid achs = Some a -> a.(condition) stats = true ->
  exists a', achievement_by_id aid (unlockStep stats achs) = Some a' /\ a'.(unlocked) = true.
Proof.
  intros Hf Hc. apply (mergeUnlocked_by_id (fun b => b.(condition) stats = true) _ _ _ a); [|done|done].
  intros b Hb Hu Hcb. apply checkAchievements_spec. auto.
Qed.
