(* ===== verification/GameState.v ===== *)
(** * The battle engine ([src/src/hooks/useGameState.ts])

    The React state of [useGameState] is the record [GameState]; each
    [setGameState] updater is a function from the previous state to the
    next. [castSpell] checks its guards on the state it was rendered
    with and then applies its updater; in the serialised model of the
    driver ([Session.v]) the two coincide, so both read the same state.
    A read of a property of [undefined] (a missing player) throws a
    TypeError in the code: the model returns [None] there. The spell
    lookup goes through the [SpellResolver] interface of [Spells.v]. *)

From Stdlib Require Import ZArith Lia.
From stdpp Require Import base list strings decidable.
From S2P Require Import Prelude Spells Achievements.

(** ** Data *)

Inductive GameMode := mode_menu | mode_ai | mode_pvp.
Inductive Difficulty := easy | normal | hard.
Inductive GamePhase := setup | playing | casting | ended.

#[export] Instance GameMode_eq_dec : EqDecision GameMode.
Proof. solve_decision. Defined.
#[export] Instance Difficulty_eq_dec : EqDecision Difficulty.
Proof. solve_decision. Defined.
#[export] Instance GamePhase_eq_dec : EqDecision GamePhase.
Proof. solve_decision. Defined.

Record Player := mkPlayer {
  id : string;
  name : string;
  hp : Z;
  maxHp : Z;
  stamina : Z;
  maxStamina : Z;
  isAI : bool;
  cooldowns : jsmap Z;
  statusEffects : jsmap Z;
  titles : list string
}.

Record LastSpell := mkLastSpell {
  caster : string;
  spell : Spell;
  target : string;
  success : bool
}.

Record GameState := mkGameState {
  mode : GameMode;
  difficulty : Difficulty;
  phase : GamePhase;
  currentPlayer : Z;
  players : list Player;
  lastSpell : option LastSpell;
  turnTimer : Z;
  gameStats : GameStats;
  achievements : list Achievement
}.

(** The [{ success, message }] object [castSpell] returns. *)
Record CastResult := mkCastResult { result_success : bool; message : string }.

Local Open Scope string_scope.
Local Open Scope Z_scope.

(** ** Record updates ([{ ...x, field: v }]) *)

Definition set_stamina_cooldowns (p : Player) (st : Z) (cds : jsmap Z) : Player :=
  mkPlayer p.(id) p.(name) p.(hp) p.(maxHp) st p.(maxStamina) p.(isAI) cds p.(statusEffects) p.(titles).

Definition set_hp (p : Player) (v : Z) : Player :=
  mkPlayer p.(id) p.(name) v p.(maxHp) p.(stamina) p.(maxStamina) p.(isAI) p.(cooldowns) p.(statusEffects) p.(titles).

Definition set_gameStats (s : GameState) (st : GameStats) : GameState :=
  mkGameState s.(mode) s.(difficulty) s.(phase) s.(currentPlayer) s.(players) s.(lastSpell)
    s.(turnTimer) st s.(achievements).

Definition set_players (s : GameState) (ps : list Player) : GameState :=
  mkGameState s.(mode) s.(difficulty) s.(phase) s.(currentPlayer) ps s.(lastSpell)
    s.(turnTimer) s.(gameStats) s.(achievements).

Definition set_phase (s : GameState) (p : GamePhase) : GameState :=
  mkGameState s.(mode) s.(difficulty) p s.(currentPlayer) s.(players) s.(lastSpell)
    s.(turnTimer) s.(gameStats) s.(achievements).

(** ** [initialPlayer] and the initial state *)

Definition initialPlayer (pid pname : string) (ai : bool) : Player :=
  mkPlayer pid pname 100 100 100 100 ai [] [] [].

Definition initialStats : GameStats :=
  mkGameStats 0 0 0 0 0 0 0 None false 0 0.

Definition initialState : GameState :=
  mkGameState mode_menu normal setup 0 [] None 30 initialStats ACHIEVEMENTS.

(** ** [startGame] *)

Definition startGame (m : GameMode) (d : Difficulty) (prev : GameState) : GameState :=
  let ps := if decide (m = mode_ai)
            then [initialPlayer "player1" "Player 1" false; initialPlayer "ai" "Dark Wizard" true]
            else [initialPlayer "player1" "Player 1" false; initialPlayer "player2" "Player 2" false] in
  let st := prev.(gameStats) in
  mkGameState m d playing 0 ps prev.(lastSpell) prev.(turnTimer)
    (mkGameStats st.(spellsCast) st.(correctSpells) st.(consecutiveCorrectSpells) st.(gamesWon)
       st.(gamesLost) st.(damageDealt) st.(damageTaken) None false st.(perfectGames)
       st.(unforgivableCursesUsed))
    prev.(achievements).

(** ** [castSpell] *)

Definition unforgivable (n : string) : bool :=
  bool_decide (n ∈ ["Avada Kedavra"; "Crucio"; "Imperio"]).

(** The [switch (spell.type)]: the damage and healing it reports, and the
    caster and target after it. Types without a case leave both as they
    are. *)
Definition applyEffect (sp : Spell) (caster target : Player) : Z * Z * Player * Player :=
  match sp.(type) with
  | Attack =>
      let dmg := default 0 sp.(damage) in
      (dmg, 0, caster, set_hp target (Z.max 0 (target.(hp) - dmg)))
  | Healing =>
      let heal := default 0 sp.(healing) in
      (0, heal, set_hp caster (Z.min caster.(maxHp) (caster.(hp) + heal)), target)
  | Defense => (0, 0, caster, target)
  | Special =>
      let dmg := default 0 sp.(damage) in
      let heal := default 0 sp.(healing) in
      (dmg, heal, set_hp caster (Z.min caster.(maxHp) (caster.(hp) + heal)),
       set_hp target (Z.max 0 (target.(hp) - dmg)))
  | Buff | Debuff => (0, 0, caster, target)
  end.

Definition castStats (sp : Spell) (dmg : Z) (st : GameStats) : GameStats :=
  mkGameStats (st.(spellsCast) + 1) (st.(correctSpells) + 1) (st.(consecutiveCorrectSpells) + 1)
    st.(gamesWon) st.(gamesLost) (st.(damageDealt) + dmg) st.(damageTaken) st.(healthRemaining)
    (if decide (sp.(type) = Healing) then true else st.(usedHealingSpells))
    st.(perfectGames)
    (if unforgivable sp.(Spells.name) then st.(unforgivableCursesUsed) + 1 else st.(unforgivableCursesUsed)).

(** [caster.stamina = Math.max(0, caster.stamina - spell.staminaCost);
    caster.cooldowns.set(spell.name, spell.cooldown);] *)
Definition charge (sp : Spell) (caster : Player) : Player :=
  set_stamina_cooldowns caster (Z.max 0 (caster.(stamina) - sp.(staminaCost)))
    (jsmap_set sp.(Spells.name) sp.(cooldown) caster.(cooldowns)).

(** The [setGameState(prev => ...)] updater of a successful cast. *)
Definition castUpdate (sp : Spell) (prev : GameState) : option GameState :=
  let cur := prev.(currentPlayer) in
  match js_at prev.(players) cur, js_at prev.(players) (1 - cur) with
  | Some caster0, Some target0 =>
      let '(dmg, _, caster2, target2) := applyEffect sp (charge sp caster0) target0 in
      let newPlayers := js_set_at (js_set_at prev.(players) cur caster2) (1 - cur) target2 in
      Some (mkGameState prev.(mode) prev.(difficulty)
              (if target2.(hp) <=? 0 then ended else playing)
              (1 - cur) newPlayers
              (Some (mkLastSpell caster2.(name) sp target2.(name) true))
              prev.(turnTimer) (castStats sp dmg prev.(gameStats)) prev.(achievements))
  | _, _ => None
  end.

Definition unknownStats (st : GameStats) : GameStats :=
  mkGameStats (st.(spellsCast) + 1) st.(correctSpells) 0 st.(gamesWon) st.(gamesLost)
    st.(damageDealt) st.(damageTaken) st.(healthRemaining) st.(usedHealingSpells)
    st.(perfectGames) st.(unforgivableCursesUsed).

Definition castSpell `{SpellResolver} (spellInput : string) (s : GameState) : option (CastResult * GameState) :=
  match resolve spellInput with
  | None => Some (mkCastResult false "Unknown spell!", set_gameStats s (unknownStats s.(gameStats)))
  | Some sp =>
      match js_at s.(players) s.(currentPlayer) with
      | None => None
      | Some currentPlayer =>
          if currentPlayer.(stamina) <? sp.(staminaCost) then
            Some (mkCastResult false "Not enough stamina!", s)
          else if jsmap_has sp.(Spells.name) currentPlayer.(cooldowns) then
            Some (mkCastResult false (sp.(Spells.name) ++ " is on cooldown!"), s)
          else
            match castUpdate sp s with
            | None => None
            | Some s' => Some (mkCastResult true (sp.(Spells.name) ++ " cast successfully!"), s')
            end
      end
  end.

(** ** The regeneration interval *)

Definition decayCooldowns (cds : jsmap Z) : jsmap Z :=
  filter (fun e => 0 < e.2) (map (fun e => (e.1, e.2 - 1)) cds).

Definition regenPlayer (p : Player) : Player :=
  set_stamina_cooldowns p (Z.min p.(maxStamina) (p.(stamina) + 2)) (decayCooldowns p.(cooldowns)).

Definition regenTick (prev : GameState) : GameState :=
  set_players prev (map regenPlayer prev.(players)).

(** ** [endGame] and [resetGame] *)

Definition endStats (winnerId : string) (ps : list Player) (st : GameStats) : GameStats :=
  match List.find (fun p => bool_decide (p.(id) = winnerId)) ps with
  | Some winner =>
      if bool_decide (winner.(id) = "player1" \/ winner.(id) = "player2") then
        let perfect := match List.find (fun p => negb (bool_decide (p.(id) = winnerId))) ps with
                       | Some loser => bool_decide (loser.(hp) = 100)
                       | None => false
                       end in
        mkGameStats st.(spellsCast) st.(correctSpells) st.(consecutiveCorrectSpells)
          (st.(gamesWon) + 1) st.(gamesLost) st.(damageDealt) st.(damageTaken) (Some winner.(hp))
          st.(usedHealingSpells) (if perfect then st.(perfectGames) + 1 else st.(perfectGames))
          st.(unforgivableCursesUsed)
      else
        mkGameStats st.(spellsCast) st.(correctSpells) st.(consecutiveCorrectSpells) st.(gamesWon)
          (st.(gamesLost) + 1) st.(damageDealt) st.(damageTaken) st.(healthRemaining)
          st.(usedHealingSpells) st.(perfectGames) st.(unforgivableCursesUsed)
  | None =>
      mkGameStats st.(spellsCast) st.(correctSpells) st.(consecutiveCorrectSpells) st.(gamesWon)
        (st.(gamesLost) + 1) st.(damageDealt) st.(damageTaken) st.(healthRemaining)
        st.(usedHealingSpells) st.(perfectGames) st.(unforgivableCursesUsed)
  end.

Definition endGame (winnerId : string) (prev : GameState) : GameState :=
  let newStats := endStats winnerId prev.(players) prev.(gameStats) in
  mkGameState prev.(mode) prev.(difficulty) ended prev.(currentPlayer) prev.(players) prev.(lastSpell)
    prev.(turnTimer) newStats (unlockStep newStats prev.(achievements)).

Definition resetGame (prev : GameState) : GameState :=
  mkGameState mode_menu prev.(difficulty) setup 0 [] None prev.(turnTimer) prev.(gameStats)
    prev.(achievements).

Local Close Scope Z_scope.
Local Close Scope string_scope.

(** ** Well-formedness *)

Definition wf_player (p : Player) : Prop :=
  (0 <= p.(hp) <= p.(maxHp))%Z /\ (0 <= p.(stamina) <= p.(maxStamina))%Z
  /\ jsmap_wf p.(cooldowns) /\ Forall (fun e => (0 < e.2)%Z) p.(cooldowns).

Definition wf_stats (st : GameStats) : Prop :=
  (0 <= st.(consecutiveCorrectSpells) <= st.(correctSpells))%Z
  /\ (st.(correctSpells) <= st.(spellsCast))%Z.

(** Two players once a match is set up, and the turn index names one. *)
Definition wf_state (s : GameState) : Prop :=
  Forall wf_player s.(players) /\ wf_stats s.(gameStats)
  /\ ((s.(players) = [] /\ s.(currentPlayer) = 0%Z)
      \/ (length s.(players) = 2 /\ (s.(currentPlayer) = 0%Z \/ s.(currentPlayer) = 1%Z))).

(** Catalog facts the engine relies on, from the resolver's law. *)
Definition spell_ok (sp : Spell) : Prop :=
  (0 < sp.(cooldown))%Z /\ (0 <= sp.(staminaCost))%Z
  /\ (0 <= default 0 sp.(damage))%Z /\ (0 <= default 0 sp.(healing))%Z.

Lemma spell_ok_catalog sp : sp ∈ SPELLS -> spell_ok sp.
Proof.
  intros Hin%spell_wf_in. unfold spell_wf in Hin. unfold spell_ok.
  repeat match goal with H : (_ && _) = true |- _ => apply andb_prop in H as [H ?] end.
  repeat match goal with H : (_ <? _)%Z = true |- _ => apply Z.ltb_lt in H
                       | H : (_ <=? _)%Z = true |- _ => apply Z.leb_le in H end.
  lia.
Qed.

Lemma spell_ok_resolve `{SpellResolver} input sp : resolve input = Some sp -> spell_ok sp.
Proof. intros Hr. by eapply spell_ok_catalog, resolve_in_catalog. Qed.

Lemma wf_initialPlayer pid pname ai : wf_player (initialPlayer pid pname ai).
Proof. repeat split; simpl; try lia; constructor. Qed.

Lemma wf_set_hp p v : wf_player p -> (0 <= v <= p.(maxHp))%Z -> wf_player (set_hp p v).
Proof. unfold wf_player. simpl. tauto. Qed.

Lemma applyEffect_wf sp c t dmg heal c' t' :
  spell_ok sp -> wf_player c -> wf_player t ->
  applyEffect sp c t = (dmg, heal, c', t') ->
  wf_player c' /\ wf_player t' /\ (0 <= dmg)%Z
  /\ c'.(maxHp) = c.(maxHp) /\ (c.(hp) <= c'.(hp))%Z /\ t'.(maxHp) = t.(maxHp) /\ (t'.(hp) <= t.(hp))%Z.
Proof.
  intros (Hcd & Hcost & Hdmg & Hheal) Hc Ht Happ.
  pose proof Hc as (Hchp & _). pose proof Ht as (Hthp & _).
  unfold applyEffect in Happ. destruct (type sp); invc Happ; simpl;
    split_and!; try done; try lia; apply wf_set_hp; try done; lia.
Qed.

Lemma castStats_wf sp dmg st : wf_stats st -> wf_stats (castStats sp dmg st).
Proof. unfold wf_stats, castStats. simpl. lia. Qed.

Lemma unknownStats_wf st : wf_stats st -> wf_stats (unknownStats st).
Proof. unfold wf_stats, unknownStats. simpl. lia. Qed.

Lemma charge_wf sp c : spell_ok sp -> wf_player c -> wf_player (charge sp c).
Proof.
  intros (Hcd & Hcost & _) (? & ? & ? & ?). unfold charge, wf_player; simpl.
  repeat split; try lia; auto with duel.
Qed.

Lemma castUpdate_wf sp s s' :
  spell_ok sp -> wf_state s -> castUpdate sp s = Some s' -> wf_state s'.
Proof.
  intros Hok (Hps & Hst & Hlen) Hu. unfold castUpdate in Hu.
  destruct (js_at (players s) (currentPlayer s)) as [c0|] eqn:Hc0; [|done].
  destruct (js_at (players s) (1 - currentPlayer s)) as [t0|] eqn:Ht0; [|done].
  rewrite list.Forall_forall in Hps.
  pose proof (Hps _ (js_at_elem _ _ _ Hc0)) as Hwc. pose proof (Hps _ (js_at_elem _ _ _ Ht0)) as Hwt.
  pose proof (charge_wf sp c0 Hok Hwc) as Hwc1.
  destruct (applyEffect sp (charge sp c0) t0) as [[[dmg heal] c2] t2] eqn:Happ.
  destruct (applyEffect_wf _ _ _ _ _ _ _ Hok Hwc1 Hwt Happ) as (Hwc2 & Hwt2 & _).
  invc Hu. split_and!; simpl.
  - apply js_set_at_Forall; [apply js_set_at_Forall|]; [by apply list.Forall_forall| |]; done.
  - by apply castStats_wf.
  - right. unfold js_set_at. rewrite !length_insert.
    apply js_at_length in Hc0. destruct Hlen as [[Hnil _]|[Hl Hcur]]; [rewrite Hnil in Hc0; simpl in Hc0; lia|]. split; [done|lia].
Qed.

Lemma castSpell_wf `{SpellResolver} input s r s' :
  wf_state s -> castSpell input s = Some (r, s') -> wf_state s'.
Proof.
  intros Hwf Hc. unfold castSpell in Hc.
  destruct (resolve input) as [sp|] eqn:Hr.
  - destruct (js_at _ _) as [c|]; [|done].
    destruct (_ <? _)%Z; [by invc Hc|]. destruct (jsmap_has _ _); [by invc Hc|].
    destruct (castUpdate sp s) as [s1|] eqn:Hu; [|done]. invc Hc.
    by eapply castUpdate_wf, Hu; [eapply spell_ok_resolve|].
  - invc Hc. destruct Hwf as (Hps & Hst & Hl). split_and!; [done|by apply unknownStats_wf|done].
Qed.

Lemma decayCooldowns_keys (cds : jsmap Z) :
  (map (fun e => (e.1, (e.2 - 1)%Z)) cds).*1 = cds.*1.
Proof. induction cds as [|[k v] cds IH]; simpl; [done|]. by f_equal. Qed.

Lemma decayCooldowns_wf cds : jsmap_wf cds -> jsmap_wf (decayCooldowns cds) /\ Forall (fun e => (0 < e.2)%Z) (decayCooldowns cds).
Proof.
  intros Hwf. unfold decayCooldowns. split.
  - apply jsmap_filter_wf. unfold jsmap_wf. by rewrite decayCooldowns_keys.
  - apply list.Forall_forall. intros e [He _]%list_elem_of_filter. simpl in He. lia.
Qed.

Lemma regenPlayer_wf p : wf_player p -> wf_player (regenPlayer p).
Proof.
  intros (Hhp & Hst & Hcw & Hcv). destruct (decayCooldowns_wf _ Hcw).
  unfold regenPlayer, wf_player; simpl. split_and!; try done; lia.
Qed.

Lemma regenTick_wf s : wf_state s -> wf_state (regenTick s).
Proof.
  intros (Hps & Hst & Hl). unfold regenTick, set_players. split_and!; simpl.
  - apply Forall_map. exact (List.Forall_impl (fun a => wf_player (regenPlayer a)) regenPlayer_wf Hps).
  - done.
  - rewrite length_map. destruct Hl as [[-> ?]|?]; [left|right]; auto.
Qed.

Lemma endStats_wf winnerId ps st : wf_stats st -> wf_stats (endStats winnerId ps st).
Proof.
  unfold wf_stats, endStats. intros Hst.
  repeat case_match; simpl; lia.
Qed.

Lemma endGame_wf winnerId s : wf_state s -> wf_state (endGame winnerId s).
Proof. intros (Hps & Hst & Hl). split_and!; simpl; [done|by apply endStats_wf|done]. Qed.

Lemma startGame_wf m d s : wf_state s -> wf_state (startGame m d s).
Proof.
  intros (_ & Hst & _). unfold startGame. split_and!; simpl.
  - case_decide; repeat constructor; apply wf_initialPlayer.
  - unfold wf_stats in *; simpl. lia.
  - right. case_decide; simpl; auto.
Qed.

Lemma resetGame_wf s : wf_state s -> wf_state (resetGame s).
Proof. intros (_ & Hst & _). split_and!; simpl; auto. Qed.

Lemma initialState_wf : wf_state initialState.
Proof. split_and!; simpl; [constructor|unfold wf_stats; simpl; lia|auto]. Qed.

#[export] Hint Resolve castSpell_wf regenTick_wf endGame_wf startGame_wf resetGame_wf initialState_wf : duel.

(** ** The two-player shape and the effect of a spell *)

Lemma wf_two_players s c :
  wf_state s -> js_at s.(players) s.(currentPlayer) = Some c ->
  exists a b, s.(players) = [a; b] /\ (s.(currentPlayer) = 0%Z \/ s.(currentPlayer) = 1%Z).
Proof.
  intros (_ & _ & [[Hnil Hc]|[Hl Hc]]) Hj.
  - rewrite Hnil in Hj. unfold js_at in Hj. by destruct (_ <? _)%Z.
  - destruct (players s) as [|a [|b [|]]]; simpl in Hl; try lia. eauto.
Qed.

(** What a spell does to hit points, read off the code's [switch]. *)
Definition effect_damage (sp : Spell) : Z :=
  match sp.(type) with Attack | Special => default 0%Z sp.(damage) | _ => 0%Z end.
Definition effect_heal (sp : Spell) : Z :=
  match sp.(type) with Healing | Special => default 0%Z sp.(healing) | _ => 0%Z end.

Lemma applyEffect_spec sp c t dmg heal c' t' :
  wf_player c -> wf_player t -> applyEffect sp c t = (dmg, heal, c', t') ->
  dmg = effect_damage sp
  /\ c'.(hp) = Z.min c.(maxHp) (c.(hp) + effect_heal sp) /\ t'.(hp) = Z.max 0 (t.(hp) - effect_damage sp)
  /\ c'.(stamina) = c.(stamina) /\ c'.(cooldowns) = c.(cooldowns) /\ c'.(maxHp) = c.(maxHp)
  /\ t'.(maxHp) = t.(maxHp) /\ t'.(stamina) = t.(stamina) /\ t'.(cooldowns) = t.(cooldowns).
Proof.
  intros (Hc & _) (Ht & _) Happ. unfold applyEffect, effect_damage, effect_heal in *.
  destruct (type sp); invc Happ; simpl; split_and!; try done; lia.
Qed.

(** A successful cast, unfolded on a two-player state whose turn index is [cur]. *)
Lemma castSpell_success_inv `{SpellResolver} input s r s' :
  wf_state s -> castSpell input s = Some (r, s') -> r.(result_success) = true ->
  exists sp c t dmg heal c' t',
    resolve input = Some sp
    /\ js_at s.(players) s.(currentPlayer) = Some c /\ js_at s.(players) (1 - s.(currentPlayer)) = Some t
    /\ (sp.(staminaCost) <= c.(stamina))%Z /\ jsmap_has sp.(Spells.name) c.(cooldowns) = false
    /\ applyEffect sp (charge sp c) t = (dmg, heal, c', t')
    /\ js_at s'.(players) s.(currentPlayer) = Some c' /\ js_at s'.(players) (1 - s.(currentPlayer)) = Some t'
    /\ length s'.(players) = 2
    /\ s'.(currentPlayer) = (1 - s.(currentPlayer))%Z
    /\ s'.(phase) = (if (t'.(hp) <=? 0)%Z then ended else playing)
    /\ s'.(gameStats) = castStats sp dmg s.(gameStats)
    /\ s'.(lastSpell) = Some (mkLastSpell c'.(name) sp t'.(name) true).
Proof.
  intros Hwf Hc Hs. unfold castSpell in Hc.
  destruct (resolve input) as [sp|] eqn:Hr; [|by invc Hc].
  destruct (js_at _ _) as [c|] eqn:Hjc; [|done].
  destruct (Z.ltb_spec (stamina c) (staminaCost sp)); [by invc Hc|].
  destruct (jsmap_has _ _) eqn:Hh; [by invc Hc|].
  destruct (castUpdate sp s) as [s1|] eqn:Hu; [|done]. invc Hc.
  destruct (wf_two_players s c Hwf Hjc) as (a & b & Hab & Hcur).
  unfold castUpdate in Hu. rewrite Hab in Hu, Hjc |- *.
  destruct Hcur as [Hcur|Hcur]; rewrite Hcur in Hu, Hjc |- *;
    [replace (1 - 0)%Z with 1%Z in * by lia|replace (1 - 1)%Z with 0%Z in * by lia];
    autorewrite with js_pair in Hu, Hjc |- *; invc Hjc;
    destruct (applyEffect sp (charge sp c) _) as [[[dmg heal] c'] t'] eqn:Happ; invc Hu;
    do 7 eexists; split_and!; try done; lia.
Qed.

Lemma pair_shape (l : list Player) cur c t :
  length l = 2 -> (cur = 0%Z \/ cur = 1%Z) -> js_at l cur = Some c -> js_at l (1 - cur) = Some t ->
  (cur = 0%Z /\ l = [c; t]) \/ (cur = 1%Z /\ l = [t; c]).
Proof.
  intros Hl Hcur Hc Ht. destruct l as [|a [|b [|]]]; simpl in Hl; try lia.
  destruct Hcur as [->| ->]; [replace (1 - 0)%Z with 1%Z in Ht by lia|replace (1 - 1)%Z with 0%Z in Ht by lia];
    autorewrite with js_pair in Hc, Ht; invc Hc; invc Ht; auto.
Qed.

Lemma pair_members (l : list Player) cur c t :
  length l = 2 -> (cur = 0%Z \/ cur = 1%Z) -> js_at l cur = Some c -> js_at l (1 - cur) = Some t ->
  forall p, p ∈ l -> p = c \/ p = t.
Proof.
  intros Hl Hcur Hc Ht p Hp.
  destruct (pair_shape l cur c t Hl Hcur Hc Ht) as [[_ ->]|[_ ->]];
    repeat (apply elem_of_cons in Hp as [->|Hp]); auto; by apply elem_of_nil in Hp.
Qed.

(** The caster of a cast on a live match is still standing after it. *)
Lemma cast_caster_alive `{SpellResolver} input s sp c t dmg heal c' t' :
  wf_state s -> Forall (fun p => 0 < p.(hp))%Z s.(players) -> resolve input = Some sp ->
  js_at s.(players) s.(currentPlayer) = Some c -> js_at s.(players) (1 - s.(currentPlayer)) = Some t ->
  applyEffect sp (charge sp c) t = (dmg, heal, c', t') -> (0 < c'.(hp))%Z.
Proof.
  intros Hwf Halive Hr Hjc Hjt Happ.
  pose proof Hwf as (Hps & _ & _). rewrite list.Forall_forall in Hps, Halive.
  pose proof (Hps _ (js_at_elem _ _ _ Hjc)) as Hwc. pose proof (Hps _ (js_at_elem _ _ _ Hjt)) as Hwt.
  pose proof (Halive _ (js_at_elem _ _ _ Hjc)) as Hac.
  pose proof (spell_ok_resolve _ _ Hr) as Hok.
  destruct (applyEffect_spec _ _ _ _ _ _ _ (charge_wf sp c Hok Hwc) Hwt Happ) as (_ & Hch & _).
  rewrite Hch. unfold charge, effect_heal; simpl. destruct Hwc as (? & _).
  destruct Hok as (_ & _ & _ & ?). destruct (type sp); lia.
Qed.

(** ** Theorems on [castSpell] *)

(** C4: a failed cast changes nothing but the attempt counters: the
    players, the turn, the phase and the last action stay as they were;
    an unknown spell counts one more attempt and resets the streak to 0,
    an unaffordable spell or one on cooldown leaves the stats as they are. *)
Theorem castSpell_failure_atomic `{SpellResolver} input s r s' :
  castSpell input s = Some (r, s') -> r.(result_success) = false ->
  s'.(players) = s.(players) /\ s'.(currentPlayer) = s.(currentPlayer) /\ s'.(phase) = s.(phase)
  /\ s'.(lastSpell) = s.(lastSpell) /\ s'.(achievements) = s.(achievements)
  /\ s'.(gameStats).(correctSpells) = s.(gameStats).(correctSpells)
  /\ s'.(gameStats).(damageDealt) = s.(gameStats).(damageDealt)
  /\ (if resolve input is Some _ then s'.(gameStats) = s.(gameStats)
      else s'.(gameStats).(spellsCast) = (s.(gameStats).(spellsCast) + 1)%Z
           /\ s'.(gameStats).(consecutiveCorrectSpells) = 0%Z).
Proof.
  intros Hc Hf. unfold castSpell in Hc.
  destruct (resolve input) as [sp|] eqn:Hr; [|invc Hc; simpl; split_and!; auto].
  destruct (js_at _ _) as [c|]; [|done].
  destruct (_ <? _)%Z; [invc Hc; split_and!; auto|].
  destruct (jsmap_has _ _); [invc Hc; split_and!; auto|].
  destruct (castUpdate sp s); [by invc Hc|done].
Qed.

(** C3: a successful cast passed the affordability and cooldown guards,
    charges the caster exactly the spell's cost, puts the spell on its
    cooldown, applies the type's damage to the target and healing to the
    caster (clamped to [0, maxHp]), hands the turn to the other player
    and counts one more attempted, correct and consecutive cast. *)
Theorem castSpell_success_spec `{SpellResolver} input s r s' :
  wf_state s -> castSpell input s = Some (r, s') -> r.(result_success) = true ->
  exists sp c t c' t',
    resolve input = Some sp
    /\ js_at s.(players) s.(currentPlayer) = Some c /\ js_at s.(players) (1 - s.(currentPlayer)) = Some t
    /\ js_at s'.(players) s.(currentPlayer) = Some c' /\ js_at s'.(players) (1 - s.(currentPlayer)) = Some t'
    /\ (sp.(staminaCost) <= c.(stamina))%Z /\ jsmap_has sp.(Spells.name) c.(cooldowns) = false
    /\ c'.(stamina) = (c.(stamina) - sp.(staminaCost))%Z
    /\ jsmap_get sp.(Spells.name) c'.(cooldowns) = Some sp.(cooldown)
    /\ c'.(hp) = Z.min c.(maxHp) (c.(hp) + effect_heal sp)
    /\ t'.(hp) = Z.max 0 (t.(hp) - effect_damage sp)
    /\ s'.(currentPlayer) = (1 - s.(currentPlayer))%Z
    /\ s'.(gameStats).(spellsCast) = (s.(gameStats).(spellsCast) + 1)%Z
    /\ s'.(gameStats).(correctSpells) = (s.(gameStats).(correctSpells) + 1)%Z
    /\ s'.(gameStats).(consecutiveCorrectSpells) = (s.(gameStats).(consecutiveCorrectSpells) + 1)%Z
    /\ s'.(gameStats).(damageDealt) = (s.(gameStats).(damageDealt) + effect_damage sp)%Z.
Proof.
  intros Hwf Hc Hs.
  destruct (castSpell_success_inv input s r s' Hwf Hc Hs)
    as (sp & c & t & dmg & heal & c' & t' & Hr & Hjc & Hjt & Hcost & Hcd & Happ & Hjc' & Hjt' & _ & Hcur & _ & Hst & _).
  destruct Hwf as (Hps & _). rewrite list.Forall_forall in Hps.
  pose proof (Hps _ (js_at_elem _ _ _ Hjc)) as Hwc. pose proof (Hps _ (js_at_elem _ _ _ Hjt)) as Hwt.
  pose proof (charge_wf sp c (spell_ok_resolve _ _ Hr) Hwc) as Hwc1.
  destruct (applyEffect_spec _ _ _ _ _ _ _ Hwc1 Hwt Happ) as (-> & Hch & Hth & Hcs & Hcc & Hcm & _).
  exists sp, c, t, c', t'. rewrite Hst, Hch, Hth, Hcs, Hcc. unfold charge; simpl.
  split_and!; try done; try lia. apply jsmap_get_set_eq.
Qed.

(** C6: starting from a live match (every player above 0 hit points), a
    successful cast ends the match exactly when it leaves some player at
    0 hit points. *)
Theorem castSpell_ended_iff `{SpellResolver} input s r s' :
  wf_state s -> Forall (fun p => 0 < p.(hp))%Z s.(players) ->
  castSpell input s = Some (r, s') -> r.(result_success) = true ->
  (s'.(phase) = ended <-> Exists (fun p => p.(hp) = 0%Z) s'.(players)).
Proof.
  intros Hwf Halive Hc Hs.
  destruct (castSpell_success_inv input s r s' Hwf Hc Hs)
    as (sp & c & t & dmg & heal & c' & t' & Hr & Hjc & Hjt & _ & _ & Happ & Hjc' & Hjt' & Hlen & _ & Hph & _).
  pose proof (cast_caster_alive input s sp c t dmg heal c' t' Hwf Halive Hr Hjc Hjt Happ) as Hc'hp.
  pose proof Hwf as (Hps & _). rewrite list.Forall_forall in Hps.
  pose proof (charge_wf sp c (spell_ok_resolve _ _ Hr) (Hps _ (js_at_elem _ _ _ Hjc))) as Hwc1.
  destruct (applyEffect_spec _ _ _ _ _ _ _ Hwc1 (Hps _ (js_at_elem _ _ _ Hjt)) Happ) as (_ & _ & Hth & _).
  destruct (wf_two_players s c Hwf Hjc) as (a & b & _ & Hcur).
  rewrite Hph. destruct (pair_shape _ _ _ _ Hlen Hcur Hjc' Hjt') as [[_ ->]|[_ ->]];
    rewrite !Exists_cons, Exists_nil; destruct (Z.leb_spec (hp t') 0); split; intros; try done; lia.
Qed.

(** C23: on a set-up match a cast never throws: [castSpell] always
    returns a result. *)
Theorem castSpell_total `{SpellResolver} input s :
  wf_state s -> length s.(players) = 2 -> exists r s', castSpell input s = Some (r, s').
Proof.
  intros Hwf Hl. pose proof Hwf as (_ & _ & [[Hnil _]|[_ Hcur]]); [by rewrite Hnil in Hl|].
  destruct (players s) as [|a [|b [|]]] eqn:Hps; simpl in Hl; try lia.
  unfold castSpell. destruct (resolve input) as [sp|]; [|eauto].
  unfold castUpdate. rewrite Hps.
  destruct Hcur as [Hcur|Hcur]; rewrite Hcur;
    [replace (1 - 0)%Z with 1%Z by lia|replace (1 - 1)%Z with 0%Z by lia];
    autorewrite with js_pair; repeat case_match; eauto; autorewrite with js_pair in *; congruence.
Qed.

(** ** The regeneration tick over time *)

Lemma jsmap_get_decay k (m : jsmap Z) :
  jsmap_wf m ->
  jsmap_get k (decayCooldowns m)
  = match jsmap_get k m with Some c => if (0 <? c - 1)%Z then Some (c - 1)%Z else None | None => None end.
Proof.
  unfold decayCooldowns, jsmap_wf. induction m as [|[k' v] m IH]; intros Hnd; [done|].
  cbn [map fmap list_fmap] in *. apply list.NoDup_cons in Hnd as [Hk' Hnd]. simpl.
  rewrite filter_cons. case_decide as Hv; simpl in Hv; simpl.
  - case_decide; subst; [|by apply IH].
    destruct (Z.ltb_spec 0 (v - 1)); [done|lia].
  - rewrite IH by done. case_decide; subst; [|done].
    rewrite jsmap_get_notin by done. destruct (Z.ltb_spec 0 (v - 1)); [lia|done].
Qed.

Lemma regen_iter_wf n p : wf_player p -> wf_player (Nat.iter n regenPlayer p).
Proof. induction n; simpl; auto using regenPlayer_wf. Qed.

(** C11: a cooldown of [c] ticks counts down by one per regeneration
    tick and its entry disappears after exactly [c] ticks, when the spell
    can be cast again. *)
Theorem regen_cooldown_expires p k c n :
  wf_player p -> jsmap_get k p.(cooldowns) = Some c ->
  jsmap_get k (Nat.iter n regenPlayer p).(cooldowns)
  = if (Z.of_nat n <? c)%Z then Some (c - Z.of_nat n)%Z else None.
Proof.
  intros Hwf Hk. induction n as [|n IH].
  - simpl. rewrite Hk. pose proof Hwf as (_ & _ & Hcw & Hcv).
    pose proof (jsmap_get_Forall (fun v => 0 < v)%Z _ _ _ Hk Hcv) as Hc; cbv beta in Hc.
    change (Z.of_nat 0) with 0%Z. destruct (Z.ltb_spec 0 c); [f_equal; lia|lia].
  - change (Nat.iter (S n) regenPlayer p) with (regenPlayer (Nat.iter n regenPlayer p)).
    pose proof (regen_iter_wf n p Hwf) as (_ & _ & Hcw & _).
    set (q := Nat.iter n regenPlayer p) in *.
    unfold regenPlayer, set_stamina_cooldowns. cbn [cooldowns].
    rewrite jsmap_get_decay, IH by done.
    destruct (Z.ltb_spec (Z.of_nat n) c); destruct (Z.ltb_spec (Z.of_nat (S n)) c);
      try destruct (Z.ltb_spec 0 (c - Z.of_nat n - 1)); try done; try (f_equal; lia); lia.
Qed.

(** C12: each tick regenerates 2 stamina, up to the maximum. *)
Theorem regen_stamina p n :
  wf_player p ->
  (Nat.iter n regenPlayer p).(stamina) = Z.min p.(maxStamina) (p.(stamina) + 2 * Z.of_nat n).
Proof.
  intros (_ & Hst & _). induction n as [|n IH]; simpl; [lia|].
  rewrite IH. assert (Hm : (Nat.iter n regenPlayer p).(maxStamina) = p.(maxStamina)).
  { clear IH. induction n; simpl; auto. }
  rewrite Hm. lia.
Qed.

(** ** [endGame] *)

Lemma endStats_pair w l st :
  w.(id) <> l.(id) ->
  forall ps, ps = [w; l] \/ ps = [l; w] ->
  endStats w.(id) ps st =
  if bool_decide (w.(id) = "player1"%string \/ w.(id) = "player2"%string) then
    mkGameStats st.(spellsCast) st.(correctSpells) st.(consecutiveCorrectSpells)
      (st.(gamesWon) + 1)%Z st.(gamesLost) st.(damageDealt) st.(damageTaken) (Some w.(hp))
      st.(usedHealingSpells)
      (if bool_decide (l.(hp) = 100%Z) then (st.(perfectGames) + 1)%Z else st.(perfectGames))
      st.(unforgivableCursesUsed)
  else
    mkGameStats st.(spellsCast) st.(correctSpells) st.(consecutiveCorrectSpells) st.(gamesWon)
      (st.(gamesLost) + 1)%Z st.(damageDealt) st.(damageTaken) st.(healthRemaining)
      st.(usedHealingSpells) st.(perfectGames) st.(unforgivableCursesUsed).
Proof.
  intros Hne ps [-> | ->]; unfold endStats; cbn [List.find].
  - rewrite (bool_decide_true (w.(id) = w.(id))) by done. case_bool_decide; [|done].
    cbn [List.find negb].
    by rewrite (bool_decide_false (l.(id) = w.(id))) by congruence.
  - rewrite (bool_decide_false (l.(id) = w.(id))) by congruence. cbn [List.find].
    rewrite (bool_decide_true (w.(id) = w.(id))) by done. case_bool_decide; [|done].
    by cbn [List.find negb].
Qed.

(** C15: [endGame] with the id of one of the two players ends the match
    and runs the unlock step on the new stats; a human winner adds a win,
    records its hit points and counts a flawless win exactly when the
    other player is at 100 hit points; any other winner adds a loss. *)
Theorem endGame_two_players s w l :
  (s.(players) = [w; l] \/ s.(players) = [l; w]) -> w.(id) <> l.(id) ->
  let s' := endGame w.(id) s in
  s'.(phase) = ended /\ s'.(achievements) = unlockStep s'.(gameStats) s.(achievements)
  /\ (if bool_decide (w.(id) = "player1"%string \/ w.(id) = "player2"%string) then
        s'.(gameStats).(gamesWon) = (s.(gameStats).(gamesWon) + 1)%Z
        /\ s'.(gameStats).(gamesLost) = s.(gameStats).(gamesLost)
        /\ s'.(gameStats).(healthRemaining) = Some w.(hp)
        /\ s'.(gameStats).(perfectGames)
           = (s.(gameStats).(perfectGames) + if bool_decide (l.(hp) = 100%Z) then 1 else 0)%Z
      else
        s'.(gameStats).(gamesWon) = s.(gameStats).(gamesWon)
        /\ s'.(gameStats).(gamesLost) = (s.(gameStats).(gamesLost) + 1)%Z
        /\ s'.(gameStats).(perfectGames) = s.(gameStats).(perfectGames)).
Proof.
  intros Hps Hne. cbn zeta. unfold endGame. cbn [phase achievements gameStats].
  rewrite (endStats_pair w l _ Hne _ Hps). split_and!; [done|done|].
  case_bool_decide; simpl; [|repeat split; lia]. case_bool_decide; simpl; repeat split; lia.
Qed.

(** C16: the flawless-win counter tests the loser's hit points, so a
    match won by knocking the loser down to 0 never counts as flawless,
    whatever the winner's own hit points. *)
Theorem endGame_knockout_never_flawless s w l :
  (s.(players) = [w; l] \/ s.(players) = [l; w]) -> w.(id) <> l.(id) -> (l.(hp) <= 0)%Z ->
  (endGame w.(id) s).(gameStats).(perfectGames) = s.(gameStats).(perfectGames).
Proof.
  intros Hps Hne Hl. unfold endGame. cbn [gameStats].
  rewrite (endStats_pair w l _ Hne _ Hps).
  case_bool_decide; simpl; [|done]. rewrite bool_decide_false by lia. done.
Qed.

(** C17: after a won match, [startGame] clears [healthRemaining], and the
    "Narrow Escape" predicate reads a missing value as 0 hit points: the
    next match lost to the computer unlocks "Narrow Escape". *)
Theorem endGame_loss_unlocks_narrow_escape s p ai :
  s.(players) = [p; ai] -> ai.(id) = "ai"%string -> p.(id) <> ai.(id) ->
  achievement_by_id "narrow_victory" s.(achievements) = achievement_by_id "narrow_victory" ACHIEVEMENTS ->
  (1 <= s.(gameStats).(gamesWon))%Z -> s.(gameStats).(healthRemaining) = None ->
  (endGame "ai" s).(gameStats).(gamesLost) = (s.(gameStats).(gamesLost) + 1)%Z
  /\ exists a, achievement_by_id "narrow_victory" (endGame "ai" s).(achievements) = Some a
               /\ a.(unlocked) = true.
Proof.
  intros Hps Hai Hne Hach Hwon Hnone.
  pose proof (endStats_pair ai p s.(gameStats) (not_eq_sym Hne) _ (or_intror Hps)) as Hst.
  rewrite bool_decide_false in Hst by (rewrite Hai; intros [? | ?]; discriminate).
  unfold endGame. cbn [gameStats achievements]. rewrite <- Hai, Hst. split; [done|].
  apply unlockStep_by_id with
    (a := mkAchievement "narrow_victory" "Narrow Escape" "Win with 10 HP or less remaining"
            (Some "Survivor")
            (fun stats => (1 <=? stats.(gamesWon))%Z && (default 0 stats.(healthRemaining) <=? 10)%Z) false).
  - by rewrite Hach.
  - simpl. rewrite Hnone. simpl. apply andb_true_intro. split; apply Z.leb_le; lia.
Qed.

(** ** What a cast leaves alone, and who is still standing after it *)

(** A cast never changes the mode, the match results or the achievements,
    and it moves the phase only on success, to [playing] or [ended]. *)
Lemma castSpell_frame `{SpellResolver} input s r s' :
  wf_state s -> castSpell input s = Some (r, s') ->
  s'.(mode) = s.(mode) /\ s'.(achievements) = s.(achievements)
  /\ s'.(gameStats).(gamesWon) = s.(gameStats).(gamesWon)
  /\ s'.(gameStats).(gamesLost) = s.(gameStats).(gamesLost)
  /\ s'.(gameStats).(perfectGames) = s.(gameStats).(perfectGames)
  /\ (s'.(phase) = s.(phase) /\ s'.(players) = s.(players)
      \/ (r.(result_success) = true /\ (s'.(phase) = playing \/ s'.(phase) = ended)
          /\ length s'.(players) = 2)).
Proof.
  intros Hwf Hc. destruct (result_success r) eqn:Hs.
  - pose proof (castSpell_success_inv input s r s' Hwf Hc Hs)
      as (sp & c & t & dmg & heal & c' & t' & _ & _ & _ & _ & _ & _ & _ & _ & Hlen & _ & Hph & Hst).
    unfold castSpell in Hc. destruct (resolve input) as [sp'|]; [|by invc Hc].
    destruct (js_at _ _); [|done]. destruct (_ <? _)%Z; [by invc Hc|]. destruct (jsmap_has _ _); [by invc Hc|].
    destruct (castUpdate sp' s) as [s1|] eqn:Hu; [|done]. invc Hc.
    unfold castUpdate in Hu. repeat case_match; invc Hu; simpl in *.
    all: split_and!; try done; right; split_and!; auto.
  - unfold castSpell in Hc. repeat case_match; invc Hc; simpl in *; try discriminate; split_and!; auto.
Qed.

Lemma castSpell_alive `{SpellResolver} input s r s' :
  wf_state s -> Forall (fun p => 0 < p.(hp))%Z s.(players) ->
  castSpell input s = Some (r, s') -> s'.(phase) = playing ->
  Forall (fun p => 0 < p.(hp))%Z s'.(players).
Proof.
  intros Hwf Halive Hc Hph'. destruct (result_success r) eqn:Hs.
  - destruct (castSpell_success_inv input s r s' Hwf Hc Hs)
      as (sp & c & t & dmg & heal & c' & t' & Hr & Hjc & Hjt & _ & _ & Happ & Hjc' & Hjt' & Hlen & _ & Hph & _).
    pose proof (cast_caster_alive input s sp c t dmg heal c' t' Hwf Halive Hr Hjc Hjt Happ) as Hc'.
    destruct (wf_two_players s c Hwf Hjc) as (a & b & _ & Hcur).
    apply list.Forall_forall. intros p Hp.
    destruct (pair_members _ _ _ _ Hlen Hcur Hjc' Hjt' p Hp) as [->| ->]; [done|].
    rewrite Hph' in Hph. destruct (Z.leb_spec (hp t') 0); [done|lia].
  - destruct (castSpell_frame input s r s' Hwf Hc) as (_ & _ & _ & _ & _ & [[_ ->]|[Hs' _]]); [done|congruence].
Qed.

(** A cast that ends a live match leaves its caster as the first player
    above 0 hit points, and records it as the last caster. *)
Lemma castSpell_ended_winner `{SpellResolver} input s r s' :
  wf_state s -> Forall (fun p => 0 < p.(hp))%Z s.(players) -> s.(phase) = playing ->
  castSpell input s = Some (r, s') -> s'.(phase) = ended ->
  exists ls w, s'.(lastSpell) = Some ls /\ List.find (fun p => 0 <? p.(hp))%Z s'.(players) = Some w
               /\ w.(name) = ls.(caster) /\ (0 < w.(hp))%Z.
Proof.
  intros Hwf Halive Hph Hc Hend. destruct (result_success r) eqn:Hs.
  - destruct (castSpell_success_inv input s r s' Hwf Hc Hs)
      as (sp & c & t & dmg & heal & c' & t' & Hr & Hjc & Hjt & _ & _ & Happ & Hjc' & Hjt' & Hlen & _ & Hph' & _ & Hls).
    pose proof (cast_caster_alive input s sp c t dmg heal c' t' Hwf Halive Hr Hjc Hjt Happ) as Hc'.
    destruct (wf_two_players s c Hwf Hjc) as (a & b & _ & Hcur).
    assert (Ht' : (hp t' <= 0)%Z) by (destruct (Z.leb_spec (hp t') 0); [done|congruence]).
    exists (mkLastSpell c'.(name) sp t'.(name) true), c'. split_and!; [done| |done|done].
    destruct (pair_shape _ _ _ _ Hlen Hcur Hjc' Hjt') as [[_ ->]|[_ ->]]; simpl.
    + by rewrite (proj2 (Z.ltb_lt 0 (hp c'))).
    + by rewrite (proj2 (Z.ltb_ge 0 (hp t'))), (proj2 (Z.ltb_lt 0 (hp c'))).
  - destruct (castSpell_frame input s r s' Hwf Hc) as (_ & _ & _ & _ & _ & [[Hp _]|[Hs' _]]); congruence.
Qed.

(** ** Sequences of engine operations

    The operations [useGameState] exports, as a client may call them in
    any order: a cast of some input, a regeneration tick, [endGame] with
    some winner id, [startGame] and [resetGame]. A cast that throws stops
    the sequence. *)

Inductive engine_op :=
| op_cast (input : string)
| op_regen
| op_end (winnerId : string)
| op_start (m : GameMode) (d : Difficulty)
| op_reset.

Definition apply_op `{SpellResolver} (op : engine_op) (s : GameState) : option GameState :=
  match op with
  | op_cast input => option_map snd (castSpell input s)
  | op_regen => Some (regenTick s)
  | op_end w => Some (endGame w s)
  | op_start m d => Some (startGame m d s)
  | op_reset => Some (resetGame s)
  end.

Fixpoint run_ops `{SpellResolver} (ops : list engine_op) (s : GameState) : option GameState :=
  match ops with
  | [] => Some s
  | op :: rest => apply_op op s ≫= run_ops rest
  end.

Lemma apply_op_wf `{SpellResolver} op s s' : wf_state s -> apply_op op s = Some s' -> wf_state s'.
Proof.
  intros Hwf Ha. destruct op; simpl in Ha.
  - destruct (castSpell input s) as [[r g]|] eqn:Hc; invc Ha. by eapply castSpell_wf.
  - invc Ha. auto with duel.
  - invc Ha. auto with duel.
  - invc Ha. auto with duel.
  - invc Ha. auto with duel.
Qed.

Lemma run_ops_wf `{SpellResolver} ops s s' : wf_state s -> run_ops ops s = Some s' -> wf_state s'.
Proof.
  revert s. induction ops as [|op ops IH]; intros s0 Hwf Hr; simpl in Hr; [by invc Hr|].
  destruct (apply_op op s0) as [s1|] eqn:Ha; [|done].
  exact (IH s1 (apply_op_wf op s0 s1 Hwf Ha) Hr).
Qed.

(** C9: from the initial state, every sequence of engine operations that
    does not throw ends in a well-formed state: hit points and stamina in
    [0, max], cooldown maps with distinct keys and positive counts, the
    streak at most the correct casts and those at most the attempts, and
    either no players or two with the turn index naming one. *)
Theorem engine_preserves_wf `{SpellResolver} ops s :
  run_ops ops initialState = Some s -> wf_state s.
Proof. apply run_ops_wf, initialState_wf. Qed.

(** [castSpell] has no guard on the phase: its result, and the state it
    leaves after a success, are those of the same call on any other
    phase. *)
Lemma castUpdate_set_phase sp s p : castUpdate sp (set_phase s p) = castUpdate sp s.
Proof. reflexivity. Qed.

(** C10: [castSpell] does not look at the phase, although the spec says
    no cast may change an ended match: on any phase [p], a call returns
    what it returns on the given state, the same result and, after a
    success, the same state, whose phase is computed from the target's
    hit points alone; after a failure the state keeps phase [p]. So a
    cast on an [ended] match goes through and revives it. *)
Theorem castSpell_no_phase_guard `{SpellResolver} input s p :
  castSpell input (set_phase s p)
  = match castSpell input s with
    | Some (r, s') => Some (r, if r.(result_success) then s' else set_phase s' p)
    | None => None
    end.
Proof.
  unfold castSpell. destruct (resolve input) as [sp|]; [|reflexivity]. rewrite castUpdate_set_phase.
  change (players (set_phase s p)) with (players s). change (currentPlayer (set_phase s p)) with (currentPlayer s).
  destruct (js_at _ _) as [c|]; [|reflexivity].
  destruct (_ <? _)%Z; [reflexivity|]. destruct (jsmap_has _ _); [reflexivity|].
  by destruct (castUpdate sp s).
Qed.

(** ** Witnesses on concrete duels *)

Local Open Scope string_scope.

(** A two-player match just started from the menu. *)
Definition pvp_start : GameState := startGame mode_pvp normal initialState.

(** The same match after four typed casts, both players still standing. *)
Definition duel_pre : GameState :=
  default pvp_start (run_ops (map op_cast ["Avada Kedavra"; "Stupefy"; "Sectumsempra"; "Diffindo"]) pvp_start).

(** A match in which player 2 is knocked out. *)
Definition won_state : GameState :=
  set_players pvp_start [initialPlayer "player1" "Player 1" false;
                         set_hp (initialPlayer "player2" "Player 2" false) 0].

(** The next match against the computer, after [endGame] gave player 1 the win. *)
Definition rematch : GameState := startGame mode_ai normal (endGame "player1" won_state).

Local Close Scope string_scope.

Lemma pvp_start_wf : wf_state pvp_start.
Proof. apply startGame_wf, initialState_wf. Qed.

Lemma castSpell_success_spec_witness :
  exists r s', castSpell "Stupefy" pvp_start = Some (r, s') /\ r.(result_success) = true
  /\ exists sp t t', resolve "Stupefy" = Some sp /\ js_at pvp_start.(players) 1 = Some t
     /\ js_at s'.(players) 1 = Some t' /\ t'.(hp) = Z.max 0 (t.(hp) - effect_damage sp).
Proof.
  destruct (castSpell "Stupefy" pvp_start) as [[r s']|] eqn:Hc; [|vm_compute in Hc; discriminate].
  assert (Hs : r.(result_success) = true) by (vm_compute in Hc; by injection Hc as <- _).
  exists r, s'. split_and!; [done|done|].
  destruct (castSpell_success_spec "Stupefy" pvp_start r s' pvp_start_wf Hc Hs)
    as (sp & c & t & c' & t' & Hr & _ & Ht & _ & Ht' & _ & _ & _ & _ & _ & Htd & _).
  exists sp, t, t'. split_and!; done.
Defined.

Lemma castSpell_failure_atomic_witness :
  exists r s', castSpell "Wingardium" pvp_start = Some (r, s') /\ r.(result_success) = false
  /\ s'.(players) = pvp_start.(players) /\ s'.(gameStats).(consecutiveCorrectSpells) = 0%Z.
Proof.
  destruct (castSpell "Wingardium" pvp_start) as [[r s']|] eqn:Hc; [|vm_compute in Hc; discriminate].
  assert (Hf : r.(result_success) = false) by (vm_compute in Hc; by injection Hc as <- _).
  assert (Hr : resolve "Wingardium" = None) by (vm_compute; reflexivity).
  destruct (castSpell_failure_atomic "Wingardium" pvp_start r s' Hc Hf)
    as (Hp & _ & _ & _ & _ & _ & _ & Hif).
  rewrite Hr in Hif. exists r, s'. split_and!; [done|done|done|apply Hif].
Defined.

Lemma castSpell_ended_iff_witness :
  exists r s', castSpell "stupefy" duel_pre = Some (r, s') /\ r.(result_success) = true
  /\ s'.(phase) = ended /\ Exists (fun p => p.(hp) = 0%Z) s'.(players).
Proof.
  destruct (castSpell "stupefy" duel_pre) as [[r s']|] eqn:Hc; [|vm_compute in Hc; discriminate].
  assert (Hs : r.(result_success) = true) by (vm_compute in Hc; by injection Hc as <- _).
  assert (Hph : s'.(phase) = ended) by (vm_compute in Hc; by injection Hc as _ <-).
  assert (Hwf : wf_state duel_pre).
  { apply (run_ops_wf (map op_cast ["Avada Kedavra"; "Stupefy"; "Sectumsempra"; "Diffindo"]%string) pvp_start);
      [apply pvp_start_wf|vm_compute; reflexivity]. }
  assert (Hal : Forall (fun p => 0 < p.(hp))%Z duel_pre.(players)).
  { repeat apply Forall_cons; try apply Forall_nil; vm_compute; reflexivity. }
  exists r, s'. split_and!; [done|done|done|].
  by apply (castSpell_ended_iff "stupefy" duel_pre r s' Hwf Hal Hc Hs).
Defined.

Lemma castSpell_total_witness : exists r s', castSpell "Expelliarmus" pvp_start = Some (r, s').
Proof. apply castSpell_total; [apply pvp_start_wf|reflexivity]. Defined.

Lemma engine_preserves_wf_witness :
  wf_state (default initialState (run_ops [op_start mode_ai hard; op_cast "Episkey"; op_regen;
                                           op_end "ai"; op_reset] initialState)).
Proof. apply (engine_preserves_wf [op_start mode_ai hard; op_cast "Episkey"; op_regen; op_end "ai"; op_reset]).
  vm_compute. reflexivity. Defined.

(** A player holding Protego's cooldown of 8 ticks and 90 stamina. *)
Definition shielded : Player :=
  set_stamina_cooldowns (initialPlayer "player1" "Player 1" false) 90 [("Protego"%string, 8%Z)].

Lemma shielded_wf : wf_player shielded.
Proof.
  unfold wf_player. simpl. split_and!; try lia.
  - apply NoDup_singleton.
  - apply Forall_singleton. simpl. lia.
Qed.

Lemma regen_cooldown_expires_witness :
  jsmap_get "Protego" (Nat.iter 7 regenPlayer shielded).(cooldowns) = Some 1%Z
  /\ jsmap_get "Protego" (Nat.iter 8 regenPlayer shielded).(cooldowns) = None.
Proof.
  split; rewrite (regen_cooldown_expires shielded "Protego" 8%Z) by (apply shielded_wf || reflexivity);
    reflexivity.
Defined.

Lemma regen_stamina_witness : (Nat.iter 10 regenPlayer shielded).(stamina) = 100%Z.
Proof. rewrite (regen_stamina shielded 10) by apply shielded_wf. reflexivity. Defined.

Lemma endGame_two_players_witness :
  (endGame "player1" won_state).(phase) = ended
  /\ (endGame "player1" won_state).(gameStats).(gamesWon) = 1%Z
  /\ (endGame "player1" won_state).(gameStats).(healthRemaining) = Some 100%Z.
Proof.
  pose proof (endGame_two_players won_state (initialPlayer "player1" "Player 1" false)
                (set_hp (initialPlayer "player2" "Player 2" false) 0) (or_introl eq_refl)
                ltac:(discriminate)) as H.
  cbn zeta in H. rewrite bool_decide_true in H by (left; reflexivity).
  destruct H as (Hph & _ & Hw & _ & Hh & _). split_and!; [exact Hph|etransitivity; [exact Hw|reflexivity]|exact Hh].
Defined.

Lemma endGame_knockout_never_flawless_witness :
  (endGame "player1" won_state).(gameStats).(perfectGames) = 0%Z.
Proof.
  apply (endGame_knockout_never_flawless won_state (initialPlayer "player1" "Player 1" false)
           (set_hp (initialPlayer "player2" "Player 2" false) 0));
    [left; reflexivity|discriminate|simpl; lia].
Defined.

Lemma endGame_loss_unlocks_narrow_escape_witness :
  exists a, achievement_by_id "narrow_victory" (endGame "ai" rematch).(achievements) = Some a
            /\ a.(unlocked) = true.
Proof.
  apply (endGame_loss_unlocks_narrow_escape rematch (initialPlayer "player1" "Player 1" false)
           (initialPlayer "ai" "Dark Wizard" true)); try reflexivity; try discriminate.
  all: vm_compute; discriminate.
Defined.
