(* ===== verification/AI.v ===== *)
(** * The computer opponent: [getAISpell] ([src/src/hooks/useGameState.ts], lines 76-109)

    [Math.floor(Math.random() * pool.length)] is modelled by the index
    it draws, [roll]; the code's draw is always below the pool's length,
    which the theorems take as hypothesis. The policy returns a spell
    name, which the driver feeds to [castSpell] like typed input. *)

From Stdlib Require Import ZArith Lia.
From stdpp Require Import base list strings decidable.
From S2P Require Import Prelude Spells Achievements GameState.

Local Open Scope string_scope.

Definition availableSpells (d : Difficulty) : list string :=
  match d with
  | easy => ["Stupefy"; "Expelliarmus"; "Protego"]
  | normal => ["Stupefy"; "Expelliarmus"; "Protego"; "Diffindo"; "Reducto"; "Episkey"]
  | hard => ["Stupefy"; "Expelliarmus"; "Protego"; "Diffindo"; "Reducto"; "Episkey";
             "Sectumsempra"; "Avada Kedavra"]
  end.

Definition strategicSpells : list string := ["Expelliarmus"; "Stupefy"; "Diffindo"; "Reducto"].

(** [availableSpells.filter(spell => !['Episkey', 'Protego'].includes(spell))] *)
Definition attackSpells : list string :=
  filter (fun sp => sp ∉ ["Episkey"; "Protego"]) (availableSpells normal).

(** [pool[Math.floor(Math.random() * pool.length)]] with the drawn index. *)
Definition pick (pool : list string) (roll : nat) : string := nth roll pool "".

Local Open Scope Z_scope.

Definition getAISpell (d : Difficulty) (aiPlayer opponent : Player) (roll : nat) : string :=
  match d with
  | easy => pick (availableSpells easy) roll
  | normal =>
      if (aiPlayer.(hp) <? 30) && (20 <=? aiPlayer.(stamina)) then "Episkey"
      else pick attackSpells roll
  | hard =>
      if (aiPlayer.(hp) <? 25) && (20 <=? aiPlayer.(stamina)) then "Episkey"
      else if (opponent.(hp) <? 30) && (30 <=? aiPlayer.(stamina)) then "Sectumsempra"
      else if (opponent.(hp) <? 60) && (50 <=? aiPlayer.(stamina)) then "Avada Kedavra"
      else pick strategicSpells roll
  end.

Local Close Scope Z_scope.

(** The pool the random branch of each difficulty draws from. *)
Definition randomPool (d : Difficulty) : list string :=
  match d with easy => availableSpells easy | normal => attackSpells | hard => strategicSpells end.

Local Close Scope string_scope.

(** ** Lemmas *)

(** Every name the policy can return. *)
Definition aiNames : list string :=
  ["Stupefy"; "Expelliarmus"; "Protego"; "Diffindo"; "Reducto"; "Episkey";
   "Sectumsempra"; "Avada Kedavra"]%string.

Lemma pick_in pool roll : roll < length pool -> pick pool roll ∈ pool.
Proof. intros Hr. unfold pick. apply list_elem_of_In, nth_In, Hr. Qed.

Lemma randomPool_names d : forall n, n ∈ randomPool d -> n ∈ aiNames.
Proof.
  intros n Hn. destruct d; vm_compute in Hn; repeat (apply elem_of_cons in Hn as [->|Hn]);
    solve [by apply elem_of_nil in Hn | decide_mem].
Qed.

Lemma getAISpell_names d ai opp roll :
  roll < length (randomPool d) -> getAISpell d ai opp roll ∈ aiNames.
Proof.
  intros Hr. pose proof (randomPool_names d _ (pick_in _ _ Hr)) as Hp.
  unfold getAISpell. destruct d; repeat case_match; solve [done | decide_mem].
Qed.

(** Each of those names resolves to the catalog spell of that name. *)
Lemma aiNames_resolve : Forall (fun n => option_map Spells.name (findSpell n) = Some n) aiNames.
Proof. repeat apply Forall_cons; try apply Forall_nil; vm_compute; reflexivity. Qed.

(** ** Theorems *)

(** C20: whatever the difficulty, hit points and draw, the name the
    computer chooses resolves through [findSpell] to the catalog spell
    of exactly that name, so its cast takes the same path as a typed
    one. *)
Theorem getAISpell_resolves d ai opp roll :
  roll < length (randomPool d) ->
  exists sp, findSpell (getAISpell d ai opp roll) = Some sp /\ sp.(Spells.name) = getAISpell d ai opp roll.
Proof.
  intros Hr%(getAISpell_names d ai opp). pose proof aiNames_resolve as Hall.
  rewrite list.Forall_forall in Hall. specialize (Hall _ Hr).
  destruct (findSpell _) as [sp|]; [|done]. simpl in Hall. invc Hall. eauto.
Qed.

(** The spell a guard of the hard cascade names, and the stamina it costs. *)
Lemma findSpell_cost n sp c :
  (n, c) ∈ [("Episkey", 20); ("Sectumsempra", 30); ("Avada Kedavra", 50)]%string%Z ->
  findSpell n = Some sp -> sp.(staminaCost) = c.
Proof.
  intros Hn Hf. repeat (apply elem_of_cons in Hn as [Hn|Hn]; [injection Hn as -> ->; vm_compute in Hf; by invc Hf|]).
  by apply elem_of_nil in Hn.
Qed.

(** C21: the hard opponent's stamina guards are the catalog's costs:
    whenever it chooses a spell by strategy (Episkey to heal, or a
    finisher) rather than from its random pool, the spell it names costs
    no more stamina than it has, so that cast never fails for stamina. *)
Theorem getAISpell_hard_affordable ai opp roll sp :
  getAISpell hard ai opp roll ∉ strategicSpells ->
  findSpell (getAISpell hard ai opp roll) = Some sp -> (sp.(staminaCost) <= ai.(stamina))%Z.
Proof.
  unfold getAISpell.
  destruct ((hp ai <? 25)%Z && (20 <=? stamina ai)%Z) eqn:E1; intros Hn Hf;
    [apply andb_true_iff in E1 as [_ E1%Z.leb_le]; rewrite (findSpell_cost "Episkey" sp 20); [lia|decide_mem|exact Hf]|].
  revert Hn Hf. destruct ((hp opp <? 30)%Z && (30 <=? stamina ai)%Z) eqn:E2; intros Hn Hf;
    [apply andb_true_iff in E2 as [_ E2%Z.leb_le]; rewrite (findSpell_cost "Sectumsempra" sp 30); [lia|decide_mem|exact Hf]|].
  revert Hn Hf. destruct ((hp opp <? 60)%Z && (50 <=? stamina ai)%Z) eqn:E3; intros Hn Hf;
    [apply andb_true_iff in E3 as [_ E3%Z.leb_le]; rewrite (findSpell_cost "Avada Kedavra" sp 50); [lia|decide_mem|exact Hf]|].
  destruct (decide (roll < length strategicSpells)) as [Hr|Hr]; [by destruct Hn; apply pick_in|].
  unfold pick in Hf. rewrite nth_overflow in Hf by lia. vm_compute in Hf. discriminate.
Qed.

(** C22: the normal opponent draws only from Stupefy, Expelliarmus,
    Diffindo and Reducto, and casts Episkey exactly when it is below 30
    hit points with 20 stamina: it never casts Protego. *)
Theorem getAISpell_normal ai opp roll :
  roll < length (randomPool normal) ->
  (getAISpell normal ai opp roll = "Episkey"%string <-> (ai.(hp) < 30 /\ 20 <= ai.(stamina))%Z)
  /\ getAISpell normal ai opp roll <> "Protego"%string
  /\ randomPool normal = ["Stupefy"; "Expelliarmus"; "Diffindo"; "Reducto"]%string.
Proof.
  intros Hr. assert (Hp : randomPool normal = ["Stupefy"; "Expelliarmus"; "Diffindo"; "Reducto"]%string)
    by reflexivity.
  assert (Hin : pick attackSpells roll ∈ ["Stupefy"; "Expelliarmus"; "Diffindo"; "Reducto"]%string)
    by (rewrite <- Hp; by apply pick_in).
  assert (Hne : pick attackSpells roll <> "Episkey"%string /\ pick attackSpells roll <> "Protego"%string).
  { repeat (apply elem_of_cons in Hin as [->|Hin]); [..|by apply elem_of_nil in Hin]; split; discriminate. }
  unfold getAISpell. split_and!; [| |done];
    destruct (Z.ltb_spec (hp ai) 30), (Z.leb_spec 20 (stamina ai)); simpl;
    solve [split; intros; (done || lia || by destruct Hne) | discriminate | apply Hne].
Qed.

(** ** Witnesses *)

Lemma getAISpell_resolves_witness :
  exists sp, findSpell (getAISpell hard (initialPlayer "ai" "Dark Wizard" true)
                                        (initialPlayer "player1" "Player 1" false) 2) = Some sp
             /\ sp.(Spells.name) = "Diffindo"%string.
Proof.
  destruct (getAISpell_resolves hard (initialPlayer "ai" "Dark Wizard" true)
              (initialPlayer "player1" "Player 1" false) 2) as (sp & Hf & Hn); [simpl; lia|].
  exists sp. split; [exact Hf|exact Hn].
Defined.

Lemma getAISpell_normal_witness :
  getAISpell normal (set_hp (initialPlayer "ai" "Dark Wizard" true) 20) (initialPlayer "player1" "Player 1" false) 3
  = "Episkey"%string.
Proof.
  apply (getAISpell_normal (set_hp (initialPlayer "ai" "Dark Wizard" true) 20)
           (initialPlayer "player1" "Player 1" false) 3); [simpl; lia|simpl; lia].
Defined.

Lemma getAISpell_hard_affordable_witness :
  exists sp, findSpell (getAISpell hard (set_hp (initialPlayer "ai" "Dark Wizard" true) 20)
                                        (initialPlayer "player1" "Player 1" false) 0) = Some sp
             /\ (sp.(staminaCost) <= 100)%Z.
Proof.
  eexists. split; [vm_compute; reflexivity|].
  apply (getAISpell_hard_affordable (set_hp (initialPlayer "ai" "Dark Wizard" true) 20)
           (initialPlayer "player1" "Player 1" false) 0); [apply (bool_decide_eq_true_1 (_ ∉ _)); vm_compute; reflexivity|vm_compute; reflexivity].
Defined.
