(* ===== verification/Session.v ===== *)
(** * The driver: what the page lets happen to the engine

    [src/src/pages/Index.tsx], [src/src/components/GameArena.tsx] and
    [src/src/components/GameMenu.tsx] decide which engine operation runs
    when, and [useGameState]'s two effects run the computer's cast and the
    regeneration interval. [step] is one event of the page: a menu
    button, a typed cast, the computer's timed cast (its random draw as a
    parameter, its delay abstracted away), a regeneration tick, the
    auto-end effect, leaving the arena, or the achievement-notification
    effect. The events are serialised, as React's single thread runs
    them; timing is over-approximated (any enabled event may come next).
    The achievement counter is the string [localStorage] holds, or
    nothing, read with [parseInt] of [JsNumber.v]. *)

From Stdlib Require Import ZArith Lia.
From stdpp Require Import base list strings decidable.
From S2P Require Import Prelude Spells JsNumber Achievements GameState AI.

(** ** State of the page *)

Record Session := mkSession {
  gs : GameState;
  achievementCount : option string;  (** [localStorage.getItem('achievementCount')] *)
  notified : list Achievement   (** the [newAchievements] notification queue *)
}.

Definition with_gs (s : Session) (g : GameState) : Session :=
  mkSession g s.(achievementCount) s.(notified).

(** The page starts on the menu; the stored counter survives from earlier visits. *)
Definition initSession (stored : option string) : Session := mkSession initialState stored [].

(** The four buttons of [GameMenu]. *)
Inductive menu_choice : GameMode -> Difficulty -> Prop :=
| mc_ai_easy : menu_choice mode_ai easy
| mc_ai_normal : menu_choice mode_ai normal
| mc_ai_hard : menu_choice mode_ai hard
| mc_pvp : menu_choice mode_pvp normal.

(** [localStorage.getItem('achievementCount') || '0']: a missing or an
    empty item reads as ['0']. *)
Definition storedOrZero (item : option string) : string :=
  match item with Some v => if bool_decide (v = ""%string) then "0"%string else v | None => "0"%string end.

(** The effect of [Index] that reports newly unlocked achievements. The
    count is parsed with [parseInt]; a comparison with [NaN] is false.
    When the unlocked count exceeds it, the effect appends
    [currentUnlocked.slice(lastKnownCount)] and stores the new count. *)
Definition notifyAchievements (s : Session) : Session :=
  let currentUnlocked := unlockedList s.(gs).(achievements) in
  match parseInt (storedOrZero s.(achievementCount)) with
  | Some lastKnownCount =>
      if (lastKnownCount <? Z.of_nat (length currentUnlocked))%Z then
        mkSession s.(gs) (Some (number_toString (Z.of_nat (length currentUnlocked))))
          (s.(notified) ++ js_slice currentUnlocked lastKnownCount)
      else s
  | None => s
  end.

Lemma notify_gs s : (notifyAchievements s).(gs) = s.(gs).
Proof. unfold notifyAchievements. by repeat case_match. Qed.

Definition human_turn (g : GameState) : Prop :=
  exists p, js_at g.(players) g.(currentPlayer) = Some p /\ p.(isAI) = false.

Inductive step : Session -> Session -> Prop :=
(** [GameMenu] is shown while [mode = 'menu']. *)
| st_start s m d :
    s.(gs).(mode) = mode_menu -> menu_choice m d ->
    step s (with_gs s (startGame m d s.(gs)))
(** [GameArena.handleSpellCast]: the input box exists on a human turn of
    a match not yet [ended]; blank input is ignored; the input is trimmed. *)
| st_cast s input r g' :
    s.(gs).(mode) <> mode_menu -> s.(gs).(phase) <> ended -> human_turn s.(gs) ->
    trim input <> ""%string ->
    castSpell (trim input) s.(gs) = Some (r, g') ->
    step s (with_gs s g')
(** The AI effect: while [playing] on the computer's turn, a timer casts
    [getAISpell] with the current difficulty. *)
| st_ai s roll ai opp r g' :
    s.(gs).(phase) = playing ->
    js_at s.(gs).(players) s.(gs).(currentPlayer) = Some ai -> ai.(isAI) = true ->
    js_at s.(gs).(players) (1 - s.(gs).(currentPlayer)) = Some opp ->
    roll < length (randomPool s.(gs).(difficulty)) ->
    castSpell (getAISpell s.(gs).(difficulty) ai opp roll) s.(gs) = Some (r, g') ->
    step s (with_gs s g')
(** The regeneration interval runs while [playing]. *)
| st_tick s :
    s.(gs).(phase) = playing -> step s (with_gs s (regenTick s.(gs)))
(** [Index]'s auto-end effect: while [playing], once some player is at
    0 hit points or less, [endGame] with the first player above 0. *)
| st_auto_end s w :
    s.(gs).(phase) = playing ->
    Exists (fun p => p.(hp) <= 0)%Z s.(gs).(players) ->
    List.find (fun p => 0 <? p.(hp))%Z s.(gs).(players) = Some w ->
    step s (with_gs s (endGame w.(id) s.(gs)))
(** "Retreat from Duel" and "Return to Menu" both call [resetGame]. *)
| st_leave s :
    s.(gs).(mode) <> mode_menu -> step s (with_gs s (resetGame s.(gs)))
| st_notify s : step s (notifyAchievements s)
(** A card's 300 ms timer calls [removeAchievementNotification(index)]
    with the index it captured: [prev.filter((_, i) => i !== index)],
    stdpp's [delete], which does nothing out of range. *)
| st_dismiss s i : step s (mkSession s.(gs) s.(achievementCount) (delete i s.(notified))).

Definition reachable (stored : option string) (s : Session) : Prop := star step (initSession stored) s.

(** ** An executable run of typed casts

    [play] feeds the inputs one by one through the arena's input box,
    checking that the box is there; it is used to exhibit concrete runs. *)

Definition cast_enabled (g : GameState) (input : string) : bool :=
  bool_decide (g.(mode) <> mode_menu) && bool_decide (g.(phase) <> ended)
  && match js_at g.(players) g.(currentPlayer) with Some p => negb p.(isAI) | None => false end
  && bool_decide (trim input <> ""%string).

Fixpoint play (inputs : list string) (s : Session) : option Session :=
  match inputs with
  | [] => Some s
  | input :: rest =>
      if cast_enabled s.(gs) input then
        match castSpell (trim input) s.(gs) with
        | Some (_, g') => play rest (with_gs s g')
        | None => None
        end
      else None
  end.

(** ** The invariant of the page *)

(** The menu goes with [setup] and no players; a match goes with two
    players and [playing] or [ended]. *)
Definition shape (g : GameState) : Prop :=
  (g.(mode) = mode_menu /\ g.(phase) = setup /\ g.(players) = [])
  \/ (g.(mode) <> mode_menu /\ (g.(phase) = playing \/ g.(phase) = ended) /\ length g.(players) = 2).

Definition alive (g : GameState) : Prop :=
  g.(phase) = playing -> Forall (fun p => 0 < p.(hp))%Z g.(players).

(** No match has been concluded: no result counted, nothing unlocked. *)
Definition unconcluded (s : Session) : Prop :=
  s.(gs).(gameStats).(gamesWon) = 0%Z /\ s.(gs).(gameStats).(gamesLost) = 0%Z
  /\ s.(gs).(gameStats).(perfectGames) = 0%Z
  /\ s.(gs).(achievements) = ACHIEVEMENTS /\ s.(notified) = [].

Definition session_inv (s : Session) : Prop :=
  wf_state s.(gs) /\ shape s.(gs) /\ alive s.(gs) /\ unconcluded s.

(** ** Preservation *)

Lemma unlockedList_catalog : unlockedList ACHIEVEMENTS = [].
Proof. vm_compute. reflexivity. Qed.

Lemma initSession_inv k : session_inv (initSession k).
Proof.
  split_and!; [apply initialState_wf|left; auto|by intros ?|done..].
Qed.

Lemma cast_inv g input r g' :
  wf_state g -> shape g -> alive g -> g.(phase) = playing -> castSpell input g = Some (r, g') ->
  wf_state g' /\ shape g' /\ alive g'
  /\ g'.(gameStats).(gamesWon) = g.(gameStats).(gamesWon) /\ g'.(gameStats).(gamesLost) = g.(gameStats).(gamesLost)
  /\ g'.(gameStats).(perfectGames) = g.(gameStats).(perfectGames) /\ g'.(achievements) = g.(achievements).
Proof.
  intros Hwf Hsh Hal Hph Hc.
  destruct (castSpell_frame input g r g' Hwf Hc) as (Hm & Ha & Hw & Hl & Hp & Hrest).
  split_and!; try done.
  - by eapply castSpell_wf.
  - destruct Hsh as [(_ & Hs & _)|(Hmm & _ & Hlen)]; [congruence|].
    right. rewrite Hm. split; [done|]. destruct Hrest as [[-> ->]|(_ & ? & ?)]; auto.
  - intros Hph'. eapply castSpell_alive; eauto.
Qed.

(** While a match is [playing] on a state of the invariant, the auto-end
    effect finds no player at 0 hit points. *)
Lemma alive_not_dead g : alive g -> g.(phase) = playing -> ~ Exists (fun p => p.(hp) <= 0)%Z g.(players).
Proof.
  intros Hal Hph Hdead. specialize (Hal Hph). rewrite list.Forall_forall in Hal.
  apply Exists_exists in Hdead as (p & Hin%list_elem_of_In & Hle). specialize (Hal p Hin). lia.
Qed.

Lemma session_inv_step s s' : session_inv s -> step s s' -> session_inv s'.
Proof.
  intros (Hwf & Hsh & Hal & Hun) Hst. destruct Hun as (Hw & Hl & Hp & Ha & Hn).
  destruct Hst as [s m d Hmenu Hmc|s input r g' Hm Hne Hturn _ Hc|s roll ai opp r g' Hph _ _ _ _ Hc
                  |s Hph|s w Hph Hdead _|s Hm|s|s i].
  - unfold session_inv, with_gs, startGame; simpl. split_and!; try done.
    + by apply startGame_wf.
    + right. simpl. split_and!; [by invc Hmc|auto|by case_decide].
    + intros _. case_decide; repeat constructor; simpl; lia.
  - assert (Hph : phase (gs s) = playing) by (destruct Hsh as [(? & _)|(_ & [?|?] & _)]; congruence).
    destruct (cast_inv _ _ _ _ Hwf Hsh Hal Hph Hc) as (? & ? & ? & Hw' & Hl' & Hp' & Ha').
    unfold session_inv, unconcluded, with_gs; simpl. rewrite Hw', Hl', Hp', Ha'. auto 10.
  - destruct (cast_inv _ _ _ _ Hwf Hsh Hal Hph Hc) as (? & ? & ? & Hw' & Hl' & Hp' & Ha').
    unfold session_inv, unconcluded, with_gs; simpl. rewrite Hw', Hl', Hp', Ha'. auto 10.
  - unfold session_inv, unconcluded, with_gs, regenTick, set_players; simpl. split_and!; try done.
    + by apply regenTick_wf.
    + destruct Hsh as [(? & ? & ?)|(? & ? & ?)]; [left|right]; simpl; rewrite ?length_map; auto.
      split_and!; try done. by rewrite H1.
    + intros _. apply Forall_map. specialize (Hal Hph). exact Hal.
  - by destruct (alive_not_dead _ Hal Hph Hdead).
  - unfold session_inv, unconcluded, with_gs; simpl. split_and!; try done.
    + by apply resetGame_wf.
    + left. auto.
  - unfold notifyAchievements. rewrite Ha, unlockedList_catalog.
    destruct (parseInt _) as [k|]; [case_match|]; unfold session_inv, unconcluded; simpl;
      rewrite ?Hn, ?js_slice_nil; auto 10.
  - unfold session_inv, unconcluded; simpl. rewrite Hn. auto 10.
Qed.

(** An [ended] match names its last caster as the first player standing. *)
Definition ended_ok (g : GameState) : Prop :=
  g.(phase) = ended ->
  exists ls w, g.(lastSpell) = Some ls /\ List.find (fun p => 0 <? p.(hp))%Z g.(players) = Some w
               /\ w.(name) = ls.(caster) /\ (0 < w.(hp))%Z.

Lemma ended_ok_step s s' : session_inv s -> ended_ok s.(gs) -> step s s' -> ended_ok s'.(gs).
Proof.
  intros (Hwf & Hsh & Hal & _) Hok Hst.
  destruct Hst as [s m d Hmenu Hmc|s input r g' Hm Hne Hturn _ Hc|s roll ai opp r g' Hph _ _ _ _ Hc
                  |s Hph|s w Hph Hdead _|s Hm|s|s i]; unfold ended_ok, with_gs; cbn [gs].
  - done.
  - assert (Hph : phase (gs s) = playing) by (destruct Hsh as [(? & _)|(_ & [?|?] & _)]; congruence).
    intros Hend. exact (castSpell_ended_winner _ _ _ _ Hwf (Hal Hph) Hph Hc Hend).
  - intros Hend. exact (castSpell_ended_winner _ _ _ _ Hwf (Hal Hph) Hph Hc Hend).
  - unfold regenTick, set_players. cbn [phase]. congruence.
  - by destruct (alive_not_dead _ Hal Hph Hdead).
  - done.
  - rewrite notify_gs. exact Hok.
  - exact Hok.
Qed.

Lemma reachable_inv k s : reachable k s -> session_inv s /\ ended_ok s.(gs).
Proof.
  intros Hr. refine (star_invariant step (fun s => session_inv s /\ ended_ok s.(gs)) _ _ _ _ Hr).
  - intros a b [Hi He] Hs. split; [exact (session_inv_step a b Hi Hs)|exact (ended_ok_step a b Hi He Hs)].
  - split; [apply initSession_inv|by intros ?].
Qed.

Lemma cast_enabled_step s input r g' :
  cast_enabled s.(gs) input = true -> castSpell (trim input) s.(gs) = Some (r, g') ->
  step s (with_gs s g').
Proof.
  unfold cast_enabled. intros He Hc.
  apply andb_prop in He as [He H4]. apply andb_prop in He as [He H3]. apply andb_prop in He as [H1 H2].
  apply bool_decide_eq_true in H1, H2, H4.
  destruct (js_at _ _) as [p|] eqn:Hp; [|done].
  eapply st_cast; eauto. exists p. split; [done|]. by destruct (isAI p).
Qed.

Lemma play_star inputs s s' : play inputs s = Some s' -> star step s s'.
Proof.
  revert s. induction inputs as [|input rest IH]; intros s Hp; simpl in Hp.
  - invc Hp. constructor.
  - destruct (cast_enabled _ _) eqn:He; [|done].
    destruct (castSpell _ _) as [[r g']|] eqn:Hc; [|done].
    eapply star_step; [by eapply cast_enabled_step|]. by apply IH.
Qed.

(** ** Theorems *)

(** C1: on every state the page can reach, whatever the stored
    notification counter, no match has been concluded: no win, loss or
    flawless win is ever counted, no achievement is unlocked or
    notified, and while a match is [playing] every player is above 0
    hit points. [castSpell] itself sets [ended] on the killing cast, so
    the auto-end effect of [Index], which waits for a [playing] match
    with a player at 0, never calls [endGame]. *)
Theorem driver_never_concludes_match k s :
  reachable k s ->
  s.(gs).(gameStats).(gamesWon) = 0%Z /\ s.(gs).(gameStats).(gamesLost) = 0%Z
  /\ s.(gs).(gameStats).(perfectGames) = 0%Z
  /\ s.(gs).(achievements) = ACHIEVEMENTS /\ s.(notified) = []
  /\ (s.(gs).(phase) = playing -> Forall (fun p => 0 < p.(hp))%Z s.(gs).(players)).
Proof.
  intros Hr. pose proof (star_invariant step session_inv _ _ session_inv_step (initSession_inv k) Hr)
    as (_ & _ & Hal & Hw & Hl & Hp & Ha & Hn).
  auto 10.
Qed.

Local Open Scope string_scope.

(** The duel of the witnesses: player 1 and player 2 trade spells until
    player 2 is at 0 hit points. *)
Definition knockout_inputs : list string :=
  ["Avada Kedavra"; "Stupefy"; "Sectumsempra"; "Diffindo"; " stupefy "].

Definition knockout_start : Session := with_gs (initSession None) (startGame mode_pvp normal initialState).

Definition knockout_end : Session := default knockout_start (play knockout_inputs knockout_start).

Local Close Scope string_scope.

Lemma knockout_start_reachable : reachable None knockout_start.
Proof. apply star_one. apply st_start; [done|constructor]. Qed.

Lemma knockout_end_reachable : reachable None knockout_end.
Proof.
  assert (Hp : play knockout_inputs knockout_start = Some knockout_end) by (vm_compute; reflexivity).
  eapply star_trans; [apply knockout_start_reachable|exact (play_star _ _ _ Hp)].
Qed.

(** Witness of C1: the invariant on the knocked-out state of the duel above. *)
Lemma driver_never_concludes_match_witness :
  reachable None knockout_end
  /\ knockout_end.(gs).(gameStats).(gamesWon) = 0%Z /\ knockout_end.(gs).(gameStats).(gamesLost) = 0%Z
  /\ knockout_end.(gs).(gameStats).(perfectGames) = 0%Z
  /\ knockout_end.(gs).(achievements) = ACHIEVEMENTS /\ knockout_end.(notified) = [].
Proof.
  split; [apply knockout_end_reachable|].
  destruct (driver_never_concludes_match None knockout_end knockout_end_reachable) as (? & ? & ? & ? & ? & _).
  split_and!; assumption.
Defined.

(** ** A state with unlocked achievements

    Two matches concluded through the engine's [endGame] (which the page
    itself never calls): the first win unlocks First Victory and Pure
    Combatant, which are notified; the second match's cast then unlocks
    First Incantation. *)
Definition notified_first : Session := notifyAchievements (mkSession (endGame "player1" won_state) None []).

Definition second_match : GameState :=
  default initialState (run_ops [op_start mode_pvp normal; op_cast "Stupefy"; op_end "player1"]
                                notified_first.(gs)).

(** ** The stored counter *)

Lemma storedOrZero_numeral z : storedOrZero (Some (number_toString z)) = number_toString z.
Proof. unfold storedOrZero. rewrite bool_decide_false; [done|apply number_toString_nonempty]. Qed.

(** The effect after it stored the current count: nothing more to report. *)
Lemma notify_after_store g q :
  let c := Some (number_toString (Z.of_nat (length (unlockedList g.(achievements))))) in
  notifyAchievements (mkSession g c q) = mkSession g c q.
Proof.
  cbn zeta. unfold notifyAchievements. cbn [achievementCount gs].
  rewrite storedOrZero_numeral, parseInt_count_toString, Z.ltb_irrefl. done.
Qed.

(** C26: the notification effect is idempotent: the count it stores is
    read back by [parseInt] as the same number, so a second run reports
    nothing and stores nothing new. *)
Theorem notify_idempotent s : notifyAchievements (notifyAchievements s) = notifyAchievements s.
Proof.
  destruct s as [g c q]. unfold notifyAchievements at 2 3. cbn [achievementCount gs notified].
  destruct (parseInt (storedOrZero c)) as [k|] eqn:Hp; [case_match|].
  - apply notify_after_store.
  - unfold notifyAchievements. cbn [achievementCount gs]. by rewrite Hp, H.
  - unfold notifyAchievements. cbn [achievementCount gs]. by rewrite Hp.
Qed.

(** C27: a stored counter that [parseInt] cannot read (say ["abc"])
    silences the notifications for good: whatever unlocks later, every
    run of the page keeps the stored item, and the queue of cards only
    loses the ones that close: no card is ever added to it. *)
Theorem unparsable_counter_silences_notifications g v q s :
  parseInt (storedOrZero (Some v)) = None ->
  star step (mkSession g (Some v) q) s ->
  s.(achievementCount) = Some v /\ s.(notified) `sublist_of` q.
Proof.
  intros Hp Hs. refine (star_invariant step (fun s => s.(achievementCount) = Some v /\ s.(notified) `sublist_of` q)
                         _ _ _ _ Hs); [|split; reflexivity].
  intros a b [Hc Hn] Hst. destruct Hst; try (unfold with_gs; simpl; tauto).
  - unfold notifyAchievements. rewrite Hc, Hp. auto.
  - simpl. split; [done|]. etrans; [apply sublist_delete|exact Hn].
Qed.

(** Witness of C27: three achievements unlocked, none reported. *)
Lemma unparsable_counter_silences_notifications_witness :
  length (unlockedList second_match.(achievements)) = 3%nat
  /\ (notifyAchievements (mkSession second_match (Some "abc"%string) [])).(notified) `sublist_of` [].
Proof.
  split; [vm_compute; reflexivity|].
  apply (unparsable_counter_silences_notifications second_match "abc"%string []
           (notifyAchievements (mkSession second_match (Some "abc"%string) [])));
    [vm_compute; reflexivity|apply star_one, st_notify].
Defined.
