(* ===== verification/View.v ===== *)
(** * What the page shows: [GameMenu.tsx], [GameArena.tsx], [SpellGuide.tsx],
      [AchievementNotification.tsx] and the rendering part of [Index.tsx]

    Each component is a function from the state it receives to the text it
    renders. The text is kept and the markup is dropped; emoji are left out
    of the modelled strings. JSX renders [undefined] as nothing, while a
    template literal prints it as ["undefined"]. [0 && x] renders the
    number [0]. Numbers go through [number_toString] of [JsNumber.v]. The
    percentages of the progress bars are not modelled. [GameArena]'s own
    state, the input box with its animation lock, is [ArenaInput]. The
    [...Text] functions list every string a component renders, in order;
    a double quote is [dq], since a literal here holds none. *)

From Stdlib Require Import ZArith Lia Ascii String.
From stdpp Require Import base list strings decidable.
From S2P Require Import Prelude Spells JsNumber Achievements GameState Session.

Local Open Scope string_scope.

(** ** [GameMenu] *)

(** [achievements.filter(a => a.unlocked && a.title).map(a => a.title)] *)
Definition unlockedTitles (achs : list Achievement) : list string :=
  omap (fun a => if a.(unlocked) then
                   match a.(title) with Some t => if bool_decide (t = "") then None else Some t | None => None end
                 else None) achs.

(** [{n} / {m} Achievements Unlocked] *)
Definition achievementsSummary (achs : list Achievement) : string :=
  number_toString (Z.of_nat (length (filter (fun a => a.(unlocked) = true) achs))) ++ " / "
  ++ number_toString (Z.of_nat (length achs)) ++ " Achievements Unlocked".

Record MenuView := mkMenuView {
  menu_titles : option (list string);   (** the "Your Titles" card, when there are titles *)
  menu_summary : string
}.

Definition menuView (achs : list Achievement) : MenuView :=
  mkMenuView (match unlockedTitles achs with [] => None | ts => Some ts end) (achievementsSummary achs).

(** The two mode cards: each button with its label and the arguments its
    [onClick] passes to [onStartGame]. *)
Record MenuButton := mkMenuButton {
  button_label : string;
  button_mode : GameMode;
  button_difficulty : Difficulty
}.

Definition menuButtons : list MenuButton := [
  mkMenuButton "Apprentice (Easy)" mode_ai easy;
  mkMenuButton "Adept (Normal)" mode_ai normal;
  mkMenuButton "Master (Hard)" mode_ai hard;
  mkMenuButton "Local Duel" mode_pvp normal ].

(** A double quote, which a string literal of this file does not hold. *)
Definition dq : string := String "034"%char EmptyString.

(** All the text of [GameMenu], in order. *)
Definition menuText (achs : list Achievement) : list string :=
  let v := menuView achs in
  ["Wizarding Duels"; "Enter the arena and prove your magical prowess"]
  ++ match v.(menu_titles) with Some ts => "Your Titles" :: ts | None => [] end
  ++ ["Duel the Dark Arts"; "Face an AI opponent with escalating difficulty"]
  ++ map button_label (filter (fun b => b.(button_mode) = mode_ai) menuButtons)
  ++ ["Wizard's Duel"; "Challenge a friend in local multiplayer"]
  ++ map button_label (filter (fun b => b.(button_mode) = mode_pvp) menuButtons)
  ++ ["Two wizards, one device"; "Magical Accomplishments"; v.(menu_summary); "How to Cast Spells";
      "Type spell names in the magical grimoire (e.g., " ++ dq ++ "Expelliarmus" ++ dq ++ ", "
        ++ dq ++ "Stupefy" ++ dq ++ ")";
      "Each spell has stamina cost and cooldown - choose wisely!";
      "Watch your opponent's health and your own stamina";
      "Unlock achievements and earn prestigious wizarding titles"].

(** ** [GameArena] *)

(** [currentPlayer && !currentPlayer.isAI] *)
Definition isPlayerTurn (g : GameState) : bool :=
  match js_at g.(players) g.(currentPlayer) with Some p => negb p.(isAI) | None => false end.

(** [isPlayerTurn ? "Your turn to cast a spell" : `${currentPlayer?.name}'s turn`] *)
Definition turnBanner (g : GameState) : string :=
  if isPlayerTurn g then "Your turn to cast a spell"
  else match js_at g.(players) g.(currentPlayer) with Some p => p.(name) | None => "undefined" end ++ "'s turn".

(** [{x?.a}/{x?.b}] *)
Definition ratio_text (p : option Player) (a b : Player -> Z) : string :=
  match p with Some p => number_toString (a p) ++ "/" ++ number_toString (b p) | None => "/" end.

(** [getStatusEffectDisplay] and [getCooldownDisplay]: [null] for no
    player or an empty map, else one badge per entry. *)
Definition mapDisplay (p : option Player) (field : Player -> jsmap Z) (badge : string -> string -> string)
    : option (list string) :=
  match p with
  | Some p => match field p with [] => None | m => Some (map (fun e => badge e.1 (number_toString e.2)) m) end
  | None => None
  end.

Record PanelView := mkPanelView {
  panel_name : string;
  panel_health : string;
  panel_stamina : string;
  panel_effects : option (list string);
  panel_cooldowns : option (list string)
}.

Definition panelView (p : option Player) : PanelView :=
  mkPanelView (match p with Some p => p.(name) | None => "" end)
    (ratio_text p hp maxHp) (ratio_text p stamina maxStamina)
    (mapDisplay p statusEffects (fun k v => k ++ " (" ++ v ++ ")"))
    (mapDisplay p cooldowns (fun k v => k ++ ": " ++ v ++ "s")).

Inductive ArenaView :=
| ended_screen (headline winner_line final_hp : string)
| duel_screen (banner : string) (left right : PanelView) (last_cast : option (string * string))
              (input_box : bool) (casting : option string).

(** The arena: the end screen when [phase === 'ended'], with
    [winner = players.find(p => p.hp > 0)], else the duel. *)
Definition arenaView (g : GameState) : ArenaView :=
  if decide (g.(phase) = ended) then
    let winner := List.find (fun p => 0 <? p.(hp))%Z g.(players) in
    ended_screen
      (match winner with Some w => if w.(isAI) then "Dark Arts Triumph!" else "Victory Achieved!"
                    | None => "Victory Achieved!" end)
      (match winner with Some w => w.(name) | None => "" end ++ " emerges victorious!")
      ("Final HP: " ++ ratio_text winner hp maxHp)
  else
    duel_screen (turnBanner g) (panelView (js_at g.(players) 0%Z)) (panelView (js_at g.(players) 1%Z))
      (option_map (fun ls => (ls.(caster) ++ " cast " ++ ls.(spell).(Spells.name) ++ "!", ls.(spell).(Spells.description)))
                  g.(lastSpell))
      (isPlayerTurn g)
      (if negb (isPlayerTurn g) && bool_decide (g.(phase) = playing) then
         Some (match js_at g.(players) g.(currentPlayer) with Some p => p.(name) | None => "" end ++ " is casting...")
       else None).

(** ** [GameArena]'s input box *)

Record ArenaInput := mkArenaInput { spellInput : string; isAnimating : bool }.

(** [useState('')], [useState(false)] *)
Definition initArenaInput : ArenaInput := mkArenaInput "" false.

Record Toast := mkToast { toast_title : string; toast_description : string; toast_variant : string }.

Definition animation_delay : Z := 800.

(** [<Input ... onChange={(e) => setSpellInput(e.target.value)} disabled={isAnimating} />] *)
Definition typeSpell (inp : ArenaInput) (v : string) : ArenaInput :=
  if inp.(isAnimating) then inp else mkArenaInput v false.

(** [disabled={!spellInput.trim() || isAnimating}] *)
Definition castButtonDisabled (inp : ArenaInput) : bool :=
  bool_decide (trim inp.(spellInput) = "") || inp.(isAnimating).

(** [handleSpellCast]: nothing on a blank input; else lock the input,
    cast the trimmed input, toast the result and clear the input. The
    result is [None] when [castSpell] throws. *)
Definition handleSpellCast (inp : ArenaInput) (g : GameState)
    : option (ArenaInput * option (Toast * GameState)) :=
  if bool_decide (trim inp.(spellInput) = "") then Some (inp, None)
  else
    match castSpell (trim inp.(spellInput)) g with
    | Some (res, g') =>
        Some (mkArenaInput "" true,
              Some (mkToast (if res.(result_success) then "Spell Cast!" else "Spell Failed!") res.(message)
                            (if res.(result_success) then "default" else "destructive"), g'))
    | None => None
    end.

(** [setTimeout(() => setIsAnimating(false), 800)] *)
Definition releaseAnimation (inp : ArenaInput) : ArenaInput := mkArenaInput inp.(spellInput) false.

Definition panelText (v : PanelView) : list string :=
  [v.(panel_name); "Health"; v.(panel_health); "Stamina"; v.(panel_stamina)]
  ++ default [] v.(panel_effects) ++ default [] v.(panel_cooldowns).

(** All the text of [GameArena], in order, but the grimoire ([guideText]). *)
Definition arenaText (g : GameState) : list string :=
  match arenaView g with
  | ended_screen headline winner_line final_hp => [headline; winner_line; final_hp; "Return to Menu"]
  | duel_screen banner pl pr lc ib cst =>
      ["Duel in Progress"; banner] ++ panelText pl ++ panelText pr
      ++ match lc with Some (a, b) => [a; b] | None => [] end
      ++ (if ib then ["Cast Your Spell"; "Cast"; "Don't worry about exact spelling - magic is forgiving!"]
          else [])
      ++ match cst with Some c => [c; "The dark arts are being channeled..."] | None => [] end
      ++ ["Retreat from Duel"]
  end.

(** ** [AchievementNotification] *)

Record NotificationView := mkNotificationView {
  note_name : string;
  note_description : string;
  note_title : option string   (** the "New Title" badge *)
}.

Definition notificationView (a : Achievement) : NotificationView :=
  mkNotificationView a.(Achievements.name) a.(Achievements.description)
    (match a.(title) with Some t => if bool_decide (t = "") then None else Some ("New Title: " ++ t) | None => None end).

(** All the text of a card, in order. *)
Definition notificationText (v : NotificationView) : list string :=
  ["Achievement Unlocked!"; v.(note_name); v.(note_description)] ++ default [] ((fun t => [t]) <$> v.(note_title)).

(** ** [Index]: the notifications over the menu or the arena *)

Inductive Screen := menu_screen (v : MenuView) | arena_screen (v : ArenaView).

Definition pageView (s : Session) : list NotificationView * Screen :=
  (map notificationView s.(notified),
   if decide (s.(gs).(mode) = mode_menu) then menu_screen (menuView s.(gs).(achievements))
   else arena_screen (arenaView s.(gs))).

(** ** [SpellGuide] *)

Definition typeName (t : SpellType) : string :=
  match t with
  | Attack => "attack" | Defense => "defense" | Healing => "healing"
  | Buff => "buff" | Debuff => "debuff" | Special => "special"
  end.

(** [SPELLS.reduce((acc, spell) => { if (!acc[spell.type]) acc[spell.type] = [];
    acc[spell.type].push(spell); return acc; }, {})]: the object's string
    keys keep their insertion order. *)
Definition spellsByType (l : list Spell) : jsmap (list Spell) :=
  fold_left (fun acc spell =>
               let k := typeName spell.(type) in
               jsmap_set k (default [] (jsmap_get k acc) ++ [spell])%list acc) l [].

Definition ascii_toUpperCase (c : ascii) : ascii :=
  let n := nat_of_ascii c in
  if ((97 <=? n) && (n <=? 122))%nat then ascii_of_nat (n - 32) else c.

(** [type.charAt(0).toUpperCase() + type.slice(1)] *)
Definition capitalize (s : string) : string :=
  match s with String c r => String (ascii_toUpperCase c) r | EmptyString => EmptyString end.

(** [{spell.damage && <span>{spell.damage} dmg</span>}]: an absent field
    shows nothing, a [0] shows the number [0]. *)
Definition optionalDetail (v : option Z) (unit : string) : list string :=
  match v with
  | Some d => if (d =? 0)%Z then ["0"] else [number_toString d ++ unit]
  | None => []
  end.

Record SpellEntryView := mkSpellEntryView {
  entry_name : string;
  entry_cost : string;
  entry_description : string;
  entry_details : list string
}.

Definition spellEntryView (sp : Spell) : SpellEntryView :=
  mkSpellEntryView sp.(Spells.name) (number_toString sp.(staminaCost)) sp.(Spells.description)
    (optionalDetail sp.(damage) " dmg" ++ optionalDetail sp.(healing) " heal"
     ++ optionalDetail sp.(blockAmount) " block" ++ [(number_toString sp.(cooldown) ++ "s")%string])%list.

(** [Object.entries(spellsByType).map(([type, spells]) => ...)] *)
Definition guideView : list (string * list SpellEntryView) :=
  map (fun e => (capitalize e.1 ++ " Spells", map spellEntryView e.2)) (spellsByType SPELLS).

(** [<Collapsible open={isOpen} onOpenChange={setIsOpen}>]: the grimoire
    shows its content only when open, and its trigger flips [isOpen]
    ([useState(false)]: closed at first). *)
Definition spellGuide (isOpen : bool) : option (list (string * list SpellEntryView)) :=
  if isOpen then Some guideView else None.

Definition toggleGuide (isOpen : bool) : bool := negb isOpen.

Definition entryText (e : SpellEntryView) : list string :=
  [e.(entry_name); e.(entry_cost); e.(entry_description)] ++ e.(entry_details).

(** All the text of [SpellGuide], in order. *)
Definition guideText (isOpen : bool) : list string :=
  "Spell Guide" :: match spellGuide isOpen with
                   | Some groups => "Magical Grimoire" :: "Reference for all available spells"
                                     :: concat (map (fun g => g.1 :: concat (map entryText g.2)) groups)
                   | None => []
                   end.

Local Close Scope string_scope.

(** ** Lemmas *)

Lemma typeName_inj t t' : typeName t = typeName t' -> t = t'.
Proof. destruct t, t'; simpl; congruence. Qed.

Lemma spellsByType_snoc l sp :
  spellsByType (l ++ [sp]) =
  jsmap_set (typeName sp.(type)) (default [] (jsmap_get (typeName sp.(type)) (spellsByType l)) ++ [sp])%list
    (spellsByType l).
Proof. unfold spellsByType. by rewrite fold_left_app. Qed.

(** Appending to a group appends to the concatenation of the groups. *)
Lemma concat_push {A} k (x : A) (m : jsmap (list A)) :
  concat (jsmap_set k (default [] (jsmap_get k m) ++ [x])%list m).*2 ≡ₚ concat m.*2 ++ [x].
Proof.
  induction m as [|[k' v'] m IH]; simpl; [done|].
  case_decide; simpl.
  - rewrite <- !app_assoc. apply Permutation_app_head, Permutation_app_comm.
  - rewrite IH. by rewrite app_assoc.
Qed.

(** ** Theorems *)

(** C28: the reduce of [SpellGuide] groups spells by type: its keys are
    distinct, the group of a type is the sublist of the spells of that
    type in their order (absent when there is none), and the groups
    together hold every spell exactly once. *)
Theorem spellsByType_groups l :
  jsmap_wf (spellsByType l) /\ concat (spellsByType l).*2 ≡ₚ l
  /\ forall t, jsmap_get (typeName t) (spellsByType l)
               = match filter (fun sp => sp.(type) = t) l with [] => None | g => Some g end.
Proof.
  induction l as [|sp l IH] using rev_ind; [split_and!; [constructor|done|done]|].
  destruct IH as (Hwf & Hperm & Hget). rewrite spellsByType_snoc.
  split_and!.
  - by apply jsmap_set_wf.
  - rewrite concat_push, Hperm. done.
  - intros t. rewrite list.filter_app, list.filter_cons, list.filter_nil.
    destruct (decide (type sp = t)) as [<-|Hne].
    + rewrite jsmap_get_set_eq, Hget. by destruct (filter _ l).
    + rewrite jsmap_get_set_ne by (intros ?%typeName_inj; congruence). rewrite Hget, app_nil_r.
      done.
Qed.

Lemma menuView_catalog : menuView ACHIEVEMENTS = mkMenuView None "0 / 10 Achievements Unlocked"%string.
Proof. vm_compute. reflexivity. Qed.

(** C29: on every state the page can reach, the menu shows no title
    card and "0 / 10 Achievements Unlocked", and no notification is on
    screen. *)
Theorem menu_never_shows_progress k s :
  reachable k s -> s.(gs).(mode) = mode_menu ->
  pageView s = ([], menu_screen (mkMenuView None "0 / 10 Achievements Unlocked"%string)).
Proof.
  intros Hr Hm. destruct (reachable_inv k s Hr) as ((_ & _ & _ & _ & _ & _ & Ha & Hn) & _).
  unfold pageView. rewrite Hn, decide_True, Ha by done. by rewrite menuView_catalog.
Qed.

(** C30: on every [ended] state the page can reach, the end screen names
    the last caster, who is standing, as the winner, although no win has
    been counted. *)
Theorem ended_screen_names_last_caster k s :
  reachable k s -> s.(gs).(phase) = ended ->
  exists ls w, s.(gs).(lastSpell) = Some ls /\ w.(name) = ls.(caster) /\ (0 < w.(hp))%Z
    /\ (pageView s).2 = arena_screen (ended_screen
                          (if w.(isAI) then "Dark Arts Triumph!" else "Victory Achieved!")
                          (w.(name) ++ " emerges victorious!") ("Final HP: " ++ ratio_text (Some w) hp maxHp))%string
    /\ s.(gs).(gameStats).(gamesWon) = 0%Z.
Proof.
  intros Hr Hend. destruct (reachable_inv k s Hr) as ((_ & Hsh & _ & Hw & _) & Hok).
  destruct (Hok Hend) as (ls & w & Hls & Hf & Hn & Hhp).
  exists ls, w. split_and!; [done|done|done| |done].
  assert (Hm : s.(gs).(mode) <> mode_menu) by (destruct Hsh as [(_ & Hs & _)|(Hm & _)]; congruence).
  unfold pageView, arenaView. cbn [snd]. rewrite decide_False, decide_True, Hf by done. done.
Qed.

(** C35: the arena's Cast button refines the page's step relation: on
    the duel screen with the input box shown (a human's turn on a match
    not ended), a click on the enabled button runs exactly the cast
    [step] allows on the trimmed input, clears the input and locks it
    until the 800 ms timer releases it. *)
Theorem cast_button_refines_step s inp inp' t g' :
  s.(gs).(mode) <> mode_menu -> s.(gs).(phase) <> ended -> isPlayerTurn s.(gs) = true ->
  castButtonDisabled inp = false ->
  handleSpellCast inp s.(gs) = Some (inp', Some (t, g')) ->
  step s (with_gs s g') /\ inp' = mkArenaInput "" true /\ castButtonDisabled inp' = true
  /\ castButtonDisabled (typeSpell inp' "Stupefy") = true.
Proof.
  intros Hm Hph Hturn Hen Hh. unfold castButtonDisabled in Hen. apply orb_false_iff in Hen as [Hblank _].
  unfold handleSpellCast in Hh. rewrite Hblank in Hh.
  destruct (castSpell _ _) as [[r g]|] eqn:Hc; [|done]. injection Hh as <- _ <-.
  split_and!; [|done|done|done]. eapply cast_enabled_step; [|exact Hc].
  apply bool_decide_eq_false in Hblank.
  unfold cast_enabled, isPlayerTurn in *. rewrite Hturn, !bool_decide_eq_true_2 by done. done.
Qed.

(** ** Witnesses *)

(** Back on the menu after the knockout duel of [Session.v]. *)
Lemma menu_never_shows_progress_witness :
  pageView (with_gs knockout_end (resetGame knockout_end.(gs)))
  = ([], menu_screen (mkMenuView None "0 / 10 Achievements Unlocked"%string)).
Proof.
  apply (menu_never_shows_progress None); [|reflexivity].
  eapply star_snoc; [apply knockout_end_reachable|apply st_leave; vm_compute; discriminate].
Defined.

Lemma ended_screen_names_last_caster_witness :
  exists ls w, knockout_end.(gs).(lastSpell) = Some ls /\ w.(name) = ls.(caster) /\ (0 < w.(hp))%Z
    /\ (pageView knockout_end).2 = arena_screen (ended_screen
                          (if w.(isAI) then "Dark Arts Triumph!" else "Victory Achieved!")
                          (w.(name) ++ " emerges victorious!") ("Final HP: " ++ ratio_text (Some w) hp maxHp))%string
    /\ knockout_end.(gs).(gameStats).(gamesWon) = 0%Z.
Proof. apply (ended_screen_names_last_caster None); [apply knockout_end_reachable|vm_compute; reflexivity]. Defined.

Lemma cast_button_refines_step_witness :
  exists inp' t g', handleSpellCast (mkArenaInput " stupefy " false) knockout_start.(gs) = Some (inp', Some (t, g'))
    /\ step knockout_start (with_gs knockout_start g') /\ inp' = mkArenaInput "" true.
Proof.
  do 3 eexists. split; [vm_compute; reflexivity|].
  edestruct (cast_button_refines_step knockout_start (mkArenaInput " stupefy " false)) as (Hs & Hi & _);
    [vm_compute; discriminate|vm_compute; discriminate|vm_compute; reflexivity|vm_compute; reflexivity
    |vm_compute; reflexivity|].
  split; [exact Hs|exact Hi].
Defined.
