(* ===== verification/Notifications.v ===== *)
(** * The timers of the achievement notifications
      ([src/src/components/AchievementNotification.tsx], lines 11-22;
      [src/src/pages/Index.tsx], lines 79-92)

    [Index] renders one [AchievementNotification] per queued achievement,
    with [onClose={() => removeAchievementNotification(index)}]. That
    arrow is new at every render of [Index], and the component's effect
    depends on it. So every render of [Index] runs the effect's cleanup
    (which clears the 4000 ms timer) and the effect again (which arms a
    new one). When the 4000 ms timer fires, it hides the card and arms
    [setTimeout(onClose, 300)]. That second timer is never cleared, and it
    removes the entry at the index of the render that armed it. Removing
    an entry re-renders [Index].

    [NState] is the queue with the pending timers in creation order.
    [run] is the browser's event loop on a quiet page, with no other
    render of [Index] (the menu, or the end screen): it fires the timer
    due first, and the one created first among equals. [render] and
    [rerendered] add the other renders of [Index], such as those of the
    stamina interval during a match. A card is visible exactly while its
    4000 ms timer is pending ([card_visible]). *)

From Equations Require Import Equations.
From Stdlib Require Import ZArith Lia.
From stdpp Require Import base list strings decidable.
From S2P Require Import Prelude Achievements.

Inductive TimerAction :=
| hide_after (key : string)    (** the 4000 ms timer of the card with that key *)
| close_after (index : nat).   (** [setTimeout(onClose, 300)] with the [index] it captured *)

Record Timer := mkTimer { due : Z; action : TimerAction }.

Record NState := mkNState {
  queue : list Achievement;   (** [newAchievements] *)
  timers : list Timer;
  clock : Z
}.

Definition show_delay : Z := 4000.
Definition close_delay : Z := 300.

(** [prev.filter((_, i) => i !== index)]: the array without position
    [index], unchanged when there is none. *)
Definition remove_index {A} (i : nat) (l : list A) : list A := take i l ++ drop (S i) l.

Definition is_hide (tm : Timer) : bool := match tm.(action) with hide_after _ => true | _ => false end.

(** The 4000 ms timer a card's effect arms at time [t]. *)
Definition hider (t : Z) (a : Achievement) : Timer := mkTimer (t + show_delay) (hide_after a.(id)).

(** A render of [Index] at time [t]: each card's cleanup clears its
    4000 ms timer, then its effect arms a new one, in the order of the
    cards. *)
Definition rearm (t : Z) (q : list Achievement) (tms : list Timer) : list Timer :=
  filter (fun tm => is_hide tm = false) tms ++ map (hider t) q.

(** The timer due first, the earliest created among equals. *)
Definition next_timer (tms : list Timer) : option (nat * Timer) :=
  list_find (fun tm => Forall (fun tm' => (tm.(due) <= tm'.(due))%Z) tms) tms.

(** Firing the timer at position [i]. *)
Definition fire (i : nat) (tm : Timer) (s : NState) : NState :=
  let tms := delete i s.(timers) in
  match tm.(action) with
  | hide_after k =>
      (** [setVisible(false); setTimeout(onClose, 300)], [onClose] of the
          card's last render, which sits at the card's position *)
      let idx := default 0 (fst <$> list_find (fun a => a.(id) = k) s.(queue)) in
      mkNState s.(queue) (tms ++ [mkTimer (tm.(due) + close_delay) (close_after idx)]) tm.(due)
  | close_after idx =>
      let q' := remove_index idx s.(queue) in
      mkNState q' (rearm tm.(due) q' tms) tm.(due)
  end.

Fixpoint run (fuel : nat) (s : NState) : NState :=
  match fuel with
  | 0 => s
  | S f => match next_timer s.(timers) with Some (i, tm) => run f (fire i tm s) | None => s end
  end.

(** New notifications at time [t]: [setNewAchievements(prev => [...prev,
    ...newOnes])] re-renders [Index], which mounts the new cards. *)
Definition arrive (t : Z) (newOnes : list Achievement) (s : NState) : NState :=
  let q := s.(queue) ++ newOnes in mkNState q (rearm t q s.(timers)) t.

(** A quiet page at time [r] just after a render, with no close pending. *)
Definition round_state (q : list Achievement) (r : Z) : NState :=
  mkNState q (map (hider r) q) r.

(** A card's [visible] flag: its effect sets it with the 4000 ms timer
    it arms, and the timer's callback clears it. So a card is visible
    exactly while its 4000 ms timer is pending. *)
Definition card_visible (s : NState) (k : string) : bool :=
  existsb (fun tm => match tm.(action) with hide_after k' => bool_decide (k' = k) | close_after _ => false end)
    s.(timers).

(** The 300 ms timer the card at position [k] arms when its 4000 ms timer,
    armed at [r], fires. *)
Definition closer (r : Z) (k : nat) : Timer := mkTimer (r + show_delay + close_delay) (close_after k).

(** Any other render of [Index] at time [t], such as the one each
    [setGameState] of the stamina interval causes while a match is played:
    every card's effect re-runs, as on an arrival. *)
Definition render (t : Z) (s : NState) : NState :=
  mkNState s.(queue) (rearm t s.(queue) s.(timers)) t.

(** The event loop up to a render at [deadline]: it fires the timers due
    strictly before it. *)
Fixpoint run_until (deadline : Z) (fuel : nat) (s : NState) : NState :=
  match fuel with
  | 0 => s
  | S f =>
      match next_timer s.(timers) with
      | Some (i, tm) => if (tm.(due) <? deadline)%Z then run_until deadline f (fire i tm s) else s
      | None => s
      end
  end.

(** [n] renders of [Index] every [p] ms from time [t] on. *)
Fixpoint rerendered (t p : Z) (n fuel : nat) (s : NState) : NState :=
  match n with
  | 0 => s
  | S n' => rerendered (t + p) p n' fuel (render t (run_until t fuel s))
  end.

(** Five cards, as an arrival after a match that unlocks the first five achievements. *)
Definition five_cards : list Achievement := take 5 ACHIEVEMENTS.

(** The entries at odd positions: what a round leaves. *)
Equations odds {A} (l : list A) : list A :=
  odds (a :: b :: l') := b :: odds l';
  odds _ := [].

(** The number of 4300 ms rounds until the queue is empty, and the timer
    firings they take (each card fires its 4000 ms and its 300 ms timer). *)
Lemma length_odds {A} (l : list A) : length (odds l) = Nat.div2 (length l).
Proof.
  funelim (odds l); simp odds; [done|done|]. cbn [length]. rewrite H. done.
Qed.

Lemma length_odds_lt {A} (a : A) l : length (odds (a :: l)) < length (a :: l).
Proof. rewrite length_odds. apply Nat.lt_div2. simpl. lia. Qed.

Equations rounds (q : list Achievement) : nat by wf (length q) lt :=
  rounds [] := 0;
  rounds (a :: q) := S (rounds (odds (a :: q))).
Next Obligation. intros a q _. apply length_odds_lt. Qed.

Equations drain_fuel (q : list Achievement) : nat by wf (length q) lt :=
  drain_fuel [] := 0;
  drain_fuel (a :: q) := 2 * length (a :: q) + drain_fuel (odds (a :: q)).
Next Obligation. intros a q _. apply length_odds_lt. Qed.

(** ** Lemmas on the queue *)

Lemma remove_index_ge {A} i (l : list A) : length l <= i -> remove_index i l = l.
Proof. intros Hl. unfold remove_index. rewrite take_ge, drop_ge by lia. apply app_nil_r. Qed.

Lemma odds_app_even {A} (l1 l2 : list A) : Nat.Even (length l1) -> odds (l1 ++ l2) = odds l1 ++ odds l2.
Proof.
  intros [n Hn]. revert l1 Hn. induction n as [|n IH]; intros l1 Hn.
  - destruct l1; [done|simpl in Hn; lia].
  - destruct l1 as [|a [|b l1]]; simpl in Hn; try lia. cbn [app]. simp odds. cbn [app].
    rewrite IH by lia. done.
Qed.

Lemma odds_sublist {A} (l : list A) : odds l `sublist_of` l.
Proof.
  funelim (odds l); simp odds; try apply sublist_nil_l.
  apply sublist_cons, sublist_skip. done.
Qed.

Lemma length_odds_take (q : list Achievement) j :
  2 * j <= length q -> length (odds (take (2 * j) q)) = j.
Proof.
  intros Hj. rewrite length_odds, length_take, Nat.div2_div.
  replace (Nat.min (2 * j) (length q)) with (j * 2) by lia. apply Nat.div_mul. lia.
Qed.

Lemma remove_index_app_length {A} (o l : list A) x : remove_index (length o) (o ++ x :: l) = o ++ l.
Proof.
  unfold remove_index. rewrite take_app_length, drop_app_ge by lia.
  by replace (S (length o) - length o) with 1 by lia.
Qed.

(** The 300 ms timers of one round fire with the indices [0, 1, ...] in
    turn; removing them from a shrinking queue leaves the odd positions. *)
Lemma remove_indices_prefix (q : list Achievement) j :
  fold_left (fun q i => remove_index i q) (seq 0 j) q = odds (take (2 * j) q) ++ drop (2 * j) q.
Proof.
  induction j as [|j IH]; [done|].
  rewrite seq_S, fold_left_app, IH. cbn [fold_left]. rewrite Nat.add_0_l.
  replace (2 * S j) with (2 * j + 2) by lia. rewrite <- take_take_drop, <- drop_drop.
  pose proof (length_drop q (2 * j)) as Hl.
  destruct (drop (2 * j) q) as [|a r] eqn:Hd; cbn [take drop]; rewrite ?app_nil_r.
  - apply remove_index_ge. rewrite length_odds, length_take, Nat.div2_div.
    apply Nat.Div0.div_le_upper_bound; lia.
  - simpl in Hl. rewrite odds_app_even by (rewrite length_take; exists j; lia).
    rewrite <- (length_odds_take q j) at 1 by lia. rewrite remove_index_app_length.
    destruct r as [|b r]; cbn [take drop]; simp odds; rewrite ?app_nil_r; [done|].
    by rewrite <- app_assoc.
Qed.

Lemma odds_ids (q : list Achievement) :
  NoDup (Achievements.id <$> q) -> NoDup (Achievements.id <$> odds q).
Proof. intros Hnd. eapply sublist_NoDup; [exact Hnd|]. apply fmap_sublist, odds_sublist. Qed.

Lemma card_visible_closers r l Q c k : card_visible (mkNState Q (map (closer r) l) c) k = false.
Proof. unfold card_visible. cbn [timers]. induction l as [|i l IH]; [done|]. exact IH. Qed.

Lemma card_visible_round q r a : a ∈ q -> card_visible (round_state q r) a.(Achievements.id) = true.
Proof.
  intros Ha. apply existsb_exists. exists (hider r a). split.
  - apply in_map. by apply list_elem_of_In.
  - cbn. by apply bool_decide_eq_true_2.
Qed.

(** ** Lemmas on the event loop *)

Lemma run_stuck f s : next_timer s.(timers) = None -> run f s = s.
Proof. destruct f; simpl; [done|]. intros ->. done. Qed.

Lemma run_add a b s : run (a + b) s = run b (run a s).
Proof.
  revert s. induction a as [|a IH]; intros s; [done|]. simpl.
  destruct (next_timer (timers s)) as [[i tm]|] eqn:Hn; [apply IH|]. by rewrite run_stuck.
Qed.

Lemma next_timer_head tm tms :
  Forall (fun tm' => (tm.(due) <= tm'.(due))%Z) (tm :: tms) -> next_timer (tm :: tms) = Some (0, tm).
Proof. intros H. unfold next_timer. simpl. by rewrite decide_True. Qed.

(** The card of an achievement sits at its position when the keys are distinct. *)
Lemma list_find_key (q : list Achievement) k a :
  NoDup (Achievements.id <$> q) -> q !! k = Some a ->
  list_find (fun b => b.(Achievements.id) = a.(Achievements.id)) q = Some (k, a).
Proof.
  intros Hnd Hk. apply list_find_Some. split_and!; [done|done|].
  intros j y Hj Hlt Hid. assert (j = k); [|lia].
  eapply NoDup_lookup; [exact Hnd| |]; rewrite list_lookup_fmap; [rewrite Hj|rewrite Hk]; simpl; [|done].
  by rewrite Hid.
Qed.

Section Round.
Variable r : Z.

(** The first [k] cards have hidden themselves and armed their 300 ms timers. *)
Lemma hide_phase q k :
  NoDup (Achievements.id <$> q) -> k <= length q ->
  run k (round_state q r)
  = mkNState q (map (hider r) (drop k q) ++ map (closer r) (seq 0 k)) (if k is O then r else (r + show_delay)%Z).
Proof.
  intros Hnd. induction k as [|k IH]; intros Hk.
  - unfold round_state. simpl. by rewrite app_nil_r.
  - rewrite <- Nat.add_1_r, run_add, IH by lia.
    destruct (lookup_lt_is_Some_2 q k) as [a Ha]; [lia|]. rewrite (drop_S q a k Ha).
    cbn [map app run timers]. rewrite next_timer_head.
    + unfold fire, hider. cbn [action due delete queue timers]. rewrite (list_find_key q k a Hnd Ha). cbn.
      rewrite Nat.add_1_r, seq_S, map_app, app_assoc. done.
    + unfold hider, closer. cbn [due]. constructor; [cbn; lia|].
      apply Forall_app_2; apply Forall_forall; intros tm (b & <- & _)%in_map_iff;
        simpl; unfold show_delay, close_delay; lia.
Qed.

Lemma closers_first j n hs :
  Forall (fun tm => is_hide tm = true /\ (r + show_delay + close_delay <= tm.(due))%Z) hs ->
  Forall (fun tm => (r + show_delay + close_delay <= tm.(due))%Z) (map (closer r) (seq j n) ++ hs).
Proof.
  intros Hhs. apply Forall_app_2.
  - apply Forall_forall. intros tm (b & <- & _)%in_map_iff. simpl. lia.
  - eapply Forall_impl; [|exact Hhs]. by intros tm [_ ?].
Qed.

(** The 300 ms timer of position [j] fires: the card at [j] leaves the
    queue, [Index] re-renders and every card left re-arms its 4000 ms timer. *)
Lemma close_step j n Q hs c :
  Forall (fun tm => is_hide tm = true /\ (r + show_delay + close_delay <= tm.(due))%Z) hs ->
  run 1 (mkNState Q (closer r j :: map (closer r) (seq (S j) n) ++ hs) c)
  = mkNState (remove_index j Q)
      (map (closer r) (seq (S j) n) ++ map (hider (r + show_delay + close_delay)) (remove_index j Q))
      (r + show_delay + close_delay)%Z.
Proof.
  intros Hhs. cbn [run timers]. rewrite next_timer_head by (constructor; [cbn; lia|]; by apply closers_first).
  unfold fire, rearm. change (action (closer r j)) with (close_after j).
  change (due (closer r j)) with (r + show_delay + close_delay)%Z. cbn [delete list_delete queue timers run].
  rewrite list.filter_app, (filter_none _ hs), (filter_all _ (map (closer r) _)), app_nil_r; [done| |].
  - apply Forall_forall. by intros tm (b & <- & _)%in_map_iff.
  - intros tm Htm. rewrite list.Forall_forall in Hhs. destruct (Hhs tm Htm) as [-> _]. done.
Qed.

(** The 300 ms timers fire in turn, each removing the position it captured. *)
Lemma close_phase m : forall j Q hs c,
  Forall (fun tm => is_hide tm = true /\ (r + show_delay + close_delay <= tm.(due))%Z) hs ->
  run (S m) (mkNState Q (map (closer r) (seq j (S m)) ++ hs) c)
  = mkNState (fold_left (fun q i => remove_index i q) (seq j (S m)) Q)
      (map (hider (r + show_delay + close_delay)) (fold_left (fun q i => remove_index i q) (seq j (S m)) Q))
      (r + show_delay + close_delay)%Z.
Proof.
  induction m as [|m IH]; intros j Q hs c Hhs.
  - exact (close_step j 0 Q hs c Hhs).
  - change (run (S (S m)) ?s) with (run (1 + S m) s). change (seq j (S (S m))) with (j :: seq (S j) (S m)).
    cbn [map app]. rewrite run_add, close_step by done. apply IH.
    apply Forall_forall. intros tm (b & <- & _)%in_map_iff. split; [done|]. simpl.
    unfold show_delay. lia.
Qed.

(** One round: the cards all hide at [r + 4000]; at [r + 4300] the 300 ms
    timers remove the positions [0, 1, ...] of the shrinking queue. *)
Lemma one_round q :
  q <> [] -> NoDup (Achievements.id <$> q) ->
  run (2 * length q) (round_state q r) = round_state (odds q) (r + show_delay + close_delay).
Proof.
  intros Hne Hnd. replace (2 * length q) with (length q + length q) by lia.
  rewrite run_add, hide_phase, drop_ge by (done || lia).
  destruct (length q) as [|m] eqn:Hl; [by destruct q|]. cbn [map app].
  rewrite <- (app_nil_r (map (closer r) (seq 0 (S m)))), close_phase by constructor.
  rewrite remove_indices_prefix, take_ge, drop_ge, app_nil_r by lia. done.
Qed.
End Round.

Lemma log2_div2 n : 2 <= n -> Nat.log2 n = S (Nat.log2 (Nat.div2 n)).
Proof.
  intros Hn. rewrite (Nat.div2_odd n) at 1.
  assert (0 < Nat.div2 n) by (rewrite Nat.div2_div; apply Nat.div_str_pos; lia).
  destruct (Nat.odd n); cbn [Nat.b2n]; [rewrite Nat.log2_succ_double | rewrite Nat.add_0_r, Nat.log2_double]; auto.
Qed.

(** A queue of [n] cards takes [log2 n + 1] rounds: the number of binary digits of [n]. *)
Lemma rounds_length q : rounds q = match length q with 0 => 0 | S _ => S (Nat.log2 (length q)) end.
Proof.
  funelim (rounds q); [done|]. rewrite H, length_odds. cbn [length].
  destruct (length q) as [|n]; [done|]. cbn [Nat.div2]. rewrite (log2_div2 (S (S n))) by lia. done.
Qed.

(** ** Theorems *)

(** C31: every queue of notifications with distinct keys drains, but
    slowly: from the render that shows the cards at time [r], the page's
    timers empty the queue after [rounds q] rounds of 4300 ms, that is
    [log2 n + 1] rounds for [n] cards, where the component means every card
    to close after one. *)
Theorem notifications_drain q r :
  NoDup (Achievements.id <$> q) ->
  run (drain_fuel q) (round_state q r) = mkNState [] [] (r + (show_delay + close_delay) * Z.of_nat (rounds q))%Z
  /\ rounds q = match length q with 0 => 0 | S _ => S (Nat.log2 (length q)) end.
Proof.
  split; [|apply rounds_length]. revert r H. funelim (rounds q); intros r Hnd.
  - simp drain_fuel. cbn. f_equal. lia.
  - simp drain_fuel. rewrite run_add, one_round by done. rewrite H by (by apply odds_ids).
    f_equal. lia.
Qed.

(** C32: the 300 ms close timers remove the positions they captured four
    seconds earlier from a queue that shrinks as they fire, so one round
    closes only the cards at even positions: with two cards or more, the
    cards at odd positions are still shown at [r + 4300], each with a fresh
    4000 ms timer. *)
Theorem first_round_reshows_odd_positions q r :
  2 <= length q -> NoDup (Achievements.id <$> q) ->
  let s := run (2 * length q) (round_state q r) in
  s.(queue) = odds q /\ length s.(queue) = length q / 2 /\ s.(queue) <> [] /\
  s.(clock) = (r + show_delay + close_delay)%Z /\
  Forall (fun tm => tm.(due) = (r + show_delay + close_delay + show_delay)%Z /\ is_hide tm = true) s.(timers) /\
  Forall (fun a => card_visible s a.(Achievements.id) = true) s.(queue).
Proof.
  intros Hl Hnd. cbn zeta. rewrite one_round by (done || (destruct q; simpl in Hl; [lia|done])).
  cbn [queue clock timers round_state]. rewrite length_odds, Nat.div2_div.
  split_and!; [done|done| |done| |].
  - intros Hq. apply (f_equal length) in Hq. rewrite length_odds, Nat.div2_div in Hq.
    cbn [length] in Hq. pose proof (Nat.div_mod_eq (length q) 2). pose proof (Nat.mod_upper_bound (length q) 2). lia.
  - apply Forall_forall. by intros tm (b & <- & _)%in_map_iff.
  - apply list.Forall_forall. intros a Ha. by apply card_visible_round.
Qed.

Lemma five_cards_keys : NoDup (Achievements.id <$> five_cards).
Proof. apply (bool_decide_eq_true_1 (NoDup _)). vm_compute. reflexivity. Qed.

Lemma notifications_drain_witness :
  run (drain_fuel five_cards) (round_state five_cards 0)
  = mkNState [] [] (0 + (show_delay + close_delay) * Z.of_nat (rounds five_cards))%Z
  /\ rounds five_cards = 3.
Proof.
  destruct (notifications_drain five_cards 0 five_cards_keys) as [H1 H2].
  split; [exact H1|]. rewrite H2. reflexivity.
Defined.

Lemma first_round_reshows_odd_positions_witness :
  (run (2 * length five_cards) (round_state five_cards 0)).(queue) = odds five_cards
  /\ length (odds five_cards) = 2.
Proof.
  destruct (first_round_reshows_odd_positions five_cards 0) as [H1 _]; [vm_compute; lia|exact five_cards_keys|].
  split; [exact H1|reflexivity].
Defined.

(** Four seconds after a render all the cards slide out together:
    once each card's 4000 ms timer has fired, every card of the queue is
    hidden but none has left it; only the 300 ms timers remove them. *)
Theorem cards_hide_together q r :
  q <> [] -> NoDup (Achievements.id <$> q) ->
  let s := run (length q) (round_state q r) in
  s.(queue) = q /\ s.(clock) = (r + show_delay)%Z /\
  Forall (fun a => card_visible s a.(Achievements.id) = false) q.
Proof.
  intros Hne Hnd. cbn zeta. rewrite hide_phase, drop_ge by (done || lia). cbn [map app queue clock].
  split_and!; [done| |].
  - by destruct q.
  - apply list.Forall_forall. intros a _. apply card_visible_closers.
Qed.

Lemma cards_hide_together_witness :
  (run (length five_cards) (round_state five_cards 0)).(clock) = (0 + show_delay)%Z.
Proof.
  destruct (cards_hide_together five_cards 0) as (_ & H & _); [done|exact five_cards_keys|exact H].
Defined.

Lemma run_until_round q r t fuel :
  (t <= r + show_delay)%Z -> run_until t fuel (round_state q r) = round_state q r.
Proof.
  intros Ht. destruct fuel as [|f]; [done|]. cbn [run_until].
  destruct q as [|a q']; [done|]. unfold round_state. cbn [map timers].
  rewrite next_timer_head.
  - cbn [due hider]. by destruct (Z.ltb_spec (r + show_delay) t); [lia|].
  - constructor; [cbn; lia|]. apply Forall_forall. intros tm (b & <- & _)%in_map_iff. simpl. lia.
Qed.

Lemma render_round q r t : render t (round_state q r) = round_state q t.
Proof.
  unfold render, round_state, rearm. cbn [queue timers].
  rewrite filter_none; [done|]. intros tm (b & -> & _)%list_elem_of_fmap. simpl. done.
Qed.

(** C33: while a match is played, the stamina interval re-renders
    [Index] every second, and every render re-arms the cards' 4000 ms
    timers: on a page re-rendered every [p] ms with [0 < p < 4000], no
    card ever hides, and after [n] renders the same queue is shown with
    timers due 4000 ms after the last render. *)
Theorem rerenders_keep_notifications q r p n fuel :
  (0 < p < show_delay)%Z ->
  rerendered (r + p) p n fuel (round_state q r) = round_state q (r + Z.of_nat n * p).
Proof.
  intros Hp. revert r. induction n as [|n IH]; intros r; cbn [rerendered].
  - f_equal. lia.
  - rewrite run_until_round, render_round by lia.
    rewrite IH. f_equal. lia.
Qed.

Lemma rerenders_keep_notifications_witness :
  rerendered (0 + 1000) 1000 60 100 (round_state five_cards 0) = round_state five_cards (0 + Z.of_nat 60 * 1000).
Proof. apply rerenders_keep_notifications. unfold show_delay. lia. Defined.
