(* ===== verification/Timers.v ===== *)
(** * The two timers of [useGameState] ([src/src/hooks/useGameState.ts], lines 232-267)

    [Session.v] lets the computer's cast and the regeneration tick come
    in any order. Here they carry their delays. The regeneration effect
    depends on [phase] and, while [playing], runs [setInterval] with a
    period of 1000 ms. The computer's effect depends on [phase],
    [currentPlayer], [players], [getAISpell] (which changes with
    [difficulty]) and [castSpell] (which changes with [players] and
    [currentPlayer]). When one of those changes it clears its timeout,
    and on the computer's turn it arms a new one of 1500 ms. React
    compares the dependencies by reference. An updater that builds a new
    [players] array (a successful cast, a tick, [startGame],
    [resetGame]) therefore re-runs the effect even when the players are
    equal.

    [Timed] adds to the page a clock, the next due time of each timer
    and a count of the computer's casts. [tstep] is the page's [step]
    with times: an event of the user comes at some time before every
    pending timer, and a timer fires at its due time when it is due
    first. *)

From Stdlib Require Import ZArith Lia.
From stdpp Require Import base list strings decidable.
From S2P Require Import Prelude Spells Achievements GameState AI Session.

Record Timed := mkTimed {
  page : Session;
  now : Z;
  regen_due : option Z;   (** the next firing of the regeneration interval *)
  ai_due : option Z;      (** the firing of the computer's timeout *)
  ai_casts : nat          (** how often the computer's timeout has fired *)
}.

Local Open Scope Z_scope.

Definition regen_period : Z := 1000.
Definition ai_delay : Z := 1500.

(** [gameState.phase === 'playing' && gameState.players[gameState.currentPlayer]?.isAI] *)
Definition ai_turn (g : GameState) : bool :=
  bool_decide (g.(phase) = playing)
  && match js_at g.(players) g.(currentPlayer) with Some p => p.(isAI) | None => false end.

(** The regeneration effect after an update from [prev] to [next] at time [t]. *)
Definition regen_effect (t : Z) (prev next : GameState) (due : option Z) : option Z :=
  if bool_decide (prev.(phase) = next.(phase)) then due
  else if bool_decide (next.(phase) = playing) then Some (t + regen_period) else None.

(** Whether a dependency of the computer's effect changed; [fresh_players]
    says whether the update built a new [players] array. *)
Definition ai_deps_changed (prev next : GameState) (fresh_players : bool) : bool :=
  fresh_players || negb (bool_decide (prev.(phase) = next.(phase)))
  || negb (bool_decide (prev.(currentPlayer) = next.(currentPlayer)))
  || negb (bool_decide (prev.(difficulty) = next.(difficulty))).

Definition ai_effect (t : Z) (prev next : GameState) (fresh_players : bool) (due : option Z) : option Z :=
  if ai_deps_changed prev next fresh_players then (if ai_turn next then Some (t + ai_delay) else None)
  else due.

(** A state update at time [t], followed by the effects React runs after it. *)
Definition commit (t : Z) (T : Timed) (g' : GameState) (fresh_players : bool) : Timed :=
  let g := T.(page).(gs) in
  mkTimed (with_gs T.(page) g') t (regen_effect t g g' T.(regen_due))
    (ai_effect t g g' fresh_players T.(ai_due)) T.(ai_casts).

Definition before_due (t : Z) (due : option Z) : Prop :=
  match due with Some d => t <= d | None => True end.

(** A user event at time [t] overtakes no pending timer. *)
Definition in_window (T : Timed) (t : Z) : Prop :=
  T.(now) <= t /\ before_due t T.(regen_due) /\ before_due t T.(ai_due).

(** The interval's callback: it runs [regenTick] and stays armed for the next period. *)
Definition fire_regen (T : Timed) (r : Z) : Timed :=
  commit r (mkTimed T.(page) T.(now) (Some (r + regen_period)) T.(ai_due) T.(ai_casts))
    (regenTick T.(page).(gs)) true.

Inductive tstep : Timed -> Timed -> Prop :=
| tt_start T t m d :
    in_window T t -> T.(page).(gs).(mode) = mode_menu -> menu_choice m d ->
    tstep T (commit t T (startGame m d T.(page).(gs)) true)
| tt_cast T t input r g' :
    in_window T t ->
    T.(page).(gs).(mode) <> mode_menu -> T.(page).(gs).(phase) <> ended -> human_turn T.(page).(gs) ->
    trim input <> ""%string ->
    castSpell (trim input) T.(page).(gs) = Some (r, g') ->
    tstep T (commit t T g' r.(result_success))
| tt_auto_end T t w :
    in_window T t -> T.(page).(gs).(phase) = playing ->
    Exists (fun p => p.(hp) <= 0) T.(page).(gs).(players) ->
    List.find (fun p => 0 <? p.(hp)) T.(page).(gs).(players) = Some w ->
    tstep T (commit t T (endGame w.(id) T.(page).(gs)) false)
| tt_leave T t :
    in_window T t -> T.(page).(gs).(mode) <> mode_menu ->
    tstep T (commit t T (resetGame T.(page).(gs)) true)
| tt_notify T :
    tstep T (mkTimed (notifyAchievements T.(page)) T.(now) T.(regen_due) T.(ai_due) T.(ai_casts))
| tt_regen T r :
    T.(regen_due) = Some r -> T.(now) <= r -> before_due r T.(ai_due) ->
    tstep T (fire_regen T r)
| tt_ai T a roll ai opp r g' :
    T.(ai_due) = Some a -> T.(now) <= a -> before_due a T.(regen_due) ->
    js_at T.(page).(gs).(players) T.(page).(gs).(currentPlayer) = Some ai ->
    js_at T.(page).(gs).(players) (1 - T.(page).(gs).(currentPlayer)) = Some opp ->
    (roll < length (randomPool T.(page).(gs).(difficulty)))%nat ->
    castSpell (getAISpell T.(page).(gs).(difficulty) ai opp roll) T.(page).(gs) = Some (r, g') ->
    tstep T (commit a (mkTimed T.(page) T.(now) T.(regen_due) None (S T.(ai_casts))) g' r.(result_success)).

Definition initTimed (stored : option string) : Timed := mkTimed (initSession stored) 0 None None 0.

Definition treachable (stored : option string) (T : Timed) : Prop := star tstep (initTimed stored) T.

Local Close Scope Z_scope.

(** ** The timing invariant

    The interval is armed exactly while the match is [playing], and its
    next firing is at most one period away. A pending computer timeout
    is due strictly after the interval's next firing. *)

Definition regen_armed (T : Timed) : Prop :=
  if T.(regen_due) is Some _ then T.(page).(gs).(phase) = playing else T.(page).(gs).(phase) <> playing.

Definition ai_after_regen (T : Timed) : Prop :=
  forall a, T.(ai_due) = Some a -> exists r, T.(regen_due) = Some r /\ (r < a)%Z.

Definition timing_inv (T : Timed) : Prop :=
  (forall r, T.(regen_due) = Some r -> T.(now) <= r <= T.(now) + regen_period)%Z
  /\ regen_armed T /\ ai_after_regen T /\ T.(ai_casts) = 0.

Lemma ai_turn_playing g : ai_turn g = true -> g.(phase) = playing.
Proof. unfold ai_turn. intros [Hp _]%andb_prop. by apply bool_decide_eq_true in Hp. Qed.

Lemma commit_inv t T g' fresh :
  (forall r, T.(regen_due) = Some r -> t <= r <= t + regen_period)%Z ->
  regen_armed T -> (fresh = false -> ai_after_regen T) -> T.(ai_casts) = 0 ->
  timing_inv (commit t T g' fresh).
Proof.
  intros H1 H2 H3 H4. unfold timing_inv, regen_armed, ai_after_regen, commit, with_gs in *. cbn.
  set (g := gs (page T)) in *.
  assert (B1 : forall r, regen_effect t g g' (regen_due T) = Some r -> (t <= r <= t + regen_period)%Z).
  { intros r Hr. unfold regen_effect in Hr. case_bool_decide; [by apply H1|].
    case_bool_decide; [invc Hr; unfold regen_period; lia|done]. }
  assert (B2 : if regen_effect t g g' (regen_due T) is Some _ then phase g' = playing else phase g' <> playing).
  { unfold regen_effect. case_bool_decide as Hp; [by rewrite <- Hp|]. by case_bool_decide. }
  split_and!; [exact B1|exact B2| |exact H4].
  intros a Ha. unfold ai_effect in Ha. destruct (ai_deps_changed g g' fresh) eqn:Hd.
  - destruct (ai_turn g') eqn:Ht; [|done]. invc Ha. apply ai_turn_playing in Ht.
    destruct (regen_effect t g g' (regen_due T)) as [r|] eqn:Hr; [|done].
    exists r. split; [done|]. specialize (B1 r eq_refl). unfold ai_delay, regen_period in *. lia.
  - unfold ai_deps_changed in Hd. apply orb_false_elim in Hd as [Hd _]. apply orb_false_elim in Hd as [Hd _].
    apply orb_false_elim in Hd as [Hf Hph]. apply negb_false_iff, bool_decide_eq_true in Hph.
    unfold regen_effect. rewrite bool_decide_true by done. by apply H3.
Qed.

Lemma window_commit_inv T t g' fresh :
  timing_inv T -> in_window T t -> timing_inv (commit t T g' fresh).
Proof.
  intros (Ha & Hb & Hc & Hd) (Hn & Hr & _). apply commit_inv; [|done|by intros _|done].
  intros r Hr'. rewrite Hr' in Hr. simpl in Hr. specialize (Ha r Hr'). lia.
Qed.

(** The computer's timeout is never due first. *)
Lemma ai_not_due T a : timing_inv T -> T.(ai_due) = Some a -> ~ before_due a T.(regen_due).
Proof.
  intros (_ & _ & Hc & _) Ha Hb. destruct (Hc a Ha) as (r & Hr & Hlt). rewrite Hr in Hb. simpl in Hb. lia.
Qed.

Lemma fire_regen_inv T r : timing_inv T -> T.(regen_due) = Some r -> timing_inv (fire_regen T r).
Proof.
  intros (Ha & Hb & Hc & Hd) Hr. apply commit_inv; [|simpl|done|done].
  - intros r' [= <-]. unfold regen_period. lia.
  - unfold regen_armed in Hb. by rewrite Hr in Hb.
Qed.

Lemma tstep_inv T T' : timing_inv T -> tstep T T' -> timing_inv T'.
Proof.
  intros Hi Hs. destruct Hs as [T t m d Hw| T t input r g' Hw| T t w Hw| T t Hw|T|T r Hr|T a roll ai opp r g' Ha _ Hb];
    try by apply window_commit_inv.
  - destruct Hi as (Ha & Hb & Hc & Hd). unfold timing_inv, regen_armed, ai_after_regen in *; cbn.
    by rewrite notify_gs.
  - by apply fire_regen_inv.
  - by destruct (ai_not_due T a Hi Ha Hb).
Qed.

Lemma initTimed_inv k : timing_inv (initTimed k).
Proof. split_and!; [done|by cbn|done|done]. Qed.

Lemma tstep_step T T' : timing_inv T -> tstep T T' -> T'.(page) = T.(page) \/ step T.(page) T'.(page).
Proof.
  intros Hi Hs.
  destruct Hs as [T t m d Hw Hm Hc| T t input r g' Hw Hm Hp Hh Hn Hc| T t w Hw Hp He Hf| T t Hw Hm|T|T r Hr|T a roll ai opp r g' Ha _ Hb];
    right.
  - by apply st_start.
  - by eapply st_cast.
  - by apply st_auto_end.
  - by apply st_leave.
  - apply st_notify.
  - apply st_tick. destruct Hi as (_ & Hb & _). unfold regen_armed in Hb. by rewrite Hr in Hb.
  - by destruct (ai_not_due T a Hi Ha Hb).
Qed.

Lemma tstar_star T T' : timing_inv T -> star tstep T T' -> star step T.(page) T'.(page).
Proof.
  intros Hi Hs. induction Hs as [T|T1 T2 T3 H12 H23 IH]; [constructor|].
  destruct (tstep_step T1 T2 Hi H12) as [He|Hst].
  - rewrite <- He. by apply IH, (tstep_inv T1).
  - eapply star_step; [exact Hst|]. by apply IH, (tstep_inv T1).
Qed.

Lemma ai_turn_regenTick g : ai_turn (regenTick g) = ai_turn g.
Proof.
  unfold ai_turn, regenTick, set_players. cbn. rewrite js_at_map.
  by destruct (js_at (players g) (currentPlayer g)).
Qed.

(** One more period of the interval on the computer's turn. *)
Lemma regen_on_ai_turn T r :
  timing_inv T -> ai_turn T.(page).(gs) = true -> T.(regen_due) = Some r ->
  tstep T (fire_regen T r) /\ ai_turn (fire_regen T r).(page).(gs) = true
  /\ (fire_regen T r).(regen_due) = Some (r + regen_period)%Z /\ (fire_regen T r).(ai_casts) = 0.
Proof.
  intros Hi Ht Hr. pose proof Hi as (Ha & _ & Hc & Hd).
  split_and!.
  - apply tt_regen; [done|by apply Ha in Hr as []|].
    destruct (ai_due T) as [a|] eqn:Hai; [|done]. destruct (Hc a Hai) as (r' & Hr' & Hlt).
    simpl. congruence || (rewrite Hr in Hr'; invc Hr'; lia).
  - unfold fire_regen, commit, with_gs. cbn. by rewrite ai_turn_regenTick.
  - unfold fire_regen, commit, regen_effect. cbn. by rewrite bool_decide_true.
  - exact Hd.
Qed.

(** ** Theorems *)

(** C2: in every timed run of the page the computer's timeout never
    fires, so the computer never casts: every tick of the 1000 ms
    regeneration interval builds a new [players] array, which re-runs
    the computer's effect and re-arms its 1500 ms timeout before it is
    due. *)
Theorem ai_never_casts k T : treachable k T -> T.(ai_casts) = 0%nat.
Proof.
  intros Hr. exact (proj2 (proj2 (proj2
    (star_invariant tstep timing_inv _ _ tstep_inv (initTimed_inv k) Hr)))).
Qed.

(** C24: the timed page refines the untimed one: every timed run is a
    run of [step], so the theorems on [reachable] hold of it. *)
Theorem timed_refines k T : treachable k T -> reachable k T.(page).
Proof. intros Hr. exact (tstar_star _ _ (initTimed_inv k) Hr). Qed.

(** C25: once it is the computer's turn, the interval keeps firing: for
    every [n] there is a run of [n] more ticks at the end of which it is
    still the computer's turn and the computer has not cast. *)
Theorem ai_turn_stalls T r :
  timing_inv T -> ai_turn T.(page).(gs) = true -> T.(regen_due) = Some r ->
  forall n, exists T', star tstep T T' /\ ai_turn T'.(page).(gs) = true
                      /\ T'.(regen_due) = Some (r + regen_period * Z.of_nat n)%Z /\ T'.(ai_casts) = 0%nat.
Proof.
  intros Hi Ht Hr n. induction n as [|n (T' & Hs & Ht' & Hr' & Hc')].
  - exists T. split_and!; [constructor|done|rewrite Hr; f_equal; lia|apply Hi].
  - pose proof (star_invariant tstep timing_inv _ _ tstep_inv Hi Hs) as Hi'.
    destruct (regen_on_ai_turn T' _ Hi' Ht' Hr') as (Hst & Ht'' & Hr'' & Hc'').
    exists (fire_regen T' (r + regen_period * Z.of_nat n)%Z). split_and!; [|done| |done].
    + by eapply star_snoc.
    + rewrite Hr''. f_equal. lia.
Qed.

(** ** A concrete run: a match against the computer, and the first cast *)

Definition vs_ai_started : Timed := commit 0 (initTimed None) (startGame mode_ai normal initialState) true.

Definition vs_ai_cast : Timed :=
  match castSpell "Stupefy" vs_ai_started.(page).(gs) with
  | Some (r, g') => commit 10 vs_ai_started g' r.(result_success)
  | None => vs_ai_started
  end.

Lemma vs_ai_cast_reachable : treachable None vs_ai_cast.
Proof.
  apply (star_step _ _ vs_ai_started).
  { apply (tt_start (initTimed None) 0 mode_ai normal); [repeat split; cbn; lia|done|constructor]. }
  apply star_one. unfold vs_ai_cast.
  destruct (castSpell "Stupefy" (gs (page vs_ai_started))) as [[r g']|] eqn:Hc; [|vm_compute in Hc; discriminate].
  apply (tt_cast vs_ai_started 10 "Stupefy" r g'); [repeat split; vm_compute; try discriminate..|exact Hc].
  exists (initialPlayer "player1" "Player 1" false). split; reflexivity.
Qed.

(** The computer's turn does come: after player 1's first cast at
    10 ms, it is the computer's turn with its timeout due at 1510 ms and
    the interval due at 1000 ms. *)
Theorem ai_turn_reached :
  exists T, treachable None T /\ ai_turn T.(page).(gs) = true
            /\ T.(ai_due) = Some 1510%Z /\ T.(regen_due) = Some 1000%Z.
Proof.
  exists vs_ai_cast. split_and!; [apply vs_ai_cast_reachable|vm_compute; reflexivity..].
Qed.

(** Witnesses *)

Lemma ai_never_casts_witness : vs_ai_cast.(ai_casts) = 0%nat.
Proof. exact (ai_never_casts None vs_ai_cast vs_ai_cast_reachable). Defined.

Lemma timed_refines_witness : reachable None vs_ai_cast.(page).
Proof. exact (timed_refines None vs_ai_cast vs_ai_cast_reachable). Defined.

Lemma ai_turn_stalls_witness :
  exists T', star tstep vs_ai_cast T' /\ ai_turn T'.(page).(gs) = true
             /\ T'.(regen_due) = Some 1000000%Z /\ T'.(ai_casts) = 0%nat.
Proof.
  destruct (ai_turn_stalls vs_ai_cast 1000 (star_invariant tstep timing_inv _ _ tstep_inv (initTimed_inv None) vs_ai_cast_reachable)
              ltac:(vm_compute; reflexivity) ltac:(vm_compute; reflexivity) 999)
    as (T' & Hs & Ht & Hr & Hc).
  exists T'. split_and!; [exact Hs|exact Ht| |exact Hc]. rewrite Hr. reflexivity.
Defined.
