(* ===== verification/Page.v ===== *)
(** * The whole page in time: [Index], [GameArena]'s input box and the timers

    [Timers.v] gives the page's game state its two timers. Here the page
    also has [GameArena]'s own state, the input box [ArenaInput] of
    [View.v], with the timer [handleSpellCast] arms to release the input
    800 ms after a cast ([src/src/components/GameArena.tsx], lines 19-43
    and 213-225). [GameArena] is mounted while [gameState.mode] is not
    ['menu'] ([src/src/pages/Index.tsx], lines 95-106): [startGame]
    mounts it with [useState('')] and [useState(false)]; a lock timer
    of an earlier mount would call the setter of an unmounted component,
    which React ignores, so a new mount drops it.

    [pstep] is one event of the page at a time no earlier than the last
    one and no later than any pending timer: typing, a click on the Cast
    button (or Enter, which runs the same handler), the release of the
    lock, and the events of [tstep] other than the typed cast. The field
    [last_click] records the time of the last cast from the input box
    since [GameArena] was mounted: it is read by no rule, only by the
    theorems. *)

From Stdlib Require Import ZArith Lia.
From stdpp Require Import base list strings decidable.
From S2P Require Import Prelude Spells Achievements GameState AI Session View Timers.

Record PageState := mkPage {
  timed : Timed;
  arena : ArenaInput;        (** [spellInput], [isAnimating] of [GameArena] *)
  anim_due : option Z;       (** [setTimeout(() => setIsAnimating(false), 800)] *)
  clock : Z;                 (** the time of the last event *)
  last_click : option Z
}.

Local Open Scope Z_scope.

(** An event at time [t] comes after the last one and overtakes no pending timer. *)
Definition pwindow (P : PageState) (t : Z) : Prop :=
  P.(clock) <= t /\ in_window P.(timed) t /\ before_due t P.(anim_due).

(** The duel screen with the input box: [{isPlayerTurn && (...)}] on a
    match not ended. *)
Definition input_shown (g : GameState) : Prop :=
  g.(mode) <> mode_menu /\ g.(phase) <> ended /\ isPlayerTurn g = true.

Definition with_timed (P : PageState) (T : Timed) (t : Z) : PageState :=
  mkPage T P.(arena) P.(anim_due) t P.(last_click).

Inductive pstep : PageState -> PageState -> Prop :=
| pp_start P t m d :
    pwindow P t -> P.(timed).(page).(gs).(mode) = mode_menu -> menu_choice m d ->
    pstep P (mkPage (commit t P.(timed) (startGame m d P.(timed).(page).(gs)) true) initArenaInput None t None)
| pp_type P t v :
    pwindow P t -> input_shown P.(timed).(page).(gs) ->
    pstep P (mkPage P.(timed) (typeSpell P.(arena) v) P.(anim_due) t P.(last_click))
| pp_click P t inp' toast r g' :
    pwindow P t -> input_shown P.(timed).(page).(gs) -> castButtonDisabled P.(arena) = false ->
    handleSpellCast P.(arena) P.(timed).(page).(gs) = Some (inp', Some (toast, g')) ->
    castSpell (trim P.(arena).(spellInput)) P.(timed).(page).(gs) = Some (r, g') ->
    pstep P (mkPage (commit t P.(timed) g' r.(result_success)) inp' (Some (t + animation_delay)) t (Some t))
| pp_release P a :
    P.(anim_due) = Some a -> P.(clock) <= a ->
    before_due a P.(timed).(regen_due) -> before_due a P.(timed).(ai_due) ->
    pstep P (mkPage P.(timed) (releaseAnimation P.(arena)) None a P.(last_click))
| pp_auto_end P t w :
    pwindow P t -> P.(timed).(page).(gs).(phase) = playing ->
    Exists (fun p => p.(hp) <= 0) P.(timed).(page).(gs).(players) ->
    List.find (fun p => 0 <? p.(hp)) P.(timed).(page).(gs).(players) = Some w ->
    pstep P (with_timed P (commit t P.(timed) (endGame w.(id) P.(timed).(page).(gs)) false) t)
| pp_leave P t :
    pwindow P t -> P.(timed).(page).(gs).(mode) <> mode_menu ->
    pstep P (with_timed P (commit t P.(timed) (resetGame P.(timed).(page).(gs)) true) t)
| pp_notify P :
    pstep P (with_timed P (mkTimed (notifyAchievements P.(timed).(page)) P.(timed).(now)
                            P.(timed).(regen_due) P.(timed).(ai_due) P.(timed).(ai_casts)) P.(clock))
| pp_regen P r :
    P.(timed).(regen_due) = Some r -> P.(clock) <= r -> P.(timed).(now) <= r ->
    before_due r P.(timed).(ai_due) -> before_due r P.(anim_due) ->
    pstep P (with_timed P (fire_regen P.(timed) r) r)
| pp_ai P a roll ai opp r g' :
    P.(timed).(ai_due) = Some a -> P.(clock) <= a -> P.(timed).(now) <= a ->
    before_due a P.(timed).(regen_due) -> before_due a P.(anim_due) ->
    js_at P.(timed).(page).(gs).(players) P.(timed).(page).(gs).(currentPlayer) = Some ai ->
    js_at P.(timed).(page).(gs).(players) (1 - P.(timed).(page).(gs).(currentPlayer)) = Some opp ->
    (roll < length (randomPool P.(timed).(page).(gs).(difficulty)))%nat ->
    castSpell (getAISpell P.(timed).(page).(gs).(difficulty) ai opp roll) P.(timed).(page).(gs) = Some (r, g') ->
    pstep P (with_timed P (commit a (mkTimed P.(timed).(page) P.(timed).(now) P.(timed).(regen_due) None
                                     (S P.(timed).(ai_casts))) g' r.(result_success)) a).

Definition initPage (stored : option string) : PageState := mkPage (initTimed stored) initArenaInput None 0 None.

Definition preachable (stored : option string) (P : PageState) : Prop := star pstep (initPage stored) P.

Local Close Scope Z_scope.

(** The lock: after a cast from the input box, the input stays locked
    until the release timer, due 800 ms after the cast, has fired. *)
Definition lock_inv (P : PageState) : Prop :=
  forall c, P.(last_click) = Some c ->
  (P.(arena).(isAnimating) = true /\ P.(anim_due) = Some (c + animation_delay)%Z)
  \/ (P.(arena).(isAnimating) = false /\ (c + animation_delay <= P.(clock))%Z).

(** ** Lemmas *)

Lemma isPlayerTurn_human g : isPlayerTurn g = true -> human_turn g.
Proof.
  unfold isPlayerTurn, human_turn. destruct (js_at _ _) as [p|]; [|done].
  intros H. exists p. split; [done|]. by destruct (isAI p).
Qed.

Lemma castButton_nonblank inp : castButtonDisabled inp = false -> trim inp.(spellInput) <> ""%string.
Proof. unfold castButtonDisabled. intros H Heq. rewrite (bool_decide_eq_true_2 _ Heq) in H. done. Qed.

Lemma handleSpellCast_cast inp g inp' toast g' :
  handleSpellCast inp g = Some (inp', Some (toast, g')) -> inp' = mkArenaInput "" true.
Proof.
  unfold handleSpellCast. case_bool_decide; [done|].
  destruct (castSpell _ _) as [[r g'']|]; [|done]. by intros [= <- _ _].
Qed.

(** Each event of the page is an event of [Timers.v] or leaves its part unchanged. *)
Lemma pstep_tstep P P' : pstep P P' -> tstep P.(timed) P'.(timed) \/ P'.(timed) = P.(timed).
Proof.
  destruct 1 as [P t m d Hw Hm Hc|P t v _ _|P t inp' toast r g' Hw Hs Hb _ Hc|P a _ _ _ _
                |P t w Hw Hph Hd Hf|P t Hw Hm|P|P r Hr _ Hn Ha _|P a roll ai opp r g' Ha _ Hn Hr _ Hai Hopp Hroll Hc];
    cbn [timed with_timed]; try by right.
  - left. apply tt_start; [apply Hw|done|done].
  - left. destruct Hs as (Hm & Hph & Ht). apply castButton_nonblank in Hb.
    eapply tt_cast; [apply Hw|done|done|by apply isPlayerTurn_human|done|exact Hc].
  - left. eapply tt_auto_end; [apply Hw|done|done|done].
  - left. apply tt_leave; [apply Hw|done].
  - left. apply tt_notify.
  - left. by apply tt_regen.
  - left. by eapply tt_ai.
Qed.

Lemma pstep_clock P P' : pstep P P' -> (P.(clock) <= P'.(clock))%Z.
Proof. destruct 1; cbn [clock with_timed]; try lia; match goal with H : pwindow _ _ |- _ => apply H end. Qed.

Lemma lock_inv_step P P' : lock_inv P -> pstep P P' -> lock_inv P'.
Proof.
  intros Hi Hs. pose proof (pstep_clock _ _ Hs) as Hc.
  destruct Hs as [P t m d|P t v|P t inp' toast r g' _ _ _ Hh _|P a Ha|P t w|P t|P|P r|P a];
    intros c' Hl; cbn [last_click arena anim_due clock with_timed] in *; try done;
    try (destruct (Hi c' Hl) as [[? ?]|[? ?]]; [left|right]; split; done || lia).
  - unfold typeSpell. destruct (Hi c' Hl) as [[Ha Hd]|[Hf ?]]; rewrite ?Ha, ?Hf; cbn [isAnimating];
      [left|right]; split; done || lia.
  - injection Hl as <-. rewrite (handleSpellCast_cast _ _ _ _ _ Hh). by left.
  - right. split; [done|]. destruct (Hi c' Hl) as [[_ Hd]|[_ ?]]; [|lia].
    rewrite Ha in Hd. injection Hd as ->. lia.
Qed.

Lemma initPage_lock_inv k : lock_inv (initPage k).
Proof. by intros c. Qed.

Lemma lock_inv_reachable k P : preachable k P -> lock_inv P.
Proof. intros Hr. exact (star_invariant pstep lock_inv _ _ lock_inv_step (initPage_lock_inv k) Hr). Qed.

(** Discharges the premises of one event of a concrete run. *)
Ltac page_event := repeat split; vm_compute; first [reflexivity | discriminate | lia | exact I | intros; discriminate].

(** A two-player duel: player 1 types and casts at 10 ms, the lock is
    released at 810 ms, player 2 types and casts at 900 ms. *)
Lemma two_casts_run :
  exists P P', preachable None P /\ P.(last_click) = Some 10%Z /\ pstep P P' /\ P'.(last_click) = Some 900%Z.
Proof.
  do 2 eexists. split; [|split; [|split]].
  - eapply star_step; [eapply (pp_start _ 0 mode_pvp normal); [page_event|page_event|constructor]|].
    eapply star_step; [eapply (pp_type _ 5 "stupefy"); page_event|].
    eapply star_step; [eapply (pp_click _ 10); page_event|].
    eapply star_step; [eapply (pp_release _ 810); page_event|].
    eapply star_step; [eapply (pp_type _ 820 "stupefy"); page_event|].
    apply star_refl.
  - reflexivity.
  - eapply (pp_click _ 900); page_event.
  - reflexivity.
Qed.

(** ** Theorems *)

(** C14: the whole page, with [GameArena]'s input box and its lock
    timer, refines the timed model of [Timers.v]: every run of the page
    is a timed run, hence a run of [step], and in it the computer's
    timeout never fires. *)
Theorem page_refines_timed k P :
  preachable k P -> treachable k P.(timed) /\ reachable k P.(timed).(page) /\ P.(timed).(ai_casts) = 0.
Proof.
  intros Hr. assert (Ht : treachable k P.(timed)) by exact (star_map _ _ timed _ _ pstep_tstep Hr).
  split_and!; [exact Ht|exact (tstar_star _ _ (initTimed_inv k) Ht)|].
  exact (proj2 (proj2 (proj2 (star_invariant tstep timing_inv _ _ tstep_inv (initTimed_inv k) Ht)))).
Qed.

(** C34: in one visit of the arena, two casts from the input box are at
    least 800 ms apart: [handleSpellCast] locks the input and the Cast
    button until its 800 ms timer releases them. *)
Theorem clicks_spaced k P P' c t :
  preachable k P -> P.(last_click) = Some c -> pstep P P' -> P'.(last_click) = Some t ->
  t = c \/ (c + animation_delay <= t)%Z.
Proof.
  intros Hr Hc Hs Ht. pose proof (lock_inv_reachable k P Hr c Hc) as Hi.
  destruct Hs as [| |P t' inp' toast r g' Hw _ Hb _ _| | | | | |]; cbn [last_click with_timed] in Ht;
    try (left; congruence); try discriminate.
  injection Ht as <-. unfold castButtonDisabled in Hb. apply orb_false_iff in Hb as [_ Ha].
  destruct Hi as [[Ha' _]|[_ Hle]]; [congruence|]. right. destruct Hw as (Hw & _). lia.
Qed.

(** ** Witnesses *)

Lemma page_refines_timed_witness :
  exists P, preachable None P /\ treachable None P.(timed) /\ P.(timed).(ai_casts) = 0.
Proof.
  destruct two_casts_run as (P & _ & Hr & _).
  exists P. destruct (page_refines_timed None P Hr) as (H1 & _ & H3). split_and!; [exact Hr|exact H1|exact H3].
Defined.

Lemma clicks_spaced_witness :
  exists P P', preachable None P /\ P.(last_click) = Some 10%Z /\ pstep P P' /\ P'.(last_click) = Some 900%Z
    /\ (900 = 10 \/ 10 + animation_delay <= 900)%Z.
Proof.
  destruct two_casts_run as (P & P' & Hr & Hc & Hs & Ht).
  exists P, P'. split_and!; [exact Hr|exact Hc|exact Hs|exact Ht|].
  exact (clicks_spaced None P P' 10 900 Hr Hc Hs Ht).
Defined.
